(** * The chat-session controller of the control UI

    A shallow embedding of [ui/src/ui/controllers/chat.ts] (the local cache
    store, the attachment lifecycle, the history merge and the run state
    machine) and of the send queue of [ui/src/ui/app-chat.ts], with the
    properties of the controller's specification stated over it, followed by
    further properties of the cache (what is written is what is read back),
    of the bubbles of local voice notes, of the commands and of the requests
    that reach the gateway.

    Conventions of the embedding.
    - A JavaScript string is a [string]: its characters are read as code
      units below 256, of which 9-13, 32 and 160 are the white space and line
      terminators that [trim] removes.
    - A value of type [unknown] (a chat message, a content block) is a
      [JsValue]; an object is the list of its properties in insertion order.
    - Attachments are objects that the code mutates in place and shares
      between arrays, so they live in a heap and arrays hold references.
    - [localStorage], the log of [client.request] calls, [console.warn],
      [Date.now] and [generateUUID] are the fields of a [World] that every
      effectful function threads through. *)

From Stdlib Require Import ZArith Ascii String List Bool Lia.
From stdpp Require Import base gmap sets list strings pretty.


(** ** JavaScript strings *)

Module Js.

Definition isWhiteSpace (c : ascii) : bool :=
  match N_of_ascii c with
  | 9%N | 10%N | 11%N | 12%N | 13%N | 32%N | 160%N => true
  | _ => false
  end.

Fixpoint trimStart (s : string) : string :=
  match s with
  | EmptyString => EmptyString
  | String c s' => if isWhiteSpace c then trimStart s' else s
  end.

Fixpoint trimEnd (s : string) : string :=
  match s with
  | EmptyString => EmptyString
  | String c s' =>
      match trimEnd s' with
      | EmptyString => if isWhiteSpace c then EmptyString else String c EmptyString
      | t => String c t
      end
  end.

(** [s.trim()] *)
Definition trim (s : string) : string := trimEnd (trimStart s).

(** Truthiness of a string: [Boolean(s)]. *)
Definition truthy (s : string) : bool :=
  match s with
  | EmptyString => false
  | String _ _ => true
  end.

Definition lowerChar (c : ascii) : ascii :=
  let n := N_of_ascii c in
  if ((65 <=? n) && (n <=? 90))%N then ascii_of_N (n + 32)
  else if ((192 <=? n) && (n <=? 222) && negb (n =? 215))%N then ascii_of_N (n + 32)
  else c.

(** [s.toLowerCase()] *)
Fixpoint toLowerCase (s : string) : string :=
  match s with
  | EmptyString => EmptyString
  | String c s' => String (lowerChar c) (toLowerCase s')
  end.

(** [s.startsWith(p)] *)
Definition startsWith (s p : string) : bool := String.prefix p s.

(** The rest of [s] after the prefix [p], when [s] starts with [p]. *)
Fixpoint stripPrefix (p s : string) : option string :=
  match p with
  | EmptyString => Some s
  | String a p' =>
      match s with
      | String b s' => if Ascii.eqb a b then stripPrefix p' s' else None
      | EmptyString => None
      end
  end.

(** [s.split(/\r?\n/)] *)
Fixpoint splitLines (s : string) : list string :=
  match s with
  | EmptyString => [EmptyString]
  | String c s' =>
      let rest := splitLines s' in
      if Ascii.eqb c "010" then EmptyString :: rest
      else if Ascii.eqb c "013" && startsWith s' (String "010" EmptyString) then rest
      else match rest with
           | h :: t => String c h :: t
           | [] => [String c EmptyString]
           end
  end.

(** [parts.join(sep)] *)
Definition join (sep : string) (parts : list string) : string :=
  String.concat sep parts.

(** [`${n}`] for a natural number. *)
Definition ofNat (n : nat) : string :=
  pretty n.

Definition isLineTerminator (c : ascii) : bool :=
  Ascii.eqb c "010" || Ascii.eqb c "013".

Fixpoint all (p : ascii -> bool) (s : string) : bool :=
  match s with
  | EmptyString => true
  | String c s' => p c && all p s'
  end.

(** The longest prefix of [s] that holds no [stop] character, and the rest. *)
Fixpoint span (stop : ascii) (s : string) : string * string :=
  match s with
  | EmptyString => (EmptyString, EmptyString)
  | String c s' =>
      if Ascii.eqb c stop then (EmptyString, s)
      else let '(a, b) := span stop s' in (String c a, b)
  end.

End Js.

(** ** Values of type [unknown] *)

#[warnings="-register-all"]
Inductive JsValue : Type :=
  | JUndefined
  | JNull
  | JBool (b : bool)
  | JNum (n : Z)
  | JStr (s : string)
  | JArr (items : list JsValue)
  | JObj (props : list (string * JsValue)).

(** [o[key]] on the properties of an object. *)
Fixpoint getProp (key : string) (props : list (string * JsValue)) : JsValue :=
  match props with
  | [] => JUndefined
  | (k, v) :: rest => if String.eqb k key then v else getProp key rest
  end.

(** [key in o] *)
Fixpoint hasProp (key : string) (props : list (string * JsValue)) : bool :=
  match props with
  | [] => false
  | (k, _) :: rest => String.eqb k key || hasProp key rest
  end.

(** [{ ...o, key: v }]: an own property keeps its place, a new one goes last. *)
Fixpoint setProp (key : string) (v : JsValue) (props : list (string * JsValue))
  : list (string * JsValue) :=
  match props with
  | [] => [(key, v)]
  | (k, w) :: rest =>
      if String.eqb k key then (k, v) :: rest else (k, w) :: setProp key v rest
  end.

(** [v.key] for any value [v] that is not [null] or [undefined]: only objects
    carry the properties the controller reads. *)
Definition field (key : string) (v : JsValue) : JsValue :=
  match v with
  | JObj props => getProp key props
  | _ => JUndefined
  end.

(** An optional string as a property value. *)
Definition optStr (o : option string) : JsValue :=
  match o with
  | Some s => JStr s
  | None => JUndefined
  end.

(** ** The history merge *)

Definition getLocalVoiceNoteMarkerId (message : JsValue) : option string :=
  match message with
  | JObj raw =>
      match getProp "__openclaw" raw with
      | JObj marker =>
          match getProp "kind" marker with
          | JStr kind =>
              if String.eqb kind "local-voice-note" then
                match getProp "id" marker with
                | JStr id => if Js.truthy (Js.trim id) then Some (Js.trim id) else None
                | _ => None
                end
              else None
          | _ => None
          end
      | _ => None
      end
  | _ => None
  end.

(** The two loops of [mergeLocalVoiceNoteMessages]. *)
Fixpoint collectMarkerIds (seen : gset string) (history : list JsValue) : gset string :=
  match history with
  | [] => seen
  | message :: rest =>
      match getLocalVoiceNoteMarkerId message with
      | Some markerId => collectMarkerIds ({[ markerId ]} ∪ seen) rest
      | None => collectMarkerIds seen rest
      end
  end.

Fixpoint pushUnseen (seen : gset string) (merged localVoiceNotes : list JsValue)
  : list JsValue :=
  match localVoiceNotes with
  | [] => merged
  | message :: rest =>
      match getLocalVoiceNoteMarkerId message with
      | Some markerId =>
          if decide (markerId ∈ seen) then pushUnseen seen merged rest
          else pushUnseen ({[ markerId ]} ∪ seen) (merged ++ [message]) rest
      | None => pushUnseen seen merged rest
      end
  end.

Definition mergeLocalVoiceNoteMessages (history localVoiceNotes : list JsValue)
  : list JsValue :=
  match localVoiceNotes with
  | [] => history
  | _ => pushUnseen (collectMarkerIds ∅ history) history localVoiceNotes
  end.


(** ** The data model *)

Inductive ChatAttachmentKind := KindImage | KindVoiceNote.
Inductive AttachmentSource := SourceUpload | SourceRecord.

(** [ChatAttachment] of [ui-types.ts]. *)
Record ChatAttachment := {
  a_id : string;
  a_kind : option ChatAttachmentKind;
  a_dataUrl : string;
  a_previewUrl : option string;
  a_mimeType : string;
  a_fileName : option string;
  a_source : option AttachmentSource;
  a_durationMs : option Z;
  a_transcript : option string;
  a_transcriptParts : option (list string);
  a_persistedNoteId : option string;
}.

(** [attachment.persistedNoteId = id] *)
Definition setPersistedNoteId (id : string) (a : ChatAttachment) : ChatAttachment :=
  {| a_id := a_id a; a_kind := a_kind a; a_dataUrl := a_dataUrl a;
     a_previewUrl := a_previewUrl a; a_mimeType := a_mimeType a;
     a_fileName := a_fileName a; a_source := a_source a;
     a_durationMs := a_durationMs a; a_transcript := a_transcript a;
     a_transcriptParts := a_transcriptParts a; a_persistedNoteId := Some id |}.

Record StoredChatAttachment := {
  sa_id : string;
  sa_kind : option ChatAttachmentKind;
  sa_dataUrl : string;
  sa_mimeType : string;
  sa_fileName : option string;
  sa_source : option AttachmentSource;
  sa_durationMs : option Z;
  sa_transcript : option string;
  sa_transcriptParts : option (list string);
  sa_persistedNoteId : option string;
}.

Definition storedSetPersistedNoteId (id : string) (a : StoredChatAttachment)
  : StoredChatAttachment :=
  {| sa_id := sa_id a; sa_kind := sa_kind a; sa_dataUrl := sa_dataUrl a;
     sa_mimeType := sa_mimeType a; sa_fileName := sa_fileName a;
     sa_source := sa_source a; sa_durationMs := sa_durationMs a;
     sa_transcript := sa_transcript a; sa_transcriptParts := sa_transcriptParts a;
     sa_persistedNoteId := Some id |}.

Record StoredLocalVoiceNote := {
  vn_id : string;
  vn_timestamp : Z;
  vn_attachment : StoredChatAttachment;
}.

(** An absent property and one set to [undefined] are both [None]:
    [JSON.stringify] drops the latter when the store is written. *)
Record StoredSessionChatState := {
  draft : option string;
  attachments : option (list StoredChatAttachment);
  voiceNotes : option (list StoredLocalVoiceNote);
}.

Record StoredChatStateStore := {
  version : Z;
  sessions : gmap string StoredSessionChatState;
}.

Definition LOCAL_CHAT_STATE_VERSION : Z := 1.
Definition LOCAL_CHAT_ATTACHMENTS_LIMIT : nat := 8.
Definition LOCAL_CHAT_VOICE_NOTES_LIMIT : nat := 40.

(** The item of [window.localStorage] under [LOCAL_CHAT_STATE_KEY]: what
    [JSON.parse] reads there as a store ([None] when the item is missing or
    is no object with a numeric version and a sessions object), and whether
    [setItem] succeeds (no quota or private-mode failure). *)
Record LocalStorage := {
  ls_item : option StoredChatStateStore;
  ls_writable : bool;
}.

Inductive ChatEventState := StDelta | StFinal | StAborted | StError.

Record ChatEventPayload := {
  ev_runId : string;
  ev_sessionKey : string;
  ev_state : ChatEventState;
  ev_message : JsValue;
  ev_errorMessage : option string;
}.

(** The parameters of the three requests the controller issues. *)
Record VoiceNotesSaveParams := {
  vs_sessionKey : string;
  vs_source : AttachmentSource;
  vs_durationMs : option Z;
  vs_transcript : option string;
  vs_transcriptParts : option (list string);
  vs_audio_mimeType : string;
  vs_audio_fileName : option string;
  vs_audio_content : string;
}.

Record ApiAttachment := {
  api_mimeType : string;
  api_content : string;
}.

Record ChatSendParams := {
  cs_sessionKey : string;
  cs_message : string;
  cs_deliver : bool;
  cs_idempotencyKey : string;
  cs_attachments : option (list ApiAttachment);
}.

Inductive Request :=
  | VoiceNotesSave (params : VoiceNotesSaveParams)
  | ChatSend (params : ChatSendParams)
  | ChatAbort (sessionKey : string) (runId : option string).

(** How a request settles: it resolves (for [voice-notes.save] with
    [result.note?.id]) or rejects with an error, given as [String(err)]. *)
Inductive Outcome :=
  | Resolved (noteId : option string)
  | Rejected (err : string).

(** What happens while the caller awaits a request: the push events that
    are handled in the meantime, then the outcome. *)
Record Reply := {
  pushed : list ChatEventPayload;
  outcome : Outcome;
}.

(** The gateway client, consumed as [request(method, params)]: the reply may
    depend on the calls made before. *)
Record GatewayBrowserClient := {
  respond : list Request -> Request -> Reply;
}.

(** A reference to an attachment object. *)
Definition loc := nat.

Record ChatState := {
  client : option GatewayBrowserClient;
  connected : bool;
  sessionKey : string;
  chatLoading : bool;
  chatMessages : list JsValue;
  chatThinkingLevel : option string;
  chatSending : bool;
  chatMessage : string;
  chatAttachments : list loc;
  chatRunId : option string;
  chatStream : option string;
  chatStreamStartedAt : option Z;
  lastError : option string;
}.

Record ChatQueueItem := {
  q_id : string;
  q_text : string;
  q_createdAt : Z;
  q_attachments : option (list loc);
  q_refreshSessions : bool;
}.

(** [ChatHost] of [app-chat.ts] is a second view of the application object
    that [ChatState] describes: the controller's fields and the queue
    (the recorder, avatar and base-path fields play no part in sending). *)
Record ChatHost := {
  host_state : ChatState;
  chatQueue : list ChatQueueItem;
  refreshSessionsAfterChat : gset string;
}.

Record World := {
  localStorage : option LocalStorage;
  heap : list ChatAttachment;
  requests : list Request;
  warnings : list string;
  clock : nat;
  uuids : nat;
}.

(** *** Field updates *)

Definition set_chatMessages (v : list JsValue) (s : ChatState) : ChatState :=
  {| client := client s; connected := connected s; sessionKey := sessionKey s;
     chatLoading := chatLoading s; chatMessages := v;
     chatThinkingLevel := chatThinkingLevel s; chatSending := chatSending s;
     chatMessage := chatMessage s; chatAttachments := chatAttachments s;
     chatRunId := chatRunId s; chatStream := chatStream s;
     chatStreamStartedAt := chatStreamStartedAt s; lastError := lastError s |}.

Definition set_chatSending (v : bool) (s : ChatState) : ChatState :=
  {| client := client s; connected := connected s; sessionKey := sessionKey s;
     chatLoading := chatLoading s; chatMessages := chatMessages s;
     chatThinkingLevel := chatThinkingLevel s; chatSending := v;
     chatMessage := chatMessage s; chatAttachments := chatAttachments s;
     chatRunId := chatRunId s; chatStream := chatStream s;
     chatStreamStartedAt := chatStreamStartedAt s; lastError := lastError s |}.

Definition set_chatMessage (v : string) (s : ChatState) : ChatState :=
  {| client := client s; connected := connected s; sessionKey := sessionKey s;
     chatLoading := chatLoading s; chatMessages := chatMessages s;
     chatThinkingLevel := chatThinkingLevel s; chatSending := chatSending s;
     chatMessage := v; chatAttachments := chatAttachments s;
     chatRunId := chatRunId s; chatStream := chatStream s;
     chatStreamStartedAt := chatStreamStartedAt s; lastError := lastError s |}.

Definition set_chatAttachments (v : list loc) (s : ChatState) : ChatState :=
  {| client := client s; connected := connected s; sessionKey := sessionKey s;
     chatLoading := chatLoading s; chatMessages := chatMessages s;
     chatThinkingLevel := chatThinkingLevel s; chatSending := chatSending s;
     chatMessage := chatMessage s; chatAttachments := v;
     chatRunId := chatRunId s; chatStream := chatStream s;
     chatStreamStartedAt := chatStreamStartedAt s; lastError := lastError s |}.

Definition set_chatStream (v : option string) (s : ChatState) : ChatState :=
  {| client := client s; connected := connected s; sessionKey := sessionKey s;
     chatLoading := chatLoading s; chatMessages := chatMessages s;
     chatThinkingLevel := chatThinkingLevel s; chatSending := chatSending s;
     chatMessage := chatMessage s; chatAttachments := chatAttachments s;
     chatRunId := chatRunId s; chatStream := v;
     chatStreamStartedAt := chatStreamStartedAt s; lastError := lastError s |}.

Definition set_lastError (v : option string) (s : ChatState) : ChatState :=
  {| client := client s; connected := connected s; sessionKey := sessionKey s;
     chatLoading := chatLoading s; chatMessages := chatMessages s;
     chatThinkingLevel := chatThinkingLevel s; chatSending := chatSending s;
     chatMessage := chatMessage s; chatAttachments := chatAttachments s;
     chatRunId := chatRunId s; chatStream := chatStream s;
     chatStreamStartedAt := chatStreamStartedAt s; lastError := v |}.

(** [chatRunId], [chatStream] and [chatStreamStartedAt] are always assigned
    together. *)
Definition set_run (runId stream : option string) (startedAt : option Z)
    (s : ChatState) : ChatState :=
  {| client := client s; connected := connected s; sessionKey := sessionKey s;
     chatLoading := chatLoading s; chatMessages := chatMessages s;
     chatThinkingLevel := chatThinkingLevel s; chatSending := chatSending s;
     chatMessage := chatMessage s; chatAttachments := chatAttachments s;
     chatRunId := runId; chatStream := stream;
     chatStreamStartedAt := startedAt; lastError := lastError s |}.

Definition set_host_state (v : ChatState) (h : ChatHost) : ChatHost :=
  {| host_state := v; chatQueue := chatQueue h;
     refreshSessionsAfterChat := refreshSessionsAfterChat h |}.

Definition set_chatQueue (v : list ChatQueueItem) (h : ChatHost) : ChatHost :=
  {| host_state := host_state h; chatQueue := v;
     refreshSessionsAfterChat := refreshSessionsAfterChat h |}.

Definition set_refreshSessionsAfterChat (v : gset string) (h : ChatHost) : ChatHost :=
  {| host_state := host_state h; chatQueue := chatQueue h;
     refreshSessionsAfterChat := v |}.

Definition set_localStorage (v : option LocalStorage) (w : World) : World :=
  {| localStorage := v; heap := heap w; requests := requests w;
     warnings := warnings w; clock := clock w; uuids := uuids w |}.

Definition set_heap (v : list ChatAttachment) (w : World) : World :=
  {| localStorage := localStorage w; heap := v; requests := requests w;
     warnings := warnings w; clock := clock w; uuids := uuids w |}.

Definition set_requests (v : list Request) (w : World) : World :=
  {| localStorage := localStorage w; heap := heap w; requests := v;
     warnings := warnings w; clock := clock w; uuids := uuids w |}.

Definition set_warnings (v : list string) (w : World) : World :=
  {| localStorage := localStorage w; heap := heap w; requests := requests w;
     warnings := v; clock := clock w; uuids := uuids w |}.

Definition set_clock (v : nat) (w : World) : World :=
  {| localStorage := localStorage w; heap := heap w; requests := requests w;
     warnings := warnings w; clock := v; uuids := uuids w |}.

Definition set_uuids (v : nat) (w : World) : World :=
  {| localStorage := localStorage w; heap := heap w; requests := requests w;
     warnings := warnings w; clock := clock w; uuids := v |}.

(** [{ ...attachment }]: a new object with the same fields. *)
Definition alloc (a : ChatAttachment) (w : World) : loc * World :=
  (length (heap w), set_heap (heap w ++ [a]) w).

(** The objects an array of attachments refers to. *)
Definition derefs (w : World) (refs : list loc) : list ChatAttachment :=
  omap (fun l => heap w !! l) refs.

(** An async function that was called has either returned without awaiting
    or is suspended on a request. *)
Inductive Started (A : Type) :=
  | Returns (a : A)
  | Awaits (reply : Reply).
Arguments Returns {A} a.
Arguments Awaits {A} reply.

(** How an async function completes: its promise resolves with a value or
    rejects. *)
Inductive Completion (A : Type) :=
  | Returned (a : A)
  | Thrown (err : string).
Arguments Returned {A} a.
Arguments Thrown {A} err.

(** ** The controller *)

Definition LF : string := String "010" EmptyString.

Section Controller.

(** [Date.now()] and [generateUUID()] ([../uuid.ts]) by the number of calls
    made before, and [extractText] of [../chat/message-extract.ts] ([None]
    when it returns no string). *)
Variable dateNow : nat -> Z.
Variable generateUUID : nat -> string.
Variable extractText : JsValue -> option string.

Definition now (w : World) : Z * World :=
  (dateNow (clock w), set_clock (S (clock w)) w).

Definition newUUID (w : World) : string * World :=
  (generateUUID (uuids w), set_uuids (S (uuids w)) w).

(** *** Local cache store *)

Definition readLocalChatStateStore (w : World) : option StoredChatStateStore :=
  match localStorage w with
  | None => None
  | Some storage =>
      match ls_item storage with
      | None => None
      | Some parsed =>
          if (version parsed =? LOCAL_CHAT_STATE_VERSION)%Z
          then Some {| version := LOCAL_CHAT_STATE_VERSION; sessions := sessions parsed |}
          else None
      end
  end.

Definition writeLocalChatStateStore (store : StoredChatStateStore) (w : World) : World :=
  match localStorage w with
  | None => w
  | Some storage =>
      if ls_writable storage
      then set_localStorage
             (Some {| ls_item := Some store; ls_writable := ls_writable storage |}) w
      else w
  end.

Definition emptySession : StoredSessionChatState :=
  {| draft := None; attachments := None; voiceNotes := None |}.

Definition updateLocalSessionState (key : string)
    (updater : StoredSessionChatState -> option StoredSessionChatState)
    (w : World) : World :=
  if negb (Js.truthy (Js.trim key)) then w
  else
    let store :=
      default {| version := LOCAL_CHAT_STATE_VERSION; sessions := ∅ |}
              (readLocalChatStateStore w) in
    let current := default emptySession (sessions store !! key) in
    match updater current with
    | None =>
        writeLocalChatStateStore
          {| version := version store; sessions := delete key (sessions store) |} w
    | Some next =>
        writeLocalChatStateStore
          {| version := version store; sessions := <[key := next]> (sessions store) |} w
    end.

(** *** Attachments and transcripts *)

(** The match of [/^data:([^;]+);base64,(.+)$/]: the mime type and the
    content. *)
Definition dataUrlToBase64 (dataUrl : string) : option (string * string) :=
  match Js.stripPrefix "data:" dataUrl with
  | None => None
  | Some rest =>
      let '(mimeType, rest') := Js.span ";" rest in
      match Js.stripPrefix ";base64," rest' with
      | None => None
      | Some content =>
          if Js.truthy mimeType && Js.truthy content
             && Js.all (fun c => negb (Js.isLineTerminator c)) content
          then Some (mimeType, content)
          else None
      end
  end.

Definition isVoiceNoteAttachment (attachment : ChatAttachment) : bool :=
  match a_kind attachment with
  | Some KindVoiceNote => true
  | _ => Js.startsWith (Js.toLowerCase (a_mimeType attachment)) "audio/"
  end.

Definition normalizeTranscript (attachment : ChatAttachment) : string :=
  match a_transcript attachment with
  | Some transcript => Js.trim transcript
  | None =>
      match a_transcriptParts attachment with
      | None => ""
      | Some parts => Js.join LF (List.filter Js.truthy (map Js.trim parts))
      end
  end.

Definition splitTranscriptParts (transcript : string) : list string :=
  List.filter Js.truthy (map Js.trim (Js.splitLines transcript)).

(** [typeof x === "string" && x.trim() ? x.trim() : undefined] *)
Definition trimmedOrUndefined (x : option string) : option string :=
  match x with
  | Some s => if Js.truthy (Js.trim s) then Some (Js.trim s) else None
  | None => None
  end.

(** [typeof attachment.persistedNoteId === "string"
      ? attachment.persistedNoteId.trim() : ""] *)
Definition trimmedPersistedNoteId (attachment : ChatAttachment) : string :=
  match a_persistedNoteId attachment with
  | Some id => Js.trim id
  | None => ""
  end.

Definition toStoredChatAttachment (attachment : ChatAttachment)
  : option StoredChatAttachment :=
  let id := Js.trim (a_id attachment) in
  if negb (Js.truthy id) then None
  else
    let dataUrl := Js.trim (a_dataUrl attachment) in
    let mimeType := Js.trim (a_mimeType attachment) in
    if negb (Js.truthy dataUrl) || negb (Js.truthy mimeType) then None
    else
      let transcript := normalizeTranscript attachment in
      Some {| sa_id := id;
              sa_kind := Some (if isVoiceNoteAttachment attachment
                               then KindVoiceNote else KindImage);
              sa_dataUrl := dataUrl;
              sa_mimeType := mimeType;
              sa_fileName := trimmedOrUndefined (a_fileName attachment);
              sa_source := a_source attachment;
              sa_durationMs := option_map (Z.max 0) (a_durationMs attachment);
              sa_transcript := if Js.truthy transcript then Some transcript else None;
              sa_transcriptParts :=
                if Js.truthy transcript then Some (splitTranscriptParts transcript)
                else None;
              sa_persistedNoteId := trimmedOrUndefined (a_persistedNoteId attachment) |}.

(** [getLocalVoiceNoteMarkerId(message) === id] *)
Definition markerIs (message : JsValue) (id : string) : bool :=
  match getLocalVoiceNoteMarkerId message with
  | Some markerId => String.eqb markerId id
  | None => false
  end.

Definition buildVoiceNoteContentBlock (attachment : ChatAttachment)
    (optPersistedNoteId : option string) (includePreviewUrl : bool) : JsValue :=
  let transcript := normalizeTranscript attachment in
  let own := trimmedPersistedNoteId attachment in
  let persistedNoteId :=
    match optPersistedNoteId with
    | Some id => if Js.truthy (Js.trim id) then Js.trim id else own
    | None => own
    end in
  JObj
    ([("type", JStr "voice_note");
      ("source", JObj [("type", JStr "base64");
                       ("media_type", JStr (a_mimeType attachment));
                       ("data", JStr (a_dataUrl attachment))]);
      ("mimeType", JStr (a_mimeType attachment));
      ("fileName", optStr (a_fileName attachment))]
     ++ match a_previewUrl attachment with
        | Some url =>
            if includePreviewUrl && Js.truthy url then [("url", JStr url)] else []
        | None => []
        end
     ++ (if Js.truthy transcript
         then [("transcript", JStr transcript);
               ("transcriptParts", JArr (map JStr (splitTranscriptParts transcript)))]
         else [])
     ++ (if Js.truthy persistedNoteId
         then [("persistedNoteId", JStr persistedNoteId)]
         else [])).

Definition buildLocalVoiceNoteMessage (attachment : ChatAttachment) (timestamp : Z)
  : JsValue :=
  JObj [("role", JStr "user");
        ("content", JArr [buildVoiceNoteContentBlock attachment None true]);
        ("timestamp", JNum timestamp);
        ("__openclaw", JObj [("kind", JStr "local-voice-note");
                             ("id", JStr (a_id attachment))])].

Definition updateLocalVoiceMessageInMemory (messages : list JsValue)
    (attachment : ChatAttachment) (timestamp : Z) : list JsValue :=
  let markerId := a_id attachment in
  let nextMessage := buildLocalVoiceNoteMessage attachment timestamp in
  let next :=
    map (fun message => if markerIs message markerId then nextMessage else message)
        messages in
  if existsb (fun message => markerIs message markerId) messages
  then next
  else next ++ [nextMessage].

Definition patchBlockPersistedId (persistedNoteId : string) (entry : JsValue) : JsValue :=
  match entry with
  | JObj block =>
      let type :=
        match getProp "type" block with
        | JStr t => Js.toLowerCase t
        | _ => ""
        end in
      if String.eqb type "voice_note" || String.eqb type "audio"
      then JObj (setProp "persistedNoteId" (JStr persistedNoteId) block)
      else entry
  | _ => entry
  end.

Definition patchLocalVoiceMessagePersistedId (message : JsValue)
    (attachmentId persistedNoteId : string) : JsValue :=
  if negb (markerIs message attachmentId) then message
  else
    match message with
    | JObj raw =>
        match getProp "content" raw with
        | JArr content =>
            JObj (setProp "content"
                    (JArr (map (patchBlockPersistedId persistedNoteId) content)) raw)
        | _ => message
        end
    | _ => message
    end.

(** [list.slice(-n)] *)
Definition lastN {A : Type} (n : nat) (l : list A) : list A :=
  drop (length l - n) l.

Definition syncChatComposerLocalState (state : ChatState) (w : World) : World :=
  let text := chatMessage state in
  let storedAttachments :=
    lastN LOCAL_CHAT_ATTACHMENTS_LIMIT
          (omap toStoredChatAttachment (derefs w (chatAttachments state))) in
  updateLocalSessionState (sessionKey state)
    (fun current =>
       let next :=
         {| draft := if Js.truthy text then Some text else None;
            attachments :=
              match storedAttachments with
              | [] => None
              | _ :: _ => Some storedAttachments
              end;
            voiceNotes := voiceNotes current |} in
       let hasVoiceNotes :=
         match voiceNotes next with Some (_ :: _) => true | _ => false end in
       let hasDraft :=
         match draft next with Some d => Js.truthy d | None => false end in
       let hasAttachments :=
         match attachments next with Some (_ :: _) => true | _ => false end in
       if negb hasVoiceNotes && negb hasDraft && negb hasAttachments
       then None
       else Some next)
    w.

(** [state.chatAttachments.map(...)]: an attachment with the id is replaced
    by a copy that carries the persisted id. *)
Fixpoint patchAttachments (attachmentId persistedNoteId : string)
    (refs : list loc) (w : World) : list loc * World :=
  match refs with
  | [] => ([], w)
  | l :: rest =>
      let '(l', w1) :=
        match heap w !! l with
        | Some a =>
            if String.eqb (a_id a) attachmentId
            then alloc (setPersistedNoteId persistedNoteId a) w
            else (l, w)
        | None => (l, w)
        end in
      let '(rest', w2) := patchAttachments attachmentId persistedNoteId rest w1 in
      (l' :: rest', w2)
  end.

Definition updateLocalVoiceNotePersistence (state : ChatState)
    (attachmentId persistedNoteId : string) (w : World) : World * ChatState :=
  let '(refs, w1) :=
    patchAttachments attachmentId persistedNoteId (chatAttachments state) w in
  let state1 := set_chatAttachments refs state in
  let state2 :=
    set_chatMessages
      (map (fun message =>
              patchLocalVoiceMessagePersistedId message attachmentId persistedNoteId)
           (chatMessages state1))
      state1 in
  let w2 :=
    updateLocalSessionState (sessionKey state2)
      (fun current =>
         let nextVoiceNotes :=
           option_map
             (map (fun entry =>
                     if String.eqb (vn_id entry) attachmentId
                     then {| vn_id := vn_id entry;
                             vn_timestamp := vn_timestamp entry;
                             vn_attachment :=
                               storedSetPersistedNoteId persistedNoteId
                                 (vn_attachment entry) |}
                     else entry))
             (voiceNotes current) in
         let nextAttachments :=
           option_map
             (map (fun entry =>
                     if String.eqb (sa_id entry) attachmentId
                     then storedSetPersistedNoteId persistedNoteId entry
                     else entry))
             (attachments current) in
         Some {| draft := draft current;
                 attachments := nextAttachments;
                 voiceNotes := nextVoiceNotes |})
      w1 in
  (w2, state2).

Definition buildVoiceNotePromptText (voiceNotes : list ChatAttachment) : string :=
  match voiceNotes with
  | [] => ""
  | _ :: _ =>
      Js.trim
        (Js.join (LF +:+ LF)
           (imap (fun index attachment =>
                    let label :=
                      match a_fileName attachment with
                      | Some name =>
                          if Js.truthy (Js.trim name) then Js.trim name
                          else "Voice note " +:+ Js.ofNat (index + 1)
                      | None => "Voice note " +:+ Js.ofNat (index + 1)
                      end in
                    let transcript := normalizeTranscript attachment in
                    if Js.truthy transcript
                    then "[" +:+ label +:+ " transcript]" +:+ LF +:+ transcript
                    else "[" +:+ label +:+ "]")
                 voiceNotes))
  end.

Definition normalizeAbortedAssistantMessage (message : JsValue) : option JsValue :=
  match message with
  | JObj candidate =>
      match getProp "role" candidate with
      | JStr role =>
          if String.eqb role "assistant" then
            if hasProp "content" candidate then
              match getProp "content" candidate with
              | JArr _ => Some message
              | _ => None
              end
            else None
          else None
      | _ => None
      end
  | _ => None
  end.

Definition hasLocalVoiceNoteMessage (messages : list JsValue) (attachmentId : string)
  : bool :=
  existsb (fun message => markerIs message attachmentId) messages.

Fixpoint insertByTimestamp (x : StoredLocalVoiceNote) (l : list StoredLocalVoiceNote)
  : list StoredLocalVoiceNote :=
  match l with
  | [] => [x]
  | y :: rest =>
      if (vn_timestamp x <=? vn_timestamp y)%Z then x :: l
      else y :: insertByTimestamp x rest
  end.

(** [.sort((a, b) => a.timestamp - b.timestamp)], a stable sort. *)
Definition sortByTimestamp (l : list StoredLocalVoiceNote) : list StoredLocalVoiceNote :=
  foldr insertByTimestamp [] l.

Definition appendLocalVoiceNoteMessage (state : ChatState) (attachment : ChatAttachment)
    (optTimestamp : option Z) (w : World) : World * ChatState :=
  let '(timestamp, w1) :=
    match optTimestamp with
    | Some t => (t, w)
    | None => now w
    end in
  let state1 :=
    set_chatMessages
      (updateLocalVoiceMessageInMemory (chatMessages state) attachment timestamp)
      state in
  match toStoredChatAttachment attachment with
  | None => (w1, state1)
  | Some storedAttachment =>
      (updateLocalSessionState (sessionKey state1)
         (fun current =>
            let notes := default [] (voiceNotes current) in
            let nextVoiceNotes :=
              lastN LOCAL_CHAT_VOICE_NOTES_LIMIT
                (sortByTimestamp
                   (List.filter
                      (fun entry => negb (String.eqb (vn_id entry) (a_id attachment)))
                      notes
                    ++ [{| vn_id := a_id attachment;
                           vn_timestamp := timestamp;
                           vn_attachment := storedAttachment |}])) in
            Some {| draft := draft current;
                    attachments := attachments current;
                    voiceNotes := Some nextVoiceNotes |})
         w1,
       state1)
  end.

(** *** The run state machine *)

Definition handleChatEvent (state : ChatState) (optPayload : option ChatEventPayload)
    (w : World) : World * ChatState * option ChatEventState :=
  match optPayload with
  | None => (w, state, None)
  | Some payload =>
      if negb (String.eqb (ev_sessionKey payload) (sessionKey state))
      then (w, state, None)
      else if Js.truthy (ev_runId payload)
              && match chatRunId state with
                 | Some runId =>
                     Js.truthy runId && negb (String.eqb (ev_runId payload) runId)
                 | None => false
                 end
      then match ev_state payload with
           | StFinal => (w, state, Some StFinal)
           | _ => (w, state, None)
           end
      else
        match ev_state payload with
        | StDelta =>
            match extractText (ev_message payload) with
            | Some next =>
                let current := default "" (chatStream state) in
                if negb (Js.truthy current)
                   || (String.length current <=? String.length next)
                then (w, set_chatStream (Some next) state, Some StDelta)
                else (w, state, Some StDelta)
            | None => (w, state, Some StDelta)
            end
        | StFinal => (w, set_run None None None state, Some StFinal)
        | StAborted =>
            match normalizeAbortedAssistantMessage (ev_message payload) with
            | Some normalizedMessage =>
                (w,
                 set_run None None None
                   (set_chatMessages (chatMessages state ++ [normalizedMessage]) state),
                 Some StAborted)
            | None =>
                let streamedText := default "" (chatStream state) in
                if Js.truthy (Js.trim streamedText)
                then
                  let '(timestamp, w1) := now w in
                  (w1,
                   set_run None None None
                     (set_chatMessages
                        (chatMessages state
                         ++ [JObj [("role", JStr "assistant");
                                   ("content",
                                    JArr [JObj [("type", JStr "text");
                                                ("text", JStr streamedText)]]);
                                   ("timestamp", JNum timestamp)]])
                        state),
                   Some StAborted)
                else (w, set_run None None None state, Some StAborted)
            end
        | StError =>
            (w,
             set_lastError (Some (default "chat error" (ev_errorMessage payload)))
               (set_run None None None state),
             Some StError)
        end
  end.

(** *** Requests *)

(** The push events handled while a request is pending. *)
Fixpoint handlePushed (events : list ChatEventPayload) (state : ChatState) (w : World)
  : World * ChatState :=
  match events with
  | [] => (w, state)
  | payload :: rest =>
      let '(w1, state1, _) := handleChatEvent state (Some payload) w in
      handlePushed rest state1 w1
  end.

(** [client.request(...)]: the call is logged and its reply is fixed. *)
Definition issue (c : GatewayBrowserClient) (req : Request) (w : World) : Reply * World :=
  (respond c (requests w) req, set_requests (requests w ++ [req]) w).

(** [await] on a pending request. *)
Definition await (reply : Reply) (state : ChatState) (w : World)
  : World * ChatState * Outcome :=
  let '(w1, state1) := handlePushed (pushed reply) state w in
  (w1, state1, outcome reply).

(** *** Attachment lifecycle *)

(** [persistVoiceNoteAttachment] up to its [await]. A reference always
    points to an object; the branch for one that does not is never taken. *)
Definition persistVoiceNoteAttachment_start (state : ChatState) (attachment : loc)
    (w : World) : World * Started (option string) :=
  match client state with
  | None => (w, Returns None)
  | Some c =>
      if negb (connected state) then (w, Returns None)
      else
        match heap w !! attachment with
        | None => (w, Returns None)
        | Some a =>
            let existing := trimmedPersistedNoteId a in
            if Js.truthy existing then (w, Returns (Some existing))
            else
              match dataUrlToBase64 (a_dataUrl a) with
              | None => (w, Returns None)
              | Some (mimeType, content) =>
                  let transcript := normalizeTranscript a in
                  let '(reply, w1) :=
                    issue c
                      (VoiceNotesSave
                         {| vs_sessionKey := sessionKey state;
                            vs_source := default SourceUpload (a_source a);
                            vs_durationMs := a_durationMs a;
                            vs_transcript :=
                              if Js.truthy transcript then Some transcript else None;
                            vs_transcriptParts :=
                              if Js.truthy transcript
                              then Some (splitTranscriptParts transcript)
                              else None;
                            vs_audio_mimeType :=
                              if Js.truthy mimeType then mimeType else a_mimeType a;
                            vs_audio_fileName := a_fileName a;
                            vs_audio_content := content |})
                      w in
                  (w1, Awaits reply)
              end
        end
  end.

(** [persistVoiceNoteAttachment] from its [await] on. *)
Definition persistVoiceNoteAttachment_resume (attachment : loc) (reply : Reply)
    (state : ChatState) (w : World) : World * ChatState * Completion (option string) :=
  let '(w1, state1, out) := await reply state w in
  match out with
  | Rejected err => (w1, state1, Thrown err)
  | Resolved noteId =>
      let persistedId :=
        match noteId with
        | Some id => Js.trim id
        | None => ""
        end in
      if negb (Js.truthy persistedId) then (w1, state1, Returned None)
      else
        match heap w1 !! attachment with
        | None => (w1, state1, Returned None)
        | Some a =>
            let w2 :=
              set_heap (<[attachment := setPersistedNoteId persistedId a]> (heap w1)) w1 in
            let '(w3, state2) :=
              updateLocalVoiceNotePersistence state1 (a_id a) persistedId w2 in
            (w3, state2, Returned (Some persistedId))
        end
  end.

Definition persistVoiceNoteAttachment (state : ChatState) (attachment : loc) (w : World)
  : World * ChatState * Completion (option string) :=
  match persistVoiceNoteAttachment_start state attachment w with
  | (w1, Returns result) => (w1, state, Returned result)
  | (w1, Awaits reply) => persistVoiceNoteAttachment_resume attachment reply state w1
  end.

(** *** Sending *)

Definition WARN_PERSIST_FAILED : string := "[control-ui] voice note persist failed:".

(** [Promise.all(voiceNoteAttachments.map(async (attachment) => ...))]: every
    callback runs up to its first [await] when [map] calls it, in order. *)
Fixpoint startPersists (state : ChatState) (voiceNoteAttachments : list loc)
    (ids : gmap string string) (w : World)
  : World * gmap string string * list (loc * Started (option string)) :=
  match voiceNoteAttachments with
  | [] => (w, ids, [])
  | attachment :: rest =>
      match heap w !! attachment with
      | None => startPersists state rest ids w
      | Some a =>
          let knownId := trimmedPersistedNoteId a in
          if Js.truthy knownId
          then startPersists state rest (<[a_id a := knownId]> ids) w
          else
            let '(w1, started) := persistVoiceNoteAttachment_start state attachment w in
            let '(w2, ids2, pending) := startPersists state rest ids w1 in
            (w2, ids2, (attachment, started) :: pending)
      end
  end.

(** The suspended callbacks then resume one after the other, in the order
    of their requests. *)
Fixpoint finishPersists (pending : list (loc * Started (option string)))
    (ids : gmap string string) (state : ChatState) (w : World)
  : World * ChatState * gmap string string :=
  match pending with
  | [] => (w, state, ids)
  | (attachment, started) :: rest =>
      let '(w1, state1, completion) :=
        match started with
        | Returns result => (w, state, Returned result)
        | Awaits reply => persistVoiceNoteAttachment_resume attachment reply state w
        end in
      match completion with
      | Returned (Some persistedId) =>
          match heap w1 !! attachment with
          | Some a => finishPersists rest (<[a_id a := persistedId]> ids) state1 w1
          | None => finishPersists rest ids state1 w1
          end
      | Returned None => finishPersists rest ids state1 w1
      | Thrown err =>
          finishPersists rest ids state1
            (set_warnings (warnings w1 ++ [WARN_PERSIST_FAILED +:+ " " +:+ err]) w1)
      end
  end.

(** [refs.filter((attachment) => p(attachment))] *)
Definition filterRefs (p : ChatAttachment -> bool) (w : World) (refs : list loc)
  : list loc :=
  List.filter (fun l => match heap w !! l with Some a => p a | None => false end) refs.

Definition userMessage (contentBlocks : list JsValue) (timestamp : Z) : JsValue :=
  JObj [("role", JStr "user");
        ("content", JArr contentBlocks);
        ("timestamp", JNum timestamp)].

Definition errorMessage (error : string) (timestamp : Z) : JsValue :=
  JObj [("role", JStr "assistant");
        ("content", JArr [JObj [("type", JStr "text");
                                ("text", JStr ("Error: " +:+ error))]]);
        ("timestamp", JNum timestamp)].

(** The [await Promise.all(...)] of [sendChatMessage]. *)
Definition persistVoiceNotes (state : ChatState) (voiceNoteAttachments : list loc)
    (w : World) : World * ChatState * gmap string string :=
  let '(w1, ids, pending) := startPersists state voiceNoteAttachments ∅ w in
  finishPersists pending ids state w1.

(** The content blocks of the user message: the text, the image previews
    and the voice notes that have no bubble of their own yet. *)
Definition buildContentBlocks (msg : string)
    (imageAttachments voiceNoteAttachments : list ChatAttachment)
    (messages : list JsValue) (persistedVoiceNoteIds : gmap string string)
  : list JsValue :=
  (if Js.truthy msg
   then [JObj [("type", JStr "text"); ("text", JStr msg)]]
   else [])
  ++ map (fun att =>
            JObj [("type", JStr "image");
                  ("source", JObj [("type", JStr "base64");
                                   ("media_type", JStr (a_mimeType att));
                                   ("data", JStr (a_dataUrl att))])])
         imageAttachments
  ++ omap (fun att =>
             if hasLocalVoiceNoteMessage messages (a_id att)
             then None
             else Some (buildVoiceNoteContentBlock att
                          (persistedVoiceNoteIds !! a_id att) true))
          voiceNoteAttachments.

Definition buildOutboundMessage (msg voicePromptText : string) : string :=
  Js.join (LF +:+ LF) (List.filter Js.truthy [msg; voicePromptText]).

Definition buildApiAttachments (imageAttachments : list ChatAttachment)
  : list ApiAttachment :=
  omap (fun att =>
          match dataUrlToBase64 (a_dataUrl att) with
          | Some (mimeType, content) =>
              Some {| api_mimeType := mimeType; api_content := content |}
          | None => None
          end)
       imageAttachments.

Definition sendChatMessage (state : ChatState) (message : string)
    (optAttachments : option (list loc)) (w : World)
  : World * ChatState * option string :=
  match client state with
  | None => (w, state, None)
  | Some c =>
      if negb (connected state) then (w, state, None)
      else
        let msg := Js.trim message in
        let allAttachments := default [] optAttachments in
        let imageAttachments :=
          filterRefs (fun a => negb (isVoiceNoteAttachment a)) w allAttachments in
        let voiceNoteAttachments := filterRefs isVoiceNoteAttachment w allAttachments in
        let hasImageAttachments := negb (Nat.eqb (length imageAttachments) 0) in
        let hasVoiceNotes := negb (Nat.eqb (length voiceNoteAttachments) 0) in
        if negb (Js.truthy msg) && negb hasImageAttachments && negb hasVoiceNotes
        then (w, state, None)
        else
          let voicePromptText :=
            buildVoiceNotePromptText (derefs w voiceNoteAttachments) in
          let outboundMessage := buildOutboundMessage msg voicePromptText in
          let '(sentAt, w1) := now w in
          let '(w2, state2, persistedVoiceNoteIds) :=
            if hasVoiceNotes
            then persistVoiceNotes state voiceNoteAttachments w1
            else (w1, state, ∅) in
          let contentBlocks :=
            buildContentBlocks msg (derefs w2 imageAttachments)
              (derefs w2 voiceNoteAttachments) (chatMessages state2)
              persistedVoiceNoteIds in
          let state3 :=
            match contentBlocks with
            | [] => state2
            | _ :: _ =>
                set_chatMessages
                  (chatMessages state2 ++ [userMessage contentBlocks sentAt]) state2
            end in
          let state4 := set_lastError None (set_chatSending true state3) in
          let '(runId, w3) := newUUID w2 in
          let state5 := set_run (Some runId) (Some "") (Some sentAt) state4 in
          let apiAttachments :=
            if hasImageAttachments
            then Some (buildApiAttachments (derefs w3 imageAttachments))
            else None in
          let '(reply, w4) :=
            issue c
              (ChatSend {| cs_sessionKey := sessionKey state5;
                           cs_message := outboundMessage;
                           cs_deliver := false;
                           cs_idempotencyKey := runId;
                           cs_attachments := apiAttachments |})
              w3 in
          let '(w5, state6, out) := await reply state5 w4 in
          match out with
          | Resolved _ => (w5, set_chatSending false state6, Some runId)
          | Rejected error =>
              let state7 := set_lastError (Some error) (set_run None None None state6) in
              let '(timestamp, w6) := now w5 in
              let state8 :=
                set_chatMessages (chatMessages state7 ++ [errorMessage error timestamp])
                  state7 in
              (w6, set_chatSending false state8, None)
          end
  end.

Definition abortChatRun (state : ChatState) (w : World) : World * ChatState * bool :=
  match client state with
  | None => (w, state, false)
  | Some c =>
      if negb (connected state) then (w, state, false)
      else
        let runId := chatRunId state in
        let '(reply, w1) :=
          issue c
            (ChatAbort (sessionKey state)
               (match runId with
                | Some id => if Js.truthy id then Some id else None
                | None => None
                end))
            w in
        let '(w2, state1, out) := await reply state w1 in
        match out with
        | Resolved _ => (w2, state1, true)
        | Rejected err => (w2, set_lastError (Some err) state1, false)
        end
  end.

(** *** The send queue ([app-chat.ts]) *)

(** [Boolean(runId)] for a run id that may be [null]. *)
Definition isRunId (runId : option string) : bool :=
  match runId with
  | Some id => Js.truthy id
  | None => false
  end.

Definition isChatBusy (host : ChatHost) : bool :=
  chatSending (host_state host) || isRunId (chatRunId (host_state host)).

Definition isChatStopCommand (text : string) : bool :=
  let trimmed := Js.trim text in
  if negb (Js.truthy trimmed) then false
  else
    let normalized := Js.toLowerCase trimmed in
    if String.eqb normalized "/stop" then true
    else String.eqb normalized "stop"
         || String.eqb normalized "esc"
         || String.eqb normalized "abort"
         || String.eqb normalized "wait"
         || String.eqb normalized "exit".

Definition isChatResetCommand (text : string) : bool :=
  let trimmed := Js.trim text in
  if negb (Js.truthy trimmed) then false
  else
    let normalized := Js.toLowerCase trimmed in
    if String.eqb normalized "/new" || String.eqb normalized "/reset" then true
    else Js.startsWith normalized "/new " || Js.startsWith normalized "/reset ".

Definition handleAbortChat (host : ChatHost) (w : World) : World * ChatHost :=
  if negb (connected (host_state host)) then (w, host)
  else
    let state1 := set_chatMessage "" (host_state host) in
    let w1 := syncChatComposerLocalState state1 w in
    let '(w2, state2, _) := abortChatRun state1 w1 in
    (w2, set_host_state state2 host).

(** [attachments.map((att) => ({ ...att }))] *)
Fixpoint copyAttachments (refs : list loc) (w : World) : list loc * World :=
  match refs with
  | [] => ([], w)
  | l :: rest =>
      match heap w !! l with
      | Some a =>
          let '(l', w1) := alloc a w in
          let '(rest', w2) := copyAttachments rest w1 in
          (l' :: rest', w2)
      | None => copyAttachments rest w
      end
  end.

Definition enqueueChatMessage (host : ChatHost) (text : string)
    (optAttachments : option (list loc)) (refreshSessions : bool) (w : World)
  : World * ChatHost :=
  let trimmed := Js.trim text in
  let hasAttachments :=
    match optAttachments with Some (_ :: _) => true | _ => false end in
  if negb (Js.truthy trimmed) && negb hasAttachments then (w, host)
  else
    let '(id, w1) := newUUID w in
    let '(createdAt, w2) := now w1 in
    let '(copies, w3) :=
      if hasAttachments
      then let '(refs, w') := copyAttachments (default [] optAttachments) w2 in
           (Some refs, w')
      else (None, w2) in
    (w3,
     set_chatQueue
       (chatQueue host
        ++ [{| q_id := id; q_text := trimmed; q_createdAt := createdAt;
               q_attachments := copies; q_refreshSessions := refreshSessions |}])
       host).

(** The options of [sendChatMessageNow]; an absent flag is [false]. *)
Record SendOpts := {
  previousDraft : option string;
  restoreDraft : bool;
  so_attachments : option (list loc);
  previousAttachments : option (list loc);
  restoreAttachments : bool;
  refreshSessions : bool;
}.

(** [sendChatMessageNow], with [flushChatQueue] as a parameter. The calls of
    [resetToolStream], [setLastActiveSessionKey] and [scheduleChatScroll] act
    on parts of the application that [ChatHost] does not show. The queue
    flush that is started and not awaited is run here to its end. *)
Definition sendChatMessageNow_with (flush : ChatHost -> World -> World * ChatHost)
    (host : ChatHost) (message : string) (opts : SendOpts) (w : World)
  : World * ChatHost * bool :=
  let '(w1, state1, runId) :=
    sendChatMessage (host_state host) message (so_attachments opts) w in
  let ok := isRunId runId in
  let state2 :=
    match previousDraft opts with
    | Some d => if negb ok then set_chatMessage d state1 else state1
    | None => state1
    end in
  let state3 :=
    match previousAttachments opts with
    | Some refs => if negb ok then set_chatAttachments refs state2 else state2
    | None => state2
    end in
  let state4 :=
    match previousDraft opts with
    | Some d =>
        if ok && restoreDraft opts && Js.truthy (Js.trim d)
        then set_chatMessage d state3
        else state3
    | None => state3
    end in
  let state5 :=
    match previousAttachments opts with
    | Some (r :: refs) =>
        if ok && restoreAttachments opts
        then set_chatAttachments (r :: refs) state4
        else state4
    | _ => state4
    end in
  let w2 := syncChatComposerLocalState state5 w1 in
  let host1 := set_host_state state5 host in
  let '(w3, host2) :=
    if ok && negb (isRunId (chatRunId state5))
    then flush host1 w2
    else (w2, host1) in
  let host3 :=
    match runId with
    | Some id =>
        if ok && refreshSessions opts
        then set_refreshSessionsAfterChat ({[ id ]} ∪ refreshSessionsAfterChat host2) host2
        else host2
    | None => host2
    end in
  (w3, host3, ok).

(** The options [flushChatQueue] sends a queued item with. *)
Definition queuedOpts (next : ChatQueueItem) : SendOpts :=
  {| previousDraft := None; restoreDraft := false;
     so_attachments := q_attachments next;
     previousAttachments := None; restoreAttachments := false;
     refreshSessions := q_refreshSessions next |}.

(** [flushChatQueue] on [host.chatQueue = queue]. Each round of
    [flushChatQueue], [sendChatMessageNow], [flushChatQueue] takes one item
    off the queue, which the recursion follows. *)
Fixpoint flushQueue (queue : list ChatQueueItem) (host : ChatHost) (w : World)
  : World * ChatHost :=
  if negb (connected (host_state host)) || isChatBusy host then (w, host)
  else
    match queue with
    | [] => (w, host)
    | next :: rest =>
        let host1 := set_chatQueue rest host in
        let '(w1, host2, ok) :=
          sendChatMessageNow_with (flushQueue rest) host1 (q_text next)
            (queuedOpts next) w in
        if negb ok
        then (w1, set_chatQueue (next :: chatQueue host2) host2)
        else (w1, host2)
    end.

Definition flushChatQueue (host : ChatHost) (w : World) : World * ChatHost :=
  flushQueue (chatQueue host) host w.

Definition sendChatMessageNow : ChatHost -> string -> SendOpts -> World
                                -> World * ChatHost * bool :=
  sendChatMessageNow_with flushChatQueue.

Definition flushChatQueueForEvent := flushChatQueue.

Definition handleSendChat (host : ChatHost) (messageOverride : option string)
    (optRestoreDraft : bool) (w : World) : World * ChatHost :=
  let state := host_state host in
  if negb (connected state) then (w, host)
  else
    let previous := chatMessage state in
    let message := Js.trim (default (chatMessage state) messageOverride) in
    let attached := chatAttachments state in
    let attachmentsToSend :=
      match messageOverride with
      | None => attached
      | Some _ => []
      end in
    let hasAttachments := negb (Nat.eqb (length attachmentsToSend) 0) in
    if negb (Js.truthy message) && negb hasAttachments then (w, host)
    else if isChatStopCommand message then handleAbortChat host w
    else
      let refresh := isChatResetCommand message in
      let '(w1, host1) :=
        match messageOverride with
        | None =>
            let state1 := set_chatAttachments [] (set_chatMessage "" state) in
            (syncChatComposerLocalState state1 w, set_host_state state1 host)
        | Some _ => (w, host)
        end in
      if isChatBusy host1
      then enqueueChatMessage host1 message (Some attachmentsToSend) refresh w1
      else
        let restore :=
          match messageOverride with
          | Some override => Js.truthy override && optRestoreDraft
          | None => false
          end in
        let '(w2, host2, _) :=
          sendChatMessageNow host1 message
            {| previousDraft :=
                 match messageOverride with
                 | None => Some previous
                 | Some _ => None
                 end;
               restoreDraft := restore;
               so_attachments :=
                 if hasAttachments then Some attachmentsToSend else None;
               previousAttachments :=
                 match messageOverride with
                 | None => Some attached
                 | Some _ => None
                 end;
               restoreAttachments := restore;
               refreshSessions := refresh |}
            w1 in
        (w2, host2).

End Controller.

(** ** Reading the cache back *)

Definition readLocalSessionState (key : string) (w : World)
  : option StoredSessionChatState :=
  if negb (Js.truthy (Js.trim key)) then None
  else
    match readLocalChatStateStore w with
    | None => None
    | Some store => sessions store !! key
    end.

(** The store is read at its static type: the fields of a stored attachment
    have the types of [StoredChatAttachment], and a duration is an integer. *)
Definition fromStoredChatAttachment (raw : StoredChatAttachment)
  : option ChatAttachment :=
  let id := Js.trim (sa_id raw) in
  let dataUrl := Js.trim (sa_dataUrl raw) in
  let mimeType := Js.trim (sa_mimeType raw) in
  if negb (Js.truthy id) || negb (Js.truthy dataUrl) || negb (Js.truthy mimeType)
  then None
  else
    let transcript :=
      match sa_transcript raw with
      | Some t => if Js.truthy (Js.trim t) then Js.trim t else ""
      | None => ""
      end in
    Some {| a_id := id;
            a_kind := sa_kind raw;
            a_dataUrl := dataUrl;
            a_previewUrl := None;
            a_mimeType := mimeType;
            a_fileName := trimmedOrUndefined (sa_fileName raw);
            a_source := sa_source raw;
            a_durationMs := option_map (Z.max 0) (sa_durationMs raw);
            a_transcript := if Js.truthy transcript then Some transcript else None;
            a_transcriptParts :=
              if Js.truthy transcript then Some (splitTranscriptParts transcript)
              else None;
            a_persistedNoteId := trimmedOrUndefined (sa_persistedNoteId raw) |}.

(** [attachment.id = id] *)
Definition setId (id : string) (a : ChatAttachment) : ChatAttachment :=
  {| a_id := id; a_kind := a_kind a; a_dataUrl := a_dataUrl a;
     a_previewUrl := a_previewUrl a; a_mimeType := a_mimeType a;
     a_fileName := a_fileName a; a_source := a_source a;
     a_durationMs := a_durationMs a; a_transcript := a_transcript a;
     a_transcriptParts := a_transcriptParts a;
     a_persistedNoteId := a_persistedNoteId a |}.

(** [typeof a.timestamp === "number" ? a.timestamp : 0] *)
Definition messageTimestamp (message : JsValue) : Z :=
  match field "timestamp" message with
  | JNum n => n
  | _ => 0%Z
  end.

Fixpoint insertMessage (x : JsValue) (l : list JsValue) : list JsValue :=
  match l with
  | [] => [x]
  | y :: rest =>
      if (messageTimestamp x <=? messageTimestamp y)%Z then x :: l
      else y :: insertMessage x rest
  end.

(** [entries.sort((a, b) => left - right)], a stable sort. *)
Definition sortMessages (l : list JsValue) : list JsValue :=
  foldr insertMessage [] l.

Definition loadLocalVoiceNoteMessages (key : string) (w : World) : list JsValue :=
  match readLocalSessionState key w with
  | None => []
  | Some session =>
      match voiceNotes session with
      | None => []
      | Some notes =>
          sortMessages
            (omap (fun entry =>
                     let id := Js.trim (vn_id entry) in
                     if negb (Js.truthy id) then None
                     else
                       match fromStoredChatAttachment (vn_attachment entry) with
                       | None => None
                       | Some attachment =>
                           Some (buildLocalVoiceNoteMessage (setId id attachment)
                                   (vn_timestamp entry))
                       end)
                  notes)
      end
  end.



(** ** The composer and the queue ([app-chat.ts]) *)

Definition setChatDraft (host : ChatHost) (next : string) (w : World)
  : World * ChatHost :=
  let state := set_chatMessage next (host_state host) in
  (syncChatComposerLocalState state w, set_host_state state host).



(** ** The gateway side of [voice-notes.save] ([infra/voice-notes.ts]) *)

Module VoiceNotes.

Definition sanitizeTranscript (transcript : option string)
    (transcriptParts : option (list string)) : string :=
  match transcript with
  | Some t => Js.trim t
  | None =>
      match transcriptParts with
      | None => ""
      | Some parts => Js.join LF (List.filter Js.truthy (map Js.trim parts))
      end
  end.

End VoiceNotes.

(** ** Vocabulary of the properties *)

(** The message carries the marker id [x]. *)
Definition carries (x : string) (message : JsValue) : Prop :=
  getLocalVoiceNoteMarkerId message = Some x.

Definition isAssistant (message : JsValue) : Prop :=
  field "role" message = JStr "assistant".

(** A well-formed assistant message: an object whose role is [assistant]
    and whose content is an array. *)
Definition wellFormedAssistant (message : JsValue) : Prop :=
  ∃ props items, message = JObj props ∧ getProp "role" props = JStr "assistant"
                 ∧ hasProp "content" props = true
                 ∧ getProp "content" props = JArr items.

(** The assistant message that [handleChatEvent] makes of the stream buffer. *)
Definition synthesized (text : string) (timestamp : Z) : JsValue :=
  JObj [("role", JStr "assistant");
        ("content", JArr [JObj [("type", JStr "text"); ("text", JStr text)]]);
        ("timestamp", JNum timestamp)].

(** What handling push events may do to the controller: append assistant
    messages, move the run fields and set the last error. *)
Record eventsOnly (s s' : ChatState) : Prop := {
  eo_client : client s' = client s;
  eo_connected : connected s' = connected s;
  eo_sessionKey : sessionKey s' = sessionKey s;
  eo_chatLoading : chatLoading s' = chatLoading s;
  eo_chatThinkingLevel : chatThinkingLevel s' = chatThinkingLevel s;
  eo_chatSending : chatSending s' = chatSending s;
  eo_chatMessage : chatMessage s' = chatMessage s;
  eo_chatAttachments : chatAttachments s' = chatAttachments s;
  eo_chatMessages :
    ∃ extra, chatMessages s' = chatMessages s ++ extra ∧ Forall isAssistant extra;
}.

(** The same, when voice notes may have been persisted as well: messages
    and attachments are patched in place. *)
Record steps (s s' : ChatState) : Prop := {
  st_client : client s' = client s;
  st_connected : connected s' = connected s;
  st_sessionKey : sessionKey s' = sessionKey s;
  st_chatLoading : chatLoading s' = chatLoading s;
  st_chatThinkingLevel : chatThinkingLevel s' = chatThinkingLevel s;
  st_chatSending : chatSending s' = chatSending s;
  st_chatMessage : chatMessage s' = chatMessage s;
  st_chatAttachments : length (chatAttachments s') = length (chatAttachments s);
  st_chatMessages : length (chatMessages s) ≤ length (chatMessages s');
}.

(** Worlds that differ in the clock only. *)
Record clockOnly (w w' : World) : Prop := {
  co_localStorage : localStorage w' = localStorage w;
  co_heap : heap w' = heap w;
  co_requests : requests w' = requests w;
  co_warnings : warnings w' = warnings w;
  co_uuids : uuids w' = uuids w;
}.

(** Worlds that differ in the local storage only. *)
Record storageOnly (w w' : World) : Prop := {
  so_heap : heap w' = heap w;
  so_requests : requests w' = requests w;
  so_warnings : warnings w' = warnings w;
  so_clock : clock w' = clock w;
  so_uuids : uuids w' = uuids w;
}.


(** The entry holds no draft, no attachment and no voice note. *)
Definition isEmptyEntry (entry : StoredSessionChatState) : Prop :=
  (draft entry = None ∨ draft entry = Some "")
  ∧ (attachments entry = None ∨ attachments entry = Some [])
  ∧ (voiceNotes entry = None ∨ voiceNotes entry = Some []).

(** The sessions of the persisted store, as [readLocalChatStateStore] reads them. *)
Definition persistedSessions (w : World) : gmap string StoredSessionChatState :=
  match readLocalChatStateStore w with
  | Some store => sessions store
  | None => ∅
  end.

Definition textBlock (text : string) : JsValue :=
  JObj [("type", JStr "text"); ("text", JStr text)].

Definition validRefs (w : World) (refs : list loc) : Prop :=
  Forall (fun l => is_Some (heap w !! l)) refs.

Definition isSave (request : Request) : Prop :=
  ∃ params, request = VoiceNotesSave params.

(** The attachment has no persisted note id yet. *)
Definition unsaved (a : ChatAttachment) : Prop := trimmedPersistedNoteId a = "".

Definition noPersistedNoteId (block : JsValue) : Prop :=
  field "persistedNoteId" block = JUndefined.

Definition isPersistWarning (line : string) : Prop :=
  ∃ err, line = WARN_PERSIST_FAILED +:+ " " +:+ err.

(** The client rejects every [voice-notes.save] request. *)
Definition rejectsSaves (c : GatewayBrowserClient) : Prop :=
  ∀ log params, ∃ err, outcome (respond c log (VoiceNotesSave params)) = Rejected err.

(** The client resolves every [chat.send] request. *)
Definition resolvesSends (c : GatewayBrowserClient) : Prop :=
  ∀ log params, ∃ result, outcome (respond c log (ChatSend params)) = Resolved result.

Definition isAwaiting {A : Type} (started : Started A) : bool :=
  match started with
  | Awaits _ => true
  | Returns _ => false
  end.

(** The callbacks of [startPersists] that are suspended on a request. *)
Definition countAwaiting (pending : list (loc * Started (option string))) : nat :=
  length (List.filter (fun entry => isAwaiting entry.2) pending).

Definition pendingSave (c : GatewayBrowserClient) (entry : loc * Started (option string))
  : Prop :=
  entry.2 = Returns None
  ∨ ∃ log params, entry.2 = Awaits (respond c log (VoiceNotesSave params)).

(** Requests are only ever added to the log. *)
Definition requestsGrow (w w' : World) : Prop :=
  ∃ more, requests w' = requests w ++ more.



(** The controller after a successful send, once the options of
    [sendChatMessageNow] have restored the draft and the attachments. *)
Definition restored (opts : SendOpts) (state1 : ChatState) : ChatState :=
  let state4 :=
    match previousDraft opts with
    | Some d =>
        if restoreDraft opts && Js.truthy (Js.trim d)
        then set_chatMessage d state1
        else state1
    | None => state1
    end in
  match previousAttachments opts with
  | Some (r :: refs) =>
      if restoreAttachments opts then set_chatAttachments (r :: refs) state4 else state4
  | _ => state4
  end.

Definition isActive (state : ChatState) : bool := isRunId (chatRunId state).

(** What the user submits: the text and the attachments. *)
Definition submitted (host : ChatHost) (messageOverride : option string)
  : string * list loc :=
  (Js.trim (default (chatMessage (host_state host)) messageOverride),
   match messageOverride with
   | None => chatAttachments (host_state host)
   | Some _ => []
   end).

(** The string holds no [;]. *)
Definition noSemicolon (s : string) : bool :=
  Js.all (λ c, negb (Ascii.eqb c ";")) s.

(** The string holds no line terminator. *)
Definition oneLine (s : string) : bool :=
  Js.all (λ c, negb (Js.isLineTerminator c)) s.

(** The attachment with the fields of a stored one, as they are. *)
Definition unstored (s : StoredChatAttachment) : ChatAttachment :=
  {| a_id := sa_id s; a_kind := sa_kind s; a_dataUrl := sa_dataUrl s;
     a_previewUrl := None; a_mimeType := sa_mimeType s;
     a_fileName := sa_fileName s; a_source := sa_source s;
     a_durationMs := sa_durationMs s; a_transcript := sa_transcript s;
     a_transcriptParts := sa_transcriptParts s;
     a_persistedNoteId := sa_persistedNoteId s |}.

(** The entry the persisted store holds for a session, [{}] when it holds
    none. *)
Definition persistedEntry (key : string) (w : World) : StoredSessionChatState :=
  default emptySession (persistedSessions w !! key).

(** The storage is there and takes writes. *)
Definition writableStorage (w : World) : Prop :=
  ∃ storage, localStorage w = Some storage ∧ ls_writable storage = true.

(** There is no storage, or it takes no write. *)
Definition unavailableStorage (w : World) : Prop :=
  localStorage w = None
  ∨ ∃ storage, localStorage w = Some storage ∧ ls_writable storage = false.



(** The marker ids of the messages that carry one. *)
Definition markerIds (messages : list JsValue) : list string :=
  omap getLocalVoiceNoteMarkerId messages.

(** The event belongs to a run other than the active one: both ids are
    there and they differ. *)
Definition foreignRun (state : ChatState) (payload : ChatEventPayload) : Prop :=
  ev_runId payload ≠ ""
  ∧ ∃ runId, chatRunId state = Some runId ∧ runId ≠ "" ∧ runId ≠ ev_runId payload.

(** ** Scenarios *)

(** Concrete controllers, gateways and events, for the examples that
    close the development. *)

Module Scenario.

Definition dateNow (n : nat) : Z := (1700000000000 + Z.of_nat n)%Z.
Definition generateUUID (n : nat) : string := "run-" +:+ Js.ofNat n.

(** A stand-in for [extractText]: the text of the first content block. *)
Definition extractText (message : JsValue) : option string :=
  match field "content" message with
  | JArr (block :: _) =>
      match field "text" block with
      | JStr text => Some text
      | _ => None
      end
  | _ => None
  end.

Definition world (objects : list ChatAttachment) : World :=
  {| localStorage := Some {| ls_item := None; ls_writable := true |};
     heap := objects; requests := []; warnings := []; clock := 0; uuids := 0 |}.

Definition controller (c : option GatewayBrowserClient) : ChatState :=
  {| client := c; connected := true; sessionKey := "main"; chatLoading := false;
     chatMessages := []; chatThinkingLevel := None; chatSending := false;
     chatMessage := ""; chatAttachments := []; chatRunId := None;
     chatStream := None; chatStreamStartedAt := None; lastError := None |}.

Definition streaming (runId stream : string) (startedAt : Z) : ChatState :=
  set_run (Some runId) (Some stream) (Some startedAt) (controller None).

Definition event (runId : string) (st : ChatEventState) (message : JsValue)
  : ChatEventPayload :=
  {| ev_runId := runId; ev_sessionKey := "main"; ev_state := st;
     ev_message := message; ev_errorMessage := None |}.

Definition assistantText (text : string) : JsValue :=
  JObj [("role", JStr "assistant");
        ("content", JArr [JObj [("type", JStr "text"); ("text", JStr text)]])].

Definition quiet (out : Outcome) : Reply := {| pushed := []; outcome := out |}.

(** A gateway that accepts everything. *)
Definition accepting : GatewayBrowserClient :=
  {| respond := fun _ request =>
       match request with
       | VoiceNotesSave _ => quiet (Resolved (Some "voice-note-123"))
       | _ => quiet (Resolved None)
       end |}.

(** A gateway whose durable storage fails. *)
Definition storageDown : GatewayBrowserClient :=
  {| respond := fun _ request =>
       match request with
       | VoiceNotesSave _ => quiet (Rejected "Error: persist failed")
       | _ => quiet (Resolved None)
       end |}.

(** A gateway that cannot be reached. *)
Definition unreachable : GatewayBrowserClient :=
  {| respond := fun _ _ => quiet (Rejected "Error: network") |}.

(** A gateway that answers [chat.send] only once the run is over: the final
    event of the run arrives while the request is pending. *)
Definition instant : GatewayBrowserClient :=
  {| respond := fun _ request =>
       match request with
       | ChatSend params =>
           {| pushed := [event (cs_idempotencyKey params) StFinal JUndefined];
              outcome := Resolved None |}
       | _ => quiet (Resolved None)
       end |}.

Definition voiceNote (id : string) (persisted : option string) : ChatAttachment :=
  {| a_id := id; a_kind := Some KindVoiceNote;
     a_dataUrl := "data:audio/ogg;base64,dm9pY2U="; a_previewUrl := None;
     a_mimeType := "audio/ogg"; a_fileName := Some "memo.ogg";
     a_source := Some SourceRecord; a_durationMs := Some 1840%Z;
     a_transcript := None;
     a_transcriptParts := Some [" hello "; ""; "second line "];
     a_persistedNoteId := persisted |}.

Definition host (state : ChatState) (queue : list ChatQueueItem) : ChatHost :=
  {| host_state := state; chatQueue := queue; refreshSessionsAfterChat := ∅ |}.

Definition queued (text : string) : ChatQueueItem :=
  {| q_id := "queued-1"; q_text := text; q_createdAt := 0;
     q_attachments := None; q_refreshSessions := false |}.

Definition typing (c : GatewayBrowserClient) (text : string)
    (queue : list ChatQueueItem) : ChatHost :=
  host (set_chatMessage text (controller (Some c))) queue.

Definition typingWhileBusy (c : GatewayBrowserClient) (text : string) : ChatHost :=
  host (set_chatMessage text
          (set_run (Some "run-user") (Some "") (Some 1%Z) (controller (Some c))))
       [].

(** A browser without [localStorage]. *)
Definition offline : World :=
  {| localStorage := None; heap := []; requests := []; warnings := [];
     clock := 0; uuids := 0 |}.

(** A world whose cache holds the given sessions. *)
Definition cached (entries : gmap string StoredSessionChatState) : World :=
  {| localStorage :=
       Some {| ls_item := Some {| version := LOCAL_CHAT_STATE_VERSION;
                                  sessions := entries |};
               ls_writable := true |};
     heap := []; requests := []; warnings := []; clock := 0; uuids := 0 |}.

End Scenario.


(** ** Strings *)

Lemma trimStart_head (s : string) :
  match Js.trimStart s with
  | EmptyString => True
  | String c _ => Js.isWhiteSpace c = false
  end.
Proof.
  induction s as [|c s IH]; simpl; [done|].
  destruct (Js.isWhiteSpace c) eqn:Hc; [done|]. simpl. done.
Qed.

Lemma trimStart_id (s : string) :
  match s with
  | EmptyString => True
  | String c _ => Js.isWhiteSpace c = false
  end → Js.trimStart s = s.
Proof. destruct s as [|c s]; simpl; [done|]. by intros ->. Qed.

Lemma trimEnd_head (s : string) :
  match s with
  | EmptyString => True
  | String c _ => Js.isWhiteSpace c = false
  end →
  match Js.trimEnd s with
  | EmptyString => True
  | String c _ => Js.isWhiteSpace c = false
  end.
Proof.
  destruct s as [|c s]; simpl; [done|]. intros Hc.
  destruct (Js.trimEnd s); [by rewrite Hc|done].
Qed.

Lemma trimEnd_idemp (s : string) : Js.trimEnd (Js.trimEnd s) = Js.trimEnd s.
Proof.
  induction s as [|c s IH]; simpl; [done|].
  destruct (Js.trimEnd s) as [|d t] eqn:Ht.
  - destruct (Js.isWhiteSpace c) eqn:Hc; simpl; [done|]. by rewrite Hc.
  - simpl in IH |- *. by rewrite IH.
Qed.

Lemma trim_idemp (s : string) : Js.trim (Js.trim s) = Js.trim s.
Proof.
  unfold Js.trim.
  rewrite (trimStart_id (Js.trimEnd (Js.trimStart s))).
  - apply trimEnd_idemp.
  - apply trimEnd_head, trimStart_head.
Qed.

Lemma truthy_false (s : string) : Js.truthy s = false ↔ s = "".
Proof. destruct s; simpl; split; congruence. Qed.

Lemma truthy_true (s : string) : Js.truthy s = true ↔ s ≠ "".
Proof. destruct s; simpl; split; congruence. Qed.

(** ** Frame properties *)

Lemma eventsOnly_refl s : eventsOnly s s.
Proof. split; try done. exists []. by rewrite app_nil_r. Qed.

Lemma eventsOnly_trans s1 s2 s3 : eventsOnly s1 s2 → eventsOnly s2 s3 → eventsOnly s1 s3.
Proof.
  intros [] []. split; try congruence.
  destruct eo_chatMessages0 as (e1 & He1 & Hf1), eo_chatMessages1 as (e2 & He2 & Hf2).
  exists (e1 ++ e2). rewrite He2, He1, <- app_assoc. split; [done|by apply Forall_app].
Qed.

Lemma eventsOnly_steps s s' : eventsOnly s s' → steps s s'.
Proof.
  intros []. split; try congruence.
  destruct eo_chatMessages0 as (e & -> & _). rewrite length_app. lia.
Qed.

Lemma steps_refl s : steps s s.
Proof. by split. Qed.

Lemma steps_trans s1 s2 s3 : steps s1 s2 → steps s2 s3 → steps s1 s3.
Proof. intros [] []. split; try congruence; lia. Qed.

Lemma clockOnly_refl w : clockOnly w w.
Proof. by split. Qed.

Lemma clockOnly_trans w1 w2 w3 : clockOnly w1 w2 → clockOnly w2 w3 → clockOnly w1 w3.
Proof. intros [] []. split; congruence. Qed.

Lemma requestsGrow_refl w : requestsGrow w w.
Proof. exists []. by rewrite app_nil_r. Qed.

Lemma requestsGrow_trans w1 w2 w3 :
  requestsGrow w1 w2 → requestsGrow w2 w3 → requestsGrow w1 w3.
Proof. intros [m1 H1] [m2 H2]. exists (m1 ++ m2). by rewrite H2, H1, <- app_assoc. Qed.

Lemma requestsGrow_eq w w' : requests w' = requests w → requestsGrow w w'.
Proof. intros H. exists []. by rewrite app_nil_r. Qed.

Section Frames.
Variable dateNow : nat -> Z.
Variable generateUUID : nat -> string.
Variable extractText : JsValue -> option string.

Lemma normalizeAborted_isAssistant message m :
  normalizeAbortedAssistantMessage message = Some m → isAssistant m.
Proof.
  unfold normalizeAbortedAssistantMessage, isAssistant.
  destruct message as [| | | | | |props]; try done.
  destruct (getProp "role" props) as [| | | |role| |] eqn:Hr; try done.
  destruct (String.eqb role "assistant") eqn:He; try done.
  apply String.eqb_eq in He as ->.
  destruct (hasProp "content" props); try done.
  destruct (getProp "content" props); try done.
  intros [= <-]. done.
Qed.

Lemma handleChatEvent_frame state optPayload w :
  eventsOnly state (handleChatEvent dateNow extractText state optPayload w).1.2
  ∧ clockOnly w (handleChatEvent dateNow extractText state optPayload w).1.1.
Proof.
  unfold handleChatEvent.
  destruct optPayload as [payload|]; [|split; [apply eventsOnly_refl|apply clockOnly_refl]].
  repeat (match goal with
          | |- context [if ?b then _ else _] => destruct b eqn:?
          | |- context [match ev_state payload with _ => _ end] => destruct (ev_state payload)
          | |- context [match extractText ?m with _ => _ end] => destruct (extractText m)
          | |- context [match normalizeAbortedAssistantMessage ?m with _ => _ end] =>
              destruct (normalizeAbortedAssistantMessage m) eqn:?
          end; simpl);
    (split; [|by split]);
    first [ apply eventsOnly_refl
          | split; simpl; try done;
            first [ by exists []; rewrite app_nil_r
                  | eexists; split; [reflexivity|]; repeat constructor;
                    eauto using normalizeAborted_isAssistant ] ].
Qed.

Lemma handlePushed_frame events state w :
  eventsOnly state (handlePushed dateNow extractText events state w).2
  ∧ clockOnly w (handlePushed dateNow extractText events state w).1.
Proof.
  revert state w. induction events as [|e events IH]; intros state w; cbn [handlePushed].
  - split; [apply eventsOnly_refl|apply clockOnly_refl].
  - pose proof (handleChatEvent_frame state (Some e) w) as [H1 H2].
    destruct (handleChatEvent dateNow extractText state (Some e) w) as [[w1 s1] r].
    simpl in H1, H2. destruct (IH s1 w1) as [H3 H4].
    split; [exact (eventsOnly_trans _ _ _ H1 H3)|exact (clockOnly_trans _ _ _ H2 H4)].
Qed.

Lemma updateLocalSessionState_frame key updater w :
  storageOnly w (updateLocalSessionState key updater w).
Proof.
  unfold updateLocalSessionState, writeLocalChatStateStore.
  repeat (match goal with
          | |- context [if ?b then _ else _] => destruct b
          | |- context [match ?x with _ => _ end] => destruct x
          end); by split.
Qed.

Lemma patchAttachments_frame attachmentId persistedNoteId refs w :
  let r := patchAttachments attachmentId persistedNoteId refs w in
  length r.1 = length refs
  ∧ localStorage r.2 = localStorage w ∧ requests r.2 = requests w
  ∧ warnings r.2 = warnings w ∧ clock r.2 = clock w ∧ uuids r.2 = uuids w
  ∧ ∃ extra, heap r.2 = heap w ++ extra.
Proof.
  revert w. induction refs as [|l refs IH]; intros w; cbn [patchAttachments].
  - repeat split; try done. exists []. by rewrite app_nil_r.
  - set (step := match heap w !! l with
                 | Some a => if String.eqb (a_id a) attachmentId
                             then alloc (setPersistedNoteId persistedNoteId a) w
                             else (l, w)
                 | None => (l, w)
                 end).
    assert (localStorage step.2 = localStorage w ∧ requests step.2 = requests w
            ∧ warnings step.2 = warnings w ∧ clock step.2 = clock w
            ∧ uuids step.2 = uuids w ∧ ∃ extra, heap step.2 = heap w ++ extra) as Hstep.
    { unfold step. destruct (heap w !! l) as [a|];
        [destruct (String.eqb (a_id a) attachmentId)|]; simpl;
        repeat split; try done; try (exists []; by rewrite app_nil_r).
      by eexists. }
    destruct step as [l' w1]. simpl in Hstep.
    destruct Hstep as (H1 & H2 & H3 & H4 & H5 & e1 & H6).
    specialize (IH w1). simpl in IH.
    destruct (patchAttachments attachmentId persistedNoteId refs w1) as [rest' w2].
    simpl in *. destruct IH as (I0 & I1 & I2 & I3 & I4 & I5 & e2 & I6).
    repeat split; try congruence.
    exists (e1 ++ e2). by rewrite I6, H6, <- app_assoc.
Qed.

Lemma updateLocalVoiceNotePersistence_frame state attachmentId persistedNoteId w :
  let r := updateLocalVoiceNotePersistence state attachmentId persistedNoteId w in
  steps state r.2
  ∧ requests r.1 = requests w ∧ warnings r.1 = warnings w
  ∧ clock r.1 = clock w ∧ uuids r.1 = uuids w
  ∧ ∃ extra, heap r.1 = heap w ++ extra.
Proof.
  unfold updateLocalVoiceNotePersistence.
  pose proof (patchAttachments_frame attachmentId persistedNoteId (chatAttachments state) w)
    as Hp.
  destruct (patchAttachments attachmentId persistedNoteId (chatAttachments state) w)
    as [refs w1].
  simpl in Hp. destruct Hp as (H0 & H1 & H2 & H3 & H4 & H5 & extra & H6).
  cbv zeta. cbn [fst snd].
  match goal with
  | |- context [updateLocalSessionState ?k ?f w1] =>
      destruct (updateLocalSessionState_frame k f w1)
  end.
  split_and!; [split; simpl; try congruence; by rewrite length_map|..]; try congruence.
  exists extra. congruence.
Qed.

Lemma await_frame reply state w :
  let r := await dateNow extractText reply state w in
  eventsOnly state r.1.2 ∧ clockOnly w r.1.1 ∧ r.2 = outcome reply.
Proof.
  unfold await. pose proof (handlePushed_frame (pushed reply) state w) as [H1 H2].
  destruct (handlePushed dateNow extractText (pushed reply) state w) as [w1 s1].
  by simpl in *.
Qed.

Lemma persist_resume_steps attachment reply state w :
  steps state (persistVoiceNoteAttachment_resume dateNow extractText attachment reply state w).1.2.
Proof.
  unfold persistVoiceNoteAttachment_resume.
  pose proof (await_frame reply state w) as (H1 & H2 & H3).
  destruct (await dateNow extractText reply state w) as [[w1 s1] out]. simpl in *.
  apply eventsOnly_steps in H1.
  destruct out as [noteId|err]; [|done].
  destruct (negb _); [done|].
  destruct (heap w1 !! attachment) as [a|]; [|done].
  match goal with
  | |- context [updateLocalVoiceNotePersistence ?s ?i ?p ?w'] =>
      pose proof (updateLocalVoiceNotePersistence_frame s i p w') as [H4 _];
      destruct (updateLocalVoiceNotePersistence s i p w') as [w3 s3]
  end.
  simpl in *. by eapply steps_trans.
Qed.

Lemma finishPersists_steps pending ids state w :
  steps state (finishPersists dateNow extractText pending ids state w).1.2.
Proof.
  revert ids state w. induction pending as [|[l started] pending IH]; intros ids state w;
    cbn [finishPersists]; [apply steps_refl|].
  assert (steps state
            (match started with
             | Returns result => (w, state, Returned result)
             | Awaits reply =>
                 persistVoiceNoteAttachment_resume dateNow extractText l reply state w
             end).1.2) as Hs.
  { destruct started; [apply steps_refl|apply persist_resume_steps]. }
  destruct (match started with
            | Returns result => (w, state, Returned result)
            | Awaits reply =>
                persistVoiceNoteAttachment_resume dateNow extractText l reply state w
            end) as [[w1 s1] completion].
  simpl in Hs.
  destruct completion as [[persistedId|]|err]; [destruct (heap w1 !! l)|..];
    (eapply steps_trans; [exact Hs|apply IH]).
Qed.

Lemma persistVoiceNotes_steps state refs w :
  steps state (persistVoiceNotes dateNow extractText state refs w).1.2.
Proof.
  unfold persistVoiceNotes.
  destruct (startPersists state refs ∅ w) as [[w1 ids] pending].
  apply finishPersists_steps.
Qed.

Lemma persist_phase_steps (b : bool) state refs w w2 state2 ids :
  (if b then persistVoiceNotes dateNow extractText state refs w else (w, state, ∅))
  = (w2, state2, ids) →
  steps state state2.
Proof.
  destruct b.
  - intros H. pose proof (persistVoiceNotes_steps state refs w) as Hs.
    by rewrite H in Hs.
  - intros [= <- <- <-]. apply steps_refl.
Qed.

(** [sendChatMessage] either returns before it does anything, or runs
    through the persistence of the voice notes and the [chat.send] request. *)
Lemma sendChatMessage_inv state message optAttachments w w' state' r :
  sendChatMessage dateNow generateUUID extractText state message optAttachments w
  = (w', state', r) →
  (r = None ∧ w' = w ∧ state' = state
   ∧ (client state = None ∨ connected state = false
      ∨ (Js.truthy (Js.trim message) = false
         ∧ filterRefs (fun a => negb (isVoiceNoteAttachment a)) w
             (default [] optAttachments) = []
         ∧ filterRefs isVoiceNoteAttachment w (default [] optAttachments) = [])))
  ∨ ∃ c w2 state2 ids w5 state6,
      let msg := Js.trim message in
      let refs := default [] optAttachments in
      let images := filterRefs (fun a => negb (isVoiceNoteAttachment a)) w refs in
      let voices := filterRefs isVoiceNoteAttachment w refs in
      let sentAt := dateNow (clock w) in
      let blocks :=
        buildContentBlocks msg (derefs w2 images) (derefs w2 voices)
          (chatMessages state2) ids in
      let state3 :=
        match blocks with
        | [] => state2
        | _ :: _ =>
            set_chatMessages (chatMessages state2 ++ [userMessage blocks sentAt]) state2
        end in
      let runId := generateUUID (uuids w2) in
      let state5 :=
        set_run (Some runId) (Some "") (Some sentAt)
          (set_lastError None (set_chatSending true state3)) in
      let req :=
        ChatSend {| cs_sessionKey := sessionKey state5;
                    cs_message :=
                      buildOutboundMessage msg
                        (buildVoiceNotePromptText (derefs w voices));
                    cs_deliver := false;
                    cs_idempotencyKey := runId;
                    cs_attachments :=
                      if negb (Nat.eqb (length images) 0)
                      then Some (buildApiAttachments
                                   (derefs (set_uuids (S (uuids w2)) w2) images))
                      else None |} in
      let reply := respond c (requests w2) req in
      client state = Some c ∧ connected state = true
      ∧ (Js.truthy msg = true ∨ images ≠ [] ∨ voices ≠ [])
      ∧ (if negb (Nat.eqb (length voices) 0)
         then persistVoiceNotes dateNow extractText state voices (set_clock (S (clock w)) w)
         else (set_clock (S (clock w)) w, state, ∅)) = (w2, state2, ids)
      ∧ await dateNow extractText reply state5
          (set_requests (requests w2 ++ [req]) (set_uuids (S (uuids w2)) w2))
        = (w5, state6, outcome reply)
      ∧ match outcome reply with
        | Resolved _ =>
            w' = w5 ∧ state' = set_chatSending false state6 ∧ r = Some runId
        | Rejected error =>
            w' = set_clock (S (clock w5)) w5
            ∧ state'
              = set_chatSending false
                  (set_chatMessages
                     (chatMessages state6 ++ [errorMessage error (dateNow (clock w5))])
                     (set_lastError (Some error) (set_run None None None state6)))
            ∧ r = None
        end.
Proof.
  unfold sendChatMessage.
  destruct (client state) as [c|] eqn:Hc; [|intros [= <- <- <-]; left; auto].
  destruct (connected state) eqn:Hconn; [|intros [= <- <- <-]; left; split_and!; auto].
  cbn [negb]. cbv zeta.
  set (msg := Js.trim message).
  set (refs := default [] optAttachments).
  set (images := filterRefs (fun a => negb (isVoiceNoteAttachment a)) w refs).
  set (voices := filterRefs isVoiceNoteAttachment w refs).
  destruct (negb (Js.truthy msg) && negb (negb (Nat.eqb (length images) 0))
            && negb (negb (Nat.eqb (length voices) 0))) eqn:Hguard.
  { intros [= <- <- <-]. left. split_and!; try done. right; right.
    destruct (Js.truthy msg); [done|]. destruct images; [|done]. by destruct voices. }
  unfold now, newUUID, issue.
  destruct (if negb (Nat.eqb (length voices) 0)
            then persistVoiceNotes dateNow extractText state voices (set_clock (S (clock w)) w)
            else (set_clock (S (clock w)) w, state, ∅)) as [[w2 state2] ids] eqn:Hp.
  change (requests (set_uuids (S (uuids w2)) w2)) with (requests w2).
  match goal with
  | |- context [await dateNow extractText ?reply ?s ?w0] =>
      pose proof (await_frame reply s w0) as (_ & _ & Hout);
      destruct (await dateNow extractText reply s w0) as [[w5 state6] out] eqn:Ha
  end.
  simpl in Hout. subst out.
  intros Hres. right. exists c, w2, state2, ids, w5, state6.
  split_and!; try done.
  - destruct (Js.truthy msg); [by left|]. right.
    destruct images; [|by left]. destruct voices; [done|by right].
  - cbv zeta.
    match goal with
    | |- match outcome ?R1 with _ => _ end =>
        match type of Hres with
        | context [outcome ?R2] => change R2 with R1 in Hres
        end;
        destruct (outcome R1) as [noteId|error]
    end; by injection Hres as <- <- <-.
Qed.

End Frames.




(** ** The request log and the queue *)

Section Requests.
Variable dateNow : nat -> Z.
Variable generateUUID : nat -> string.
Variable extractText : JsValue -> option string.

Lemma syncChatComposerLocalState_frame state w :
  storageOnly w (syncChatComposerLocalState state w).
Proof. apply updateLocalSessionState_frame. Qed.

Lemma filterRefs_nil_valid w refs :
  validRefs w refs →
  filterRefs (fun a => negb (isVoiceNoteAttachment a)) w refs = [] →
  filterRefs isVoiceNoteAttachment w refs = [] →
  refs = [].
Proof.
  destruct refs as [|l refs]; [done|]. intros Hv. apply Forall_cons in Hv as [[a Ha] _].
  unfold filterRefs. simpl. rewrite Ha.
  destruct (isVoiceNoteAttachment a); simpl; done.
Qed.

Lemma persist_start_requests state l w :
  requestsGrow w (persistVoiceNoteAttachment_start state l w).1.
Proof.
  unfold persistVoiceNoteAttachment_start.
  destruct (client state) as [c|]; [|apply requestsGrow_refl].
  destruct (negb (connected state)); [apply requestsGrow_refl|].
  destruct (heap w !! l) as [a|]; [|apply requestsGrow_refl]. cbv zeta.
  destruct (Js.truthy (trimmedPersistedNoteId a)); [apply requestsGrow_refl|].
  destruct (dataUrlToBase64 (a_dataUrl a)) as [[mimeType content]|];
    [|apply requestsGrow_refl].
  unfold issue. cbn. by eexists.
Qed.

Lemma startPersists_requests state refs ids w :
  requestsGrow w (startPersists state refs ids w).1.1.
Proof.
  revert ids w. induction refs as [|l refs IH]; intros ids w; cbn [startPersists];
    [apply requestsGrow_refl|].
  destruct (heap w !! l) as [a|]; [|apply IH]. cbv zeta.
  destruct (Js.truthy _); [apply IH|].
  pose proof (persist_start_requests state l w) as H1.
  destruct (persistVoiceNoteAttachment_start state l w) as [w1 started].
  pose proof (IH ids w1) as H2.
  destruct (startPersists state refs ids w1) as [[w2 ids2] pending].
  cbn [fst snd] in *. by eapply requestsGrow_trans.
Qed.

Lemma persist_resume_requests l reply state w :
  requests (persistVoiceNoteAttachment_resume dateNow extractText l reply state w).1.1
  = requests w.
Proof.
  unfold persistVoiceNoteAttachment_resume.
  pose proof (await_frame dateNow extractText reply state w) as (_ & [_ _ H _ _] & _).
  destruct (await dateNow extractText reply state w) as [[w1 s1] out].
  cbn [fst snd] in *. destruct out as [noteId|err]; [|done].
  destruct (negb _); [done|]. destruct (heap w1 !! l) as [a|]; [|done].
  match goal with
  | |- context [updateLocalVoiceNotePersistence ?s ?i ?p ?w'] =>
      pose proof (updateLocalVoiceNotePersistence_frame s i p w') as (_ & H4 & _);
      destruct (updateLocalVoiceNotePersistence s i p w') as [w3 s3]
  end.
  cbn [fst snd] in *. by rewrite H4.
Qed.

Lemma finishPersists_requests pending ids state w :
  requests (finishPersists dateNow extractText pending ids state w).1.1 = requests w.
Proof.
  revert ids state w. induction pending as [|[l started] pending IH]; intros ids state w;
    cbn [finishPersists]; [done|].
  assert (requests
            (match started with
             | Returns result => (w, state, Returned result)
             | Awaits reply =>
                 persistVoiceNoteAttachment_resume dateNow extractText l reply state w
             end).1.1 = requests w) as Hs.
  { destruct started; [done|apply persist_resume_requests]. }
  destruct (match started with
            | Returns result => (w, state, Returned result)
            | Awaits reply =>
                persistVoiceNoteAttachment_resume dateNow extractText l reply state w
            end) as [[w1 s1] completion].
  cbn [fst snd] in Hs.
  destruct completion as [[persistedId|]|err]; [destruct (heap w1 !! l)|..];
    rewrite IH; done.
Qed.

Lemma sendChatMessage_requests state message optAttachments w :
  requestsGrow w (sendChatMessage dateNow generateUUID extractText state message
                    optAttachments w).1.1.
Proof.
  destruct (sendChatMessage dateNow generateUUID extractText state message optAttachments w)
    as [[w' state'] r] eqn:Hsend.
  apply sendChatMessage_inv in Hsend. cbn [fst snd].
  destruct Hsend as [(_ & -> & _)|Hsent]; [apply requestsGrow_refl|].
  destruct Hsent as (c & w2 & state2 & ids & w5 & state6 & Hsent). cbv zeta in Hsent.
  destruct Hsent as (_ & _ & _ & Hphase & Hawait & Hout).
  assert (requestsGrow w w2) as H1.
  { destruct (negb _).
    - unfold persistVoiceNotes in Hphase.
      pose proof (startPersists_requests state
                    (filterRefs isVoiceNoteAttachment w (default [] optAttachments)) ∅
                    (set_clock (S (clock w)) w)) as Hs.
      destruct (startPersists _ _ _ _) as [[w1 ids1] pending].
      pose proof (finishPersists_requests pending ids1 state w1) as Hf.
      rewrite Hphase in Hf. cbn [fst snd] in *.
      eapply requestsGrow_trans; [exact Hs|by apply requestsGrow_eq].
    - injection Hphase as <- _ _. by apply requestsGrow_eq. }
  match type of Hawait with
  | await _ _ ?reply ?s ?w0 = _ =>
      pose proof (await_frame dateNow extractText reply s w0) as (_ & [_ _ Hw _ _] & _);
      rewrite Hawait in Hw; cbn in Hw
  end.
  eapply requestsGrow_trans; [exact H1|].
  destruct (outcome _); destruct Hout as (-> & _ & _); unfold requestsGrow; cbn;
    rewrite Hw; by eexists.
Qed.

(** [sendChatMessageNow] after a send that returned no run id. *)
Lemma sendChatMessageNow_failed flush host message opts w w1 state1 runId :
  sendChatMessage dateNow generateUUID extractText (host_state host) message
    (so_attachments opts) w = (w1, state1, runId) →
  isRunId runId = false →
  let state2 :=
    match previousDraft opts with
    | Some d => set_chatMessage d state1
    | None => state1
    end in
  let state3 :=
    match previousAttachments opts with
    | Some refs => set_chatAttachments refs state2
    | None => state2
    end in
  sendChatMessageNow_with dateNow generateUUID extractText flush host message opts w
  = (syncChatComposerLocalState state3 w1, set_host_state state3 host, false).
Proof.
  intros Hsend Hok. unfold sendChatMessageNow_with. rewrite Hsend.
  cbv zeta. rewrite Hok. cbn.
  destruct (previousDraft opts), (previousAttachments opts) as [[|r refs]|], runId;
    reflexivity.
Qed.

Lemma sendChatMessageNow_sent flush host message opts w w1 state1 id :
  sendChatMessage dateNow generateUUID extractText (host_state host) message
    (so_attachments opts) w = (w1, state1, Some id) →
  Js.truthy id = true →
  let state5 := restored opts state1 in
  let w2 := syncChatComposerLocalState state5 w1 in
  let host1 := set_host_state state5 host in
  let flushed := if isActive state1 then (w2, host1) else flush host1 w2 in
  sendChatMessageNow_with dateNow generateUUID extractText flush host message opts w
  = (flushed.1,
     if refreshSessions opts
     then set_refreshSessionsAfterChat ({[ id ]} ∪ refreshSessionsAfterChat flushed.2)
            flushed.2
     else flushed.2,
     true).
Proof.
  intros Hsend Hok. unfold sendChatMessageNow_with, restored, isActive. rewrite Hsend.
  cbv zeta. cbn [isRunId]. rewrite Hok.
  destruct (previousDraft opts) as [d|];
    [destruct (Js.truthy (Js.trim d))|];
    destruct (previousAttachments opts) as [[|r refs]|];
    destruct (restoreDraft opts), (restoreAttachments opts);
    cbn -[isRunId];
    destruct (isRunId (chatRunId state1));
    cbn; try reflexivity;
    destruct (flush _ _) as [w3 host2]; reflexivity.
Qed.

End Requests.

(** ** The history merge *)

Lemma elem_of_collectMarkerIds (history : list JsValue) (seen : gset string) (x : string) :
  x ∈ collectMarkerIds seen history ↔ x ∈ seen ∨ Exists (carries x) history.
Proof.
  revert seen. induction history as [|m history IH]; intros seen; simpl.
  - rewrite Exists_nil. tauto.
  - rewrite Exists_cons. unfold carries at 1.
    destruct (getLocalVoiceNoteMarkerId m) as [y|] eqn:Hm; rewrite IH.
    + rewrite elem_of_union, elem_of_singleton. split.
      * intros [[->|?]|?]; auto.
      * intros [?|[[= ->]|?]]; auto.
    + split; [intros [?|?]; auto | intros [?|[?|?]]; auto; discriminate].
Qed.

Lemma pushUnseen_app (localVoiceNotes merged : list JsValue) (seen : gset string) :
  pushUnseen seen merged localVoiceNotes = merged ++ pushUnseen seen [] localVoiceNotes.
Proof.
  revert merged seen. induction localVoiceNotes as [|m l IH]; intros merged seen; simpl.
  - by rewrite app_nil_r.
  - destruct (getLocalVoiceNoteMarkerId m) as [y|]; [|apply IH].
    destruct (decide (y ∈ seen)); [apply IH|].
    rewrite (IH (merged ++ [m])), (IH [m]). by rewrite <- app_assoc.
Qed.

Lemma pushUnseen_covers (localVoiceNotes : list JsValue) (seen : gset string) (x : string) :
  Exists (carries x) localVoiceNotes →
  x ∈ seen ∨ Exists (carries x) (pushUnseen seen [] localVoiceNotes).
Proof.
  revert seen. induction localVoiceNotes as [|m l IH]; intros seen; simpl.
  - by rewrite Exists_nil.
  - rewrite Exists_cons. intros Hx.
    destruct (getLocalVoiceNoteMarkerId m) as [y|] eqn:Hm.
    + destruct (decide (y ∈ seen)) as [Hy|Hy].
      * destruct Hx as [Hx|Hx]; [|by apply IH].
        unfold carries in Hx. left. congruence.
      * rewrite pushUnseen_app. simpl. rewrite Exists_cons.
        destruct Hx as [Hx|Hx]; [by right; left|].
        destruct (IH ({[y]} ∪ seen) Hx) as [Hin|Hex]; [|by right; right].
        apply elem_of_union in Hin as [Hin|Hin]; [|by left].
        apply elem_of_singleton in Hin as ->. by right; left.
    + destruct Hx as [Hx|Hx]; [unfold carries in Hx; congruence|by apply IH].
Qed.

Lemma pushUnseen_seen (localVoiceNotes merged : list JsValue) (seen : gset string) :
  (∀ x, Exists (carries x) localVoiceNotes → x ∈ seen) →
  pushUnseen seen merged localVoiceNotes = merged.
Proof.
  revert merged. induction localVoiceNotes as [|m l IH]; intros merged Hall; simpl; [done|].
  assert (∀ x, Exists (carries x) l → x ∈ seen) as Hl.
  { intros x Hx. apply Hall. by apply Exists_cons; right. }
  destruct (getLocalVoiceNoteMarkerId m) as [y|] eqn:Hm; [|by apply IH].
  destruct (decide (y ∈ seen)) as [Hy|Hy]; [by apply IH|].
  exfalso. apply Hy, Hall. by apply Exists_cons; left.
Qed.

(** C3: the history merge is idempotent: merging the local voice-note
    messages [L] into the result of merging them into the remote history [R]
    gives that result again. *)
Theorem merge_idempotent (R L : list JsValue) :
  mergeLocalVoiceNoteMessages (mergeLocalVoiceNoteMessages R L) L
  = mergeLocalVoiceNoteMessages R L.
Proof.
  unfold mergeLocalVoiceNoteMessages. destruct L as [|m l]; [done|].
  set (L := m :: l). apply pushUnseen_seen. intros x Hx.
  rewrite (pushUnseen_app L R). apply elem_of_collectMarkerIds. right.
  apply Exists_app.
  destruct (pushUnseen_covers L (collectMarkerIds ∅ R) x Hx) as [Hin|Hex]; [|by right].
  apply elem_of_collectMarkerIds in Hin as [Hin|Hin]; [set_solver|by left].
Qed.

(** ** The run state machine *)

Section Events.
Variable dateNow : nat -> Z.
Variable extractText : JsValue -> option string.

Lemma own_run_not_foreign (runId : string) :
  Js.truthy runId && (Js.truthy runId && negb (String.eqb runId runId)) = false.
Proof. rewrite String.eqb_refl. by destruct (Js.truthy runId). Qed.

(** C4: on a delta event for the own run in the current session whose message
    has a display text, the text replaces the stream buffer if and only if
    the buffer is null or empty or the text is at least as long as the
    buffer; otherwise the controller is unchanged. The event is reported as
    a delta either way. *)
Theorem delta_guard (state : ChatState) (payload : ChatEventPayload) (w : World)
    (next : string) :
  ev_sessionKey payload = sessionKey state →
  chatRunId state = Some (ev_runId payload) →
  ev_state payload = StDelta →
  extractText (ev_message payload) = Some next →
  let buffer := default "" (chatStream state) in
  let '(w', state', result) := handleChatEvent dateNow extractText state (Some payload) w in
  w' = w ∧ result = Some StDelta
  ∧ (buffer = "" ∨ String.length buffer ≤ String.length next →
     state' = set_chatStream (Some next) state)
  ∧ (¬ (buffer = "" ∨ String.length buffer ≤ String.length next) → state' = state)
  ∧ (chatStream state' = Some next ↔
     buffer = "" ∨ String.length buffer ≤ String.length next).
Proof.
  intros Hkey Hrun Hst Hnext buffer. unfold handleChatEvent.
  rewrite Hkey, String.eqb_refl, Hrun, own_run_not_foreign, Hst, Hnext. simpl.
  fold buffer.
  destruct (negb (Js.truthy buffer) || (String.length buffer <=? String.length next))
    eqn:Hguard.
  - assert (buffer = "" ∨ String.length buffer ≤ String.length next) as Hc.
    { apply orb_true_iff in Hguard as [H|H].
      - left. apply truthy_false. by destruct (Js.truthy buffer).
      - right. by apply Nat.leb_le. }
    repeat split; try done.
  - apply orb_false_iff in Hguard as [Hb Hl].
    apply negb_false_iff, truthy_true in Hb. apply Nat.leb_gt in Hl.
    assert (¬ (buffer = "" ∨ String.length buffer ≤ String.length next)) as Hc.
    { intros [?|?]; [done|lia]. }
    repeat split; try done.
    intros Heq. exfalso. unfold buffer in Hl. rewrite Heq in Hl. simpl in Hl. lia.
Qed.

(** C5: a final event of the current session whose run id differs from the
    active run's id (both non-empty) returns final and leaves the controller
    as it is, so chatRunId, chatStream, chatStreamStartedAt, chatMessages and
    lastError are unchanged; a final event for the own run returns final and
    sets chatStream, chatRunId and chatStreamStartedAt to null. *)
Theorem final_event (state : ChatState) (payload : ChatEventPayload) (w : World) :
  ev_sessionKey payload = sessionKey state →
  ev_state payload = StFinal →
  (∀ runId, chatRunId state = Some runId → runId ≠ "" → ev_runId payload ≠ "" →
            ev_runId payload ≠ runId →
     handleChatEvent dateNow extractText state (Some payload) w = (w, state, Some StFinal))
  ∧ (chatRunId state = Some (ev_runId payload) →
     ∃ state',
       handleChatEvent dateNow extractText state (Some payload) w = (w, state', Some StFinal)
       ∧ chatStream state' = None ∧ chatRunId state' = None
       ∧ chatStreamStartedAt state' = None
       ∧ state' = set_run None None None state).
Proof.
  intros Hkey Hst. split.
  - intros runId Hrun Hne1 Hne2 Hdiff. unfold handleChatEvent.
    rewrite Hkey, String.eqb_refl, Hrun, Hst. simpl.
    apply truthy_true in Hne1, Hne2. rewrite Hne1, Hne2.
    apply String.eqb_neq in Hdiff. by rewrite Hdiff.
  - intros Hrun. eexists. unfold handleChatEvent.
    rewrite Hkey, String.eqb_refl, Hrun, own_run_not_foreign, Hst. simpl. done.
Qed.

Lemma normalizeAborted_Some (message : JsValue) :
  wellFormedAssistant message ↔ normalizeAbortedAssistantMessage message = Some message.
Proof.
  unfold wellFormedAssistant, normalizeAbortedAssistantMessage. split.
  - intros (props & items & -> & Hr & Hh & Hc). by rewrite Hr, Hh, Hc.
  - destruct message as [| | | | |?|props]; try done.
    destruct (getProp "role" props) as [| | | |role| |] eqn:Hr; try done.
    destruct (String.eqb role "assistant") eqn:He; try done.
    apply String.eqb_eq in He as ->.
    destruct (hasProp "content" props) eqn:Hh; try done.
    destruct (getProp "content" props) as [| | | | |items|] eqn:Hc; try done.
    intros _. by exists props, items.
Qed.

Lemma normalizeAborted_spec (message : JsValue) :
  (wellFormedAssistant message ∧ normalizeAbortedAssistantMessage message = Some message)
  ∨ (¬ wellFormedAssistant message ∧ normalizeAbortedAssistantMessage message = None).
Proof.
  destruct (normalizeAbortedAssistantMessage message) as [m|] eqn:H.
  - assert (m = message) as ->.
    { unfold normalizeAbortedAssistantMessage in H.
      repeat (match type of H with
              | match ?x with _ => _ end = _ => destruct x; try discriminate
              | (if ?x then _ else _) = _ => destruct x; try discriminate
              end); congruence. }
    left. split; [by apply normalizeAborted_Some|done].
  - right. split; [|done]. intros Hwf. apply normalizeAborted_Some in Hwf. congruence.
Qed.

(** C6: on an aborted event for the own run, a well-formed assistant message
    is appended verbatim; otherwise, when the stream buffer holds text that
    is not white space, an assistant message made of that text is appended;
    otherwise nothing is appended; in every case chatStream, chatRunId and
    chatStreamStartedAt become null. *)
Theorem aborted_event (state : ChatState) (payload : ChatEventPayload) (w : World) :
  ev_sessionKey payload = sessionKey state →
  chatRunId state = Some (ev_runId payload) →
  ev_state payload = StAborted →
  let '(w', state', result) := handleChatEvent dateNow extractText state (Some payload) w in
  result = Some StAborted
  ∧ chatStream state' = None ∧ chatRunId state' = None ∧ chatStreamStartedAt state' = None
  ∧ (wellFormedAssistant (ev_message payload) →
     chatMessages state' = chatMessages state ++ [ev_message payload])
  ∧ (¬ wellFormedAssistant (ev_message payload) →
     Js.trim (default "" (chatStream state)) ≠ "" →
     chatMessages state'
     = chatMessages state ++ [synthesized (default "" (chatStream state)) (dateNow (clock w))])
  ∧ (¬ wellFormedAssistant (ev_message payload) →
     Js.trim (default "" (chatStream state)) = "" →
     chatMessages state' = chatMessages state).
Proof.
  intros Hkey Hrun Hst. unfold handleChatEvent.
  rewrite Hkey, String.eqb_refl, Hrun, own_run_not_foreign, Hst. simpl.
  destruct (normalizeAborted_spec (ev_message payload)) as [[Hwf ->]|[Hwf ->]].
  - repeat split; try done.
  - destruct (Js.truthy (Js.trim (default "" (chatStream state)))) eqn:Ht.
    + apply truthy_true in Ht. repeat split; try done.
    + apply truthy_false in Ht. repeat split; try done.
Qed.
End Events.

(** ** The local cache store *)

Section Store.
Variable dateNow : nat -> Z.
Variable generateUUID : nat -> string.
Variable extractText : JsValue -> option string.

(** C1 fails on [updateLocalVoiceNotePersistence]: when the session has no
    entry in the persisted store, the update writes one that has no draft, no
    attachments and no voice notes. *)
Theorem persistence_leaves_empty_entry (state : ChatState)
    (attachmentId persistedNoteId : string) (w : World) (storage : LocalStorage) :
  localStorage w = Some storage →
  ls_writable storage = true →
  Js.trim (sessionKey state) ≠ "" →
  persistedSessions w !! sessionKey state = None →
  persistedSessions (updateLocalVoiceNotePersistence state attachmentId persistedNoteId w).1
    !! sessionKey state
  = Some emptySession.
Proof.
  intros Hls Hw Hkey Hnone. unfold updateLocalVoiceNotePersistence.
  pose proof (patchAttachments_frame attachmentId persistedNoteId (chatAttachments state) w)
    as (_ & Hst & _).
  destruct (patchAttachments attachmentId persistedNoteId (chatAttachments state) w)
    as [refs w1].
  cbn [fst snd] in *. cbv zeta.
  unfold updateLocalSessionState. cbn [sessionKey set_chatMessages set_chatAttachments].
  apply truthy_true in Hkey. rewrite Hkey. cbn [negb].
  assert (readLocalChatStateStore w1 = readLocalChatStateStore w) as Hread.
  { unfold readLocalChatStateStore. by rewrite Hst. }
  unfold persistedSessions in Hnone. rewrite Hread.
  unfold persistedSessions, writeLocalChatStateStore. rewrite Hst, Hls, Hw.
  unfold readLocalChatStateStore at 1. cbn.
  destruct (readLocalChatStateStore w) as [store|] eqn:Hstore; cbn.
  - assert (version store = LOCAL_CHAT_STATE_VERSION) as Hv.
    { unfold readLocalChatStateStore in Hstore. rewrite Hls in Hstore.
      destruct (ls_item storage) as [parsed|]; [|done].
      destruct (version parsed =? _)%Z; [|done]. by injection Hstore as <-. }
    rewrite Hv. cbn. rewrite Hnone. cbn. by rewrite lookup_insert_eq.
  - by rewrite lookup_insert_eq.
Qed.

End Store.

(** ** The attachment lifecycle *)

Section Lifecycle.
Variable dateNow : nat -> Z.
Variable generateUUID : nat -> string.
Variable extractText : JsValue -> option string.

Lemma persist_already_persisted (state : ChatState) (c : GatewayBrowserClient)
    (attachment : loc) (a : ChatAttachment) (id : string) (w : World) :
  client state = Some c →
  connected state = true →
  heap w !! attachment = Some a →
  a_persistedNoteId a = Some id →
  Js.trim id ≠ "" →
  persistVoiceNoteAttachment dateNow extractText state attachment w
  = (w, state, Returned (Some (Js.trim id))).
Proof.
  intros Hc Hconn Ha Hid Hne.
  unfold persistVoiceNoteAttachment, persistVoiceNoteAttachment_start.
  unfold trimmedPersistedNoteId. rewrite Hc, Hconn, Ha, Hid. simpl.
  apply truthy_true in Hne. by rewrite Hne.
Qed.

Lemma persist_success_sets_id (state : ChatState) (attachment : loc) (w w1 : World)
    (state1 : ChatState) (id1 : string) :
  persistVoiceNoteAttachment dateNow extractText state attachment w
  = (w1, state1, Returned (Some id1)) →
  ∃ c a id, client state1 = Some c ∧ connected state1 = true
            ∧ heap w1 !! attachment = Some a ∧ a_persistedNoteId a = Some id
            ∧ Js.trim id = id1 ∧ id1 ≠ "".
Proof.
  unfold persistVoiceNoteAttachment, persistVoiceNoteAttachment_start.
  destruct (client state) as [c|] eqn:Hc; [|done].
  destruct (connected state) eqn:Hconn; [|done]. cbn [negb].
  destruct (heap w !! attachment) as [a|] eqn:Ha; [|done]. cbv zeta.
  destruct (Js.truthy (trimmedPersistedNoteId a)) eqn:Hex.
  { intros [= <- <- <-]. unfold trimmedPersistedNoteId in *.
    destruct (a_persistedNoteId a) as [id|] eqn:Hid; [|done].
    exists c, a, id. split_and!; try done. by apply truthy_true. }
  destruct (dataUrlToBase64 (a_dataUrl a)) as [[mimeType content]|]; [|done].
  unfold issue. cbv zeta. cbn [fst snd].
  unfold persistVoiceNoteAttachment_resume.
  match goal with
  | |- context [await dateNow extractText ?reply ?s ?w0] =>
      pose proof (await_frame dateNow extractText reply s w0) as (Hs & Hw & _);
      destruct (await dateNow extractText reply s w0) as [[w2 s2] out]
  end.
  simpl in Hs, Hw. destruct out as [noteId|err]; [|done].
  set (persistedId := match noteId with Some id => Js.trim id | None => "" end).
  destruct (Js.truthy persistedId) eqn:Ht; cbn [negb]; [|done].
  assert (heap w2 !! attachment = Some a) as Ha2.
  { destruct Hw as [_ Hh _ _ _]. by rewrite Hh. }
  rewrite Ha2.
  match goal with
  | |- context [updateLocalVoiceNotePersistence ?s ?i ?p ?w'] =>
      pose proof (updateLocalVoiceNotePersistence_frame s i p w')
        as (Hst & _ & _ & _ & _ & extra & Hheap);
      destruct (updateLocalVoiceNotePersistence s i p w') as [w3 s3]
  end.
  simpl in Hst, Hheap. intros [= <- <- <-].
  destruct Hs, Hst.
  eexists c, _, _. split_and!.
  - congruence.
  - congruence.
  - rewrite Hheap. apply lookup_app_l_Some. apply list_lookup_insert_eq.
    by eapply lookup_lt_Some.
  - reflexivity.
  - unfold persistedId. destruct noteId; [apply trim_idemp|done].
  - by apply truthy_true.
Qed.

(** C7 (as amended): with a client and a connection, persisting an attachment
    whose persistedNoteId trims to a non-empty string returns that id,
    trimmed, and changes nothing, so no [voice-notes.save] request is issued;
    a second persist after one that returned an id returns the same id and
    changes nothing; without a client or a connection persist returns null
    and changes nothing. *)
Theorem persist_idempotent :
  (∀ state c attachment a id w,
     client state = Some c →
     connected state = true →
     heap w !! attachment = Some a →
     a_persistedNoteId a = Some id →
     Js.trim id ≠ "" →
     persistVoiceNoteAttachment dateNow extractText state attachment w
     = (w, state, Returned (Some (Js.trim id))))
  ∧ (∀ state attachment w w1 state1 id1,
       persistVoiceNoteAttachment dateNow extractText state attachment w
       = (w1, state1, Returned (Some id1)) →
       persistVoiceNoteAttachment dateNow extractText state1 attachment w1
       = (w1, state1, Returned (Some id1)))
  ∧ (∀ state attachment w,
       client state = None ∨ connected state = false →
       persistVoiceNoteAttachment dateNow extractText state attachment w
       = (w, state, Returned None)).
Proof.
  split_and!.
  - apply persist_already_persisted.
  - intros state attachment w w1 state1 id1 Hfirst.
    apply persist_success_sets_id in Hfirst as (c & a & id & Hc & Hconn & Ha & Hid & <- & Hne).
    by eapply persist_already_persisted.
  - intros state attachment w H.
    unfold persistVoiceNoteAttachment, persistVoiceNoteAttachment_start.
    destruct (client state); [|done]. destruct H as [H|H]; [done|]. by rewrite H.
Qed.

End Lifecycle.

(** ** Sending *)

Section Sending.
Variable dateNow : nat -> Z.
Variable generateUUID : nat -> string.
Variable extractText : JsValue -> option string.

(** C10: [sendChatMessage] without a client, without a connection, or with a
    message that trims to the empty string and no attachments returns null,
    issues no request and leaves the controller and the world as they are. *)
Theorem sendChatMessage_nothing_to_send (state : ChatState) (message : string)
    (optAttachments : option (list loc)) (w : World) :
  client state = None ∨ connected state = false
  ∨ (Js.trim message = "" ∧ (optAttachments = None ∨ optAttachments = Some [])) →
  sendChatMessage dateNow generateUUID extractText state message optAttachments w
  = (w, state, None).
Proof.
  intros H. unfold sendChatMessage.
  destruct (client state) as [c|]; [|done].
  destruct (connected state); [|done].
  destruct H as [H|[H|[Hm Ha]]]; try done.
  rewrite Hm. by destruct Ha as [-> | ->].
Qed.

(** C2 (as amended): when [handleSendChat] sends the composer's content and
    the [chat.send] request is rejected, the draft and the attachment list
    are restored, the run id, the stream buffer and its start time are null,
    chatSending is false and lastError is the error; the history is not
    rolled back: it keeps what it held, the user message of the send stays,
    and an assistant message with the error is appended last. *)
Theorem send_failure_keeps_bubble (host : ChatHost) (c : GatewayBrowserClient)
    (w : World) (error : string) :
  let state := host_state host in
  client state = Some c →
  connected state = true →
  isChatBusy host = false →
  validRefs w (chatAttachments state) →
  Js.trim (chatMessage state) ≠ "" ∨ chatAttachments state ≠ [] →
  isChatStopCommand (Js.trim (chatMessage state)) = false →
  (∀ log params, outcome (respond c log (ChatSend params)) = Rejected error) →
  let state' := host_state (handleSendChat dateNow generateUUID extractText host None false w).2 in
  chatMessage state' = chatMessage state
  ∧ chatAttachments state' = chatAttachments state
  ∧ chatRunId state' = None ∧ chatStream state' = None
  ∧ chatStreamStartedAt state' = None
  ∧ chatSending state' = false
  ∧ lastError state' = Some error
  ∧ ∃ earlier timestamp,
      chatMessages state' = earlier ++ [errorMessage error timestamp]
      ∧ length (chatMessages state) ≤ length earlier
      ∧ (Js.trim (chatMessage state) ≠ "" →
         ∃ blocks sentAt,
           userMessage (textBlock (Js.trim (chatMessage state)) :: blocks) sentAt ∈ earlier).
Proof.
  intros state Hc Hconn Hbusy Hvalid Hcontent Hstop Hreject.
  unfold handleSendChat. fold state. rewrite Hconn. cbn [negb default]. cbv zeta.
  rewrite Hstop.
  assert (negb (Js.truthy (Js.trim (chatMessage state)))
          && negb (negb (Nat.eqb (length (chatAttachments state)) 0)) = false) as ->.
  { destruct Hcontent as [H|H].
    - apply truthy_true in H. by rewrite H.
    - destruct (chatAttachments state); [done|]. simpl. apply andb_false_r. }
  set (state1 := set_chatAttachments [] (set_chatMessage "" state)).
  assert (isChatBusy (set_host_state state1 host) = false) as -> by exact Hbusy.
  set (w1 := syncChatComposerLocalState state1 w).
  set (opts := Build_SendOpts _ _ _ _ _ _).
  unfold sendChatMessageNow.
  destruct (sendChatMessage dateNow generateUUID extractText
              (host_state (set_host_state state1 host))
              (Js.trim (chatMessage state)) (so_attachments opts) w1)
    as [[w' st'] r] eqn:Hsend.
  pose proof Hsend as Hinv. apply sendChatMessage_inv in Hinv.
  cbn [host_state set_host_state] in Hinv.
  destruct Hinv as [(_ & _ & _ & Hearly)|Hsent].
  { exfalso. destruct Hearly as [H|[H|(Hm & Hi & Hv)]].
    - unfold state1 in H. simpl in H. congruence.
    - unfold state1 in H. simpl in H. congruence.
    - destruct Hcontent as [H|H].
      + apply truthy_true in H. rewrite trim_idemp in Hm. congruence.
      + unfold opts in Hi, Hv. cbn [so_attachments] in Hi, Hv.
        destruct (chatAttachments state) as [|l refs] eqn:Hrefs; [done|].
        cbn [length Nat.eqb negb default] in Hi, Hv.
        assert (validRefs w1 (l :: refs)) as Hvalid1.
        { unfold w1. destruct (syncChatComposerLocalState_frame state1 w) as [Hh _ _ _ _].
          unfold validRefs. by rewrite Hh. }
        by pose proof (filterRefs_nil_valid w1 (l :: refs) Hvalid1 Hi Hv). }
  destruct Hsent as (c' & w2 & state2 & ids & w5 & state6 & Hsent).
  cbv zeta in Hsent.
  destruct Hsent as (Hc' & _ & _ & Hphase & Hawait & Hout).
  rewrite trim_idemp in *.
  assert (c' = c) as -> by (unfold state1 in Hc'; simpl in Hc'; congruence).
  rewrite Hreject in Hout. destruct Hout as (-> & -> & ->).
  rewrite (sendChatMessageNow_failed dateNow generateUUID extractText _ _ _ _ _ _ _ _
             Hsend eq_refl).
  apply persist_phase_steps in Hphase.
  match type of Hawait with
  | await _ _ ?reply ?s ?w0 = _ =>
      pose proof (await_frame dateNow extractText reply s w0) as (Hev & _ & _);
      rewrite Hawait in Hev; cbn [fst snd] in Hev
  end.
  cbn. split_and!; try done.
  destruct Hev as [_ _ _ _ _ _ _ _ (extra & Hmsgs & _)].
  eexists (chatMessages state6), _. split_and!; [done|..].
  - rewrite Hmsgs. rewrite length_app.
    destruct Hphase as [_ _ _ _ _ _ _ _ Hlen]. unfold state1 in Hlen. simpl in Hlen.
    destruct (buildContentBlocks _ _ _ _ _); simpl; [lia|]. rewrite length_app. lia.
  - intros Hne. apply truthy_true in Hne.
    rewrite Hmsgs. unfold buildContentBlocks. rewrite Hne. cbn.
    eexists _, _. apply elem_of_app. left. apply elem_of_app. right.
    apply list_elem_of_singleton. reflexivity.
Qed.
Lemma persist_start_unsaved state c l a w :
  client state = Some c →
  heap w !! l = Some a →
  unsaved a →
  persistVoiceNoteAttachment_start state l w = (w, Returns None)
  ∨ ∃ params,
      persistVoiceNoteAttachment_start state l w
      = (set_requests (requests w ++ [VoiceNotesSave params]) w,
         Awaits (respond c (requests w) (VoiceNotesSave params))).
Proof.
  intros Hc Ha Hu. unfold persistVoiceNoteAttachment_start.
  rewrite Hc, Ha. destruct (connected state); cbn [negb]; [|by left].
  cbv zeta. rewrite Hu. cbn [Js.truthy].
  destruct (dataUrlToBase64 (a_dataUrl a)) as [[mimeType content]|]; [|by left].
  right. unfold issue. by eexists.
Qed.

Lemma startPersists_unsaved state c refs ids w :
  client state = Some c →
  (∀ l a, l ∈ refs → heap w !! l = Some a → unsaved a) →
  let r := startPersists state refs ids w in
  r.1.2 = ids
  ∧ Forall (pendingSave c) r.2
  ∧ localStorage r.1.1 = localStorage w ∧ heap r.1.1 = heap w
  ∧ warnings r.1.1 = warnings w ∧ clock r.1.1 = clock w ∧ uuids r.1.1 = uuids w
  ∧ ∃ saves, requests r.1.1 = requests w ++ saves ∧ Forall isSave saves
             ∧ length saves = countAwaiting r.2.
Proof.
  intros Hc. revert ids w. induction refs as [|l refs IH]; intros ids w Hu;
    cbn [startPersists].
  - split_and!; try done. exists []. by rewrite app_nil_r.
  - assert (∀ l' a, l' ∈ refs → heap w !! l' = Some a → unsaved a) as Hrest.
    { intros l' a Hin. apply Hu. by apply elem_of_cons; right. }
    destruct (heap w !! l) as [a|] eqn:Ha; [|by apply IH].
    assert (unsaved a) as Hua by (apply (Hu l); [apply elem_of_cons; by left|done]).
    cbv zeta. rewrite Hua. cbn [Js.truthy].
    destruct (persist_start_unsaved state c l a w Hc Ha Hua) as [->|(params & ->)].
    + specialize (IH ids w Hrest). cbv zeta in IH.
      destruct (startPersists state refs ids w) as [[w2 ids2] pending].
      cbn [fst snd] in *. destruct IH as (I1 & I2 & I3 & I4 & I5 & I6 & I7 & saves & I8 & I9 & I10).
      split_and!; try done.
      * apply Forall_cons. split; [by left|done].
      * exists saves. split_and!; try done.
    + set (w1 := set_requests (requests w ++ [VoiceNotesSave params]) w).
      assert (∀ l' a, l' ∈ refs → heap w1 !! l' = Some a → unsaved a) as Hrest1 by exact Hrest.
      specialize (IH ids w1 Hrest1). cbv zeta in IH.
      destruct (startPersists state refs ids w1) as [[w2 ids2] pending].
      cbn [fst snd] in *. destruct IH as (I1 & I2 & I3 & I4 & I5 & I6 & I7 & saves & I8 & I9 & I10).
      split_and!; try done.
      * apply Forall_cons. split; [right; by eexists _, _|done].
      * exists (VoiceNotesSave params :: saves). split_and!.
        -- rewrite I8. unfold w1. cbn. by rewrite <- app_assoc.
        -- apply Forall_cons. split; [by eexists|done].
        -- unfold countAwaiting. cbn. unfold countAwaiting in I10. lia.
Qed.

Lemma persist_resume_rejected l reply state w err :
  outcome reply = Rejected err →
  let r := persistVoiceNoteAttachment_resume dateNow extractText l reply state w in
  r.2 = Thrown err ∧ eventsOnly state r.1.2 ∧ clockOnly w r.1.1.
Proof.
  intros Hout. unfold persistVoiceNoteAttachment_resume.
  pose proof (await_frame dateNow extractText reply state w) as (H1 & H2 & H3).
  destruct (await dateNow extractText reply state w) as [[w1 s1] out].
  cbn [fst snd] in *. subst out. rewrite Hout. by cbn.
Qed.

Lemma finishPersists_rejected c pending ids state w :
  rejectsSaves c →
  Forall (pendingSave c) pending →
  let r := finishPersists dateNow extractText pending ids state w in
  r.2 = ids ∧ eventsOnly state r.1.2
  ∧ localStorage r.1.1 = localStorage w ∧ heap r.1.1 = heap w
  ∧ requests r.1.1 = requests w ∧ uuids r.1.1 = uuids w
  ∧ ∃ lines, warnings r.1.1 = warnings w ++ lines ∧ Forall isPersistWarning lines
             ∧ length lines = countAwaiting pending.
Proof.
  intros Hrej. revert ids state w.
  induction pending as [|[l started] pending IH]; intros ids state w Hp;
    cbn [finishPersists].
  - split_and!; try done; [apply eventsOnly_refl|]. exists []. by rewrite app_nil_r.
  - apply Forall_cons in Hp as [Hhead Hp].
    destruct Hhead as [Hh|(log & params & Hh)]; cbn [snd] in Hh; subst started.
    + specialize (IH ids state w Hp). cbv zeta in IH. cbn.
      destruct (finishPersists dateNow extractText pending ids state w) as [[w2 s2] ids2].
      done.
    + destruct (Hrej log params) as [err Herr].
      pose proof (persist_resume_rejected l _ state w err Herr) as (H1 & H2 & H3).
      destruct (persistVoiceNoteAttachment_resume dateNow extractText l
                  (respond c log (VoiceNotesSave params)) state w) as [[w1 s1] completion].
      cbn [fst snd] in *. subst completion.
      set (w1' := set_warnings (warnings w1 ++ [WARN_PERSIST_FAILED +:+ " " +:+ err]) w1).
      specialize (IH ids s1 w1' Hp). cbv zeta in IH.
      destruct (finishPersists dateNow extractText pending ids s1 w1') as [[w2 s2] ids2].
      cbn [fst snd] in *.
      destruct IH as (I1 & I2 & I3 & I4 & I5 & I6 & lines & I7 & I8 & I9).
      destruct H3 as [C1 C2 C3 C4 C5].
      split_and!; try done; try (unfold w1' in *; cbn in *; congruence).
      * by eapply eventsOnly_trans.
      * exists ((WARN_PERSIST_FAILED +:+ " " +:+ err) :: lines). split_and!.
        -- rewrite I7. unfold w1'. cbn. rewrite C4. by rewrite <- app_assoc.
        -- apply Forall_cons. split; [by eexists|done].
        -- unfold countAwaiting. cbn. unfold countAwaiting in I9. lia.
Qed.

Lemma startPersists_issues state c refs ids w :
  client state = Some c →
  connected state = true →
  (∀ l a, l ∈ refs → heap w !! l = Some a → unsaved a) →
  (∃ l a, l ∈ refs ∧ heap w !! l = Some a ∧ dataUrlToBase64 (a_dataUrl a) ≠ None) →
  0 < countAwaiting (startPersists state refs ids w).2.
Proof.
  intros Hc Hconn. revert ids w. induction refs as [|l refs IH]; intros ids w Hu Hex.
  - destruct Hex as (l & a & Hin & _). by apply elem_of_nil in Hin.
  - cbn [startPersists].
    assert (∀ l' a, l' ∈ refs → heap w !! l' = Some a → unsaved a) as Hrest.
    { intros l' a Hin. apply Hu. by apply elem_of_cons; right. }
    destruct (heap w !! l) as [a|] eqn:Ha.
    + assert (unsaved a) as Hua by (apply (Hu l); [apply elem_of_cons; by left|done]).
      cbv zeta. rewrite Hua. cbn [Js.truthy].
      destruct (persistVoiceNoteAttachment_start state l w) as [w1 started] eqn:Hstart.
      destruct (startPersists state refs ids w1) as [[w2 ids2] pending] eqn:Hrec.
      cbn [snd]. unfold countAwaiting. cbn [List.filter snd].
      destruct started as [result|reply]; cbn [isAwaiting]; [|cbn; lia].
      destruct Hex as (l' & a' & Hin & Ha' & Hparse).
      apply elem_of_cons in Hin as [->|Hin].
      * exfalso. unfold persistVoiceNoteAttachment_start in Hstart.
        rewrite Hc, Hconn, Ha in Hstart. cbn [negb] in Hstart. cbv zeta in Hstart.
        rewrite Hua in Hstart. cbn [Js.truthy] in Hstart.
        assert (a' = a) as -> by congruence.
        destruct (dataUrlToBase64 (a_dataUrl a)) as [[m k]|]; [|done].
        by unfold issue in Hstart.
      * assert (w1 = w) as ->.
        { destruct (persist_start_unsaved state c l a w Hc Ha Hua) as [H|(p & H)];
            rewrite H in Hstart; by injection Hstart. }
        specialize (IH ids w Hrest). rewrite Hrec in IH. apply IH. by exists l', a'.
    + destruct Hex as (l' & a' & Hin & Ha' & Hparse).
      apply elem_of_cons in Hin as [->|Hin]; [congruence|].
      apply IH; [done|]. by exists l', a'.
Qed.

Lemma derefs_heap w w' refs : heap w' = heap w → derefs w' refs = derefs w refs.
Proof. intros H. unfold derefs. by rewrite H. Qed.

Lemma derefs_unsaved w refs :
  (∀ l a, l ∈ refs → heap w !! l = Some a → unsaved a) →
  Forall unsaved (derefs w refs).
Proof.
  intros H. apply Forall_forall. intros a Ha.
  apply list_elem_of_omap in Ha as (l & Hl & Hla). by eapply H.
Qed.

Lemma voiceBlock_noPersistedNoteId a :
  unsaved a → noPersistedNoteId (buildVoiceNoteContentBlock a None true).
Proof.
  intros Hu. unfold noPersistedNoteId, buildVoiceNoteContentBlock. cbv zeta.
  rewrite Hu. cbn [Js.truthy].
  destruct (a_previewUrl a) as [url|]; [destruct (true && Js.truthy url)|];
    destruct (Js.truthy (normalizeTranscript a)); reflexivity.
Qed.

Lemma buildContentBlocks_noPersistedNoteId msg images voices messages :
  Forall unsaved voices →
  Forall noPersistedNoteId (buildContentBlocks msg images voices messages ∅).
Proof.
  intros Hu. unfold buildContentBlocks. repeat apply Forall_app_2.
  - destruct (Js.truthy msg); by repeat constructor.
  - apply Forall_forall. intros b Hb. apply list_elem_of_In, in_map_iff in Hb
      as (a & <- & _). reflexivity.
  - apply Forall_forall. intros b Hb.
    apply list_elem_of_omap in Hb as (a & Ha & Hb).
    destruct (hasLocalVoiceNoteMessage messages (a_id a)); [done|].
    injection Hb as <-. rewrite lookup_empty. apply voiceBlock_noPersistedNoteId.
    by eapply Forall_forall in Hu.
Qed.

(** C8: when every [voice-notes.save] request of a send is rejected and the
    [chat.send] request resolves, the send completes: it returns the run id,
    the [chat.send] request is the last request and carries the run id and
    the outbound text, every rejected save leaves one console warning, and
    the history grows by assistant messages of push events and by the user
    message, none of whose content blocks carries a persistedNoteId. *)
Theorem send_completes_when_persistence_fails (state : ChatState)
    (c : GatewayBrowserClient) (message : string) (refs : list loc) (w : World) :
  let msg := Js.trim message in
  let images := filterRefs (fun a => negb (isVoiceNoteAttachment a)) w refs in
  let voices := filterRefs isVoiceNoteAttachment w refs in
  let sentAt := dateNow (clock w) in
  let runId := generateUUID (uuids w) in
  client state = Some c →
  connected state = true →
  rejectsSaves c →
  resolvesSends c →
  (∀ l a, l ∈ voices → heap w !! l = Some a → unsaved a) →
  (∃ l a, l ∈ voices ∧ heap w !! l = Some a ∧ dataUrlToBase64 (a_dataUrl a) ≠ None) →
  let r := sendChatMessage dateNow generateUUID extractText state message (Some refs) w in
  r.2 = Some runId
  ∧ chatSending r.1.2 = false
  ∧ (∃ saves params lines,
       requests r.1.1 = requests w ++ saves ++ [ChatSend params]
       ∧ saves ≠ [] ∧ Forall isSave saves
       ∧ cs_idempotencyKey params = runId
       ∧ cs_message params
         = buildOutboundMessage msg (buildVoiceNotePromptText (derefs w voices))
       ∧ warnings r.1.1 = warnings w ++ lines
       ∧ Forall isPersistWarning lines ∧ length lines = length saves)
  ∧ (∃ pre post,
       let blocks :=
         buildContentBlocks msg (derefs w images) (derefs w voices)
           (chatMessages state ++ pre) ∅ in
       Forall isAssistant pre ∧ Forall isAssistant post
       ∧ chatMessages r.1.2
         = chatMessages state ++ pre
           ++ match blocks with
              | [] => []
              | _ :: _ => [userMessage blocks sentAt]
              end
           ++ post
       ∧ Forall noPersistedNoteId blocks).
Proof.
  intros msg images voices sentAt runId Hc Hconn Hrej Hres Hu Hex r.
  destruct r as [[w' state'] res] eqn:Hr. unfold r in Hr. clear r.
  apply sendChatMessage_inv in Hr. change (default [] (Some refs)) with refs in Hr.
  fold images voices msg in Hr.
  destruct Hr as [(_ & _ & _ & Hearly)|Hsent].
  { exfalso. destruct Hearly as [H|[H|(_ & _ & H)]]; try congruence.
    destruct Hex as (l & a & Hin & _). rewrite H in Hin. by apply elem_of_nil in Hin. }
  destruct Hsent as (c' & w2 & state2 & ids & w5 & state6 & Hsent). cbv zeta in Hsent.
  fold msg images voices in Hsent.
  destruct Hsent as (Hc' & _ & _ & Hphase & Hawait & Hout).
  assert (c' = c) as -> by congruence.
  assert (negb (Nat.eqb (length voices) 0) = true) as Hv.
  { destruct voices; [|done]. destruct Hex as (l & a & Hin & _).
    by apply elem_of_nil in Hin. }
  rewrite Hv in Hphase. unfold persistVoiceNotes in Hphase.
  set (w1 := set_clock (S (clock w)) w) in *.
  pose proof (startPersists_unsaved state c voices ∅ w1 Hc Hu) as Hstart.
  pose proof (startPersists_issues state c voices ∅ w1 Hc Hconn Hu Hex) as Hissues.
  destruct (startPersists state voices ∅ w1) as [[w1' ids1] pending].
  cbn [fst snd] in Hstart, Hissues.
  destruct Hstart as (-> & Hpend & S1 & S2 & S3 & S4 & S5 & saves & S6 & S7 & S8).
  pose proof (finishPersists_rejected c pending ∅ state w1' Hrej Hpend) as Hfin.
  rewrite Hphase in Hfin. cbn [fst snd] in Hfin.
  destruct Hfin as (-> & Hev1 & F1 & F2 & F3 & F4 & lines & F5 & F6 & F7).
  match type of Hawait with
  | await _ _ ?reply ?s ?w0 = _ =>
      pose proof (await_frame dateNow extractText reply s w0) as (Hev2 & Hw2 & _);
      rewrite Hawait in Hev2, Hw2; cbn [fst snd] in Hev2, Hw2
  end.
  match type of Hout with
  | match outcome (respond c ?log (ChatSend ?p)) with _ => _ end =>
      destruct (Hres log p) as [result Hresolved]; rewrite Hresolved in Hout
  end.
  destruct Hout as (-> & -> & ->).
  assert (heap w2 = heap w) as Hheap by (rewrite F2, S2; done).
  assert (uuids w2 = uuids w) as Huuids by (rewrite F4, S5; done).
  destruct Hw2 as [_ _ W3 W4 _]. cbn in W3, W4.
  destruct Hev1 as [_ _ _ _ _ _ _ _ (pre & Hpre & Hprea)].
  destruct Hev2 as [_ _ _ _ _ _ _ _ (post & Hpost & Hposta)].
  cbn [fst snd]. split_and!.
  - by rewrite Huuids.
  - done.
  - eexists saves, _, lines. split_and!.
    + rewrite W3, F3, S6. by rewrite <- app_assoc.
    + intros ->. cbn in S8. lia.
    + done.
    + cbn. by rewrite Huuids.
    + reflexivity.
    + rewrite W4, F5, S3. done.
    + done.
    + lia.
  - exists pre, post. cbv zeta.
    rewrite <- !(derefs_heap w w2) by done. rewrite <- Hpre.
    split_and!; try done.
    + cbn [chatMessages set_chatSending]. rewrite Hpost. cbn.
      destruct (buildContentBlocks _ _ _ _ _); cbn; rewrite Hpre;
        by rewrite <- ?app_assoc.
    + apply buildContentBlocks_noPersistedNoteId.
      rewrite (derefs_heap w w2) by done. by apply derefs_unsaved.
Qed.

End Sending.

(** ** The send queue *)

Section Queue.
Variable dateNow : nat -> Z.
Variable generateUUID : nat -> string.
Variable extractText : JsValue -> option string.

Local Abbreviation sendChatMessage' := (sendChatMessage dateNow generateUUID extractText).
Local Abbreviation sendChatMessageNow' := (sendChatMessageNow dateNow generateUUID extractText).
Local Abbreviation flushChatQueue' := (flushChatQueue dateNow generateUUID extractText).
Local Abbreviation flushQueue' := (flushQueue dateNow generateUUID extractText).
Local Abbreviation handleSendChat' := (handleSendChat dateNow generateUUID extractText).
Local Abbreviation sendChatMessageNow_with' :=
  (sendChatMessageNow_with dateNow generateUUID extractText).

Lemma sendChatMessage_frame state message optAttachments w :
  let r := sendChatMessage' state message optAttachments w in
  client r.1.2 = client state ∧ connected r.1.2 = connected state
  ∧ (isRunId r.2 = true → chatSending r.1.2 = false).
Proof.
  destruct (sendChatMessage' state message optAttachments w) as [[w' state'] r] eqn:Hsend.
  apply sendChatMessage_inv in Hsend. cbn [fst snd].
  destruct Hsend as [(-> & _ & -> & _)|Hsent]; [done|].
  destruct Hsent as (c & w2 & state2 & ids & w5 & state6 & Hsent). cbv zeta in Hsent.
  destruct Hsent as (_ & _ & _ & Hphase & Hawait & Hout).
  apply persist_phase_steps in Hphase. destruct Hphase as [P1 P2 _ _ _ _ _ _ _].
  match type of Hawait with
  | await _ _ ?reply ?s ?w0 = _ =>
      pose proof (await_frame dateNow extractText reply s w0) as ([E1 E2 _ _ _ _ _ _ _] & _ & _);
      rewrite Hawait in E1, E2; cbn [fst snd] in E1, E2
  end.
  destruct (outcome _); destruct Hout as (_ & -> & ->); cbn;
    split_and!; try done; rewrite ?E1, ?E2; by destruct (buildContentBlocks _ _ _ _ _).
Qed.

Lemma restored_frame opts state :
  connected (restored opts state) = connected state
  ∧ client (restored opts state) = client state
  ∧ chatSending (restored opts state) = chatSending state
  ∧ chatRunId (restored opts state) = chatRunId state.
Proof.
  unfold restored.
  destruct (previousDraft opts) as [d|];
    [destruct (restoreDraft opts && Js.truthy (Js.trim d))|];
    destruct (previousAttachments opts) as [[|r refs]|];
    destruct (restoreAttachments opts); done.
Qed.

Lemma sendChatMessageNow_with_ext flush1 flush2 host message opts w :
  (∀ h w', chatQueue h = chatQueue host → flush1 h w' = flush2 h w') →
  sendChatMessageNow_with' flush1 host message opts w
  = sendChatMessageNow_with' flush2 host message opts w.
Proof.
  intros Hext. unfold sendChatMessageNow_with.
  destruct (sendChatMessage' (host_state host) message (so_attachments opts) w)
    as [[w1 state1] runId].
  cbv zeta. destruct (isRunId runId && negb _); [|done]. by rewrite Hext.
Qed.

(** [flushChatQueue] as [app-chat.ts] writes it. *)
Lemma flushChatQueue_unfold host w :
  flushChatQueue' host w
  = if negb (connected (host_state host)) || isChatBusy host then (w, host)
    else
      match chatQueue host with
      | [] => (w, host)
      | next :: rest =>
          let '(w1, host2, ok) :=
            sendChatMessageNow' (set_chatQueue rest host) (q_text next)
              (queuedOpts next) w in
          if negb ok
          then (w1, set_chatQueue (next :: chatQueue host2) host2)
          else (w1, host2)
      end.
Proof.
  unfold flushChatQueue. destruct (chatQueue host) as [|next rest] eqn:Hq;
    cbn [flushQueue]; [done|].
  destruct (negb _ || _); [done|]. cbv zeta.
  unfold sendChatMessageNow.
  rewrite (sendChatMessageNow_with_ext (flushQueue' rest) flushChatQueue'); [done|].
  intros h w' Hh. unfold flushChatQueue. by rewrite Hh.
Qed.

Lemma copyAttachments_requests refs w :
  requests (copyAttachments refs w).2 = requests w.
Proof.
  revert w. induction refs as [|l refs IH]; intros w; cbn [copyAttachments]; [done|].
  destruct (heap w !! l) as [a|]; [|apply IH]. unfold alloc.
  specialize (IH (set_heap (heap w ++ [a]) w)).
  destruct (copyAttachments refs _) as [rest' w2]. by cbn in *.
Qed.

(** Sending and flushing take items off the queue and put back the one
    that failed; they add none. *)
Lemma sendChatMessageNow_with_queue flush host message opts w :
  (∀ h w', chatQueue h = chatQueue host →
           chatQueue (flush h w').2 `suffix_of` chatQueue host) →
  chatQueue (sendChatMessageNow_with' flush host message opts w).1.2
    `suffix_of` chatQueue host.
Proof.
  intros Hflush.
  destruct (sendChatMessage' (host_state host) message (so_attachments opts) w)
    as [[w1 state1] runId] eqn:Hsend.
  destruct (isRunId runId) eqn:Hok.
  - destruct runId as [id|]; [|done]. cbn in Hok.
    rewrite (sendChatMessageNow_sent dateNow generateUUID extractText _ _ _ _ _ _ _ _
               Hsend Hok).
    cbn [fst snd]. destruct (isActive state1).
    + by destruct (refreshSessions opts).
    + specialize (Hflush (set_host_state (restored opts state1) host)
                    (syncChatComposerLocalState (restored opts state1) w1) eq_refl).
      by destruct (refreshSessions opts).
  - rewrite (sendChatMessageNow_failed dateNow generateUUID extractText _ _ _ _ _ _ _ _
               Hsend Hok).
    done.
Qed.

Lemma flushQueue_queue queue host w :
  chatQueue host = queue →
  chatQueue (flushQueue' queue host w).2 `suffix_of` queue.
Proof.
  revert host w. induction queue as [|next rest IH]; intros host w Hq; cbn [flushQueue].
  - destruct (negb _ || _); cbn [snd]; by rewrite Hq.
  - destruct (negb _ || _); [cbn [snd]; by rewrite Hq|]. cbv zeta.
    pose proof (sendChatMessageNow_with_queue (flushQueue' rest) (set_chatQueue rest host)
                  (q_text next) (queuedOpts next) w) as Hsuffix.
    destruct (sendChatMessage' (host_state (set_chatQueue rest host)) (q_text next)
                (so_attachments (queuedOpts next)) w) as [[w1 state1] runId] eqn:Hsend.
    destruct (isRunId runId) eqn:Hok.
    + destruct (sendChatMessageNow_with' (flushQueue' rest) (set_chatQueue rest host)
                  (q_text next) (queuedOpts next) w) as [[w2 host2] ok] eqn:Hnow.
      assert (ok = true) as ->.
      { destruct runId as [id|]; [|done]. cbn in Hok.
        rewrite (sendChatMessageNow_sent dateNow generateUUID extractText _ _ _ _ _ _ _ _
                   Hsend Hok) in Hnow. by injection Hnow. }
      cbn [negb fst snd] in *.
      apply suffix_cons_r. apply Hsuffix. intros h w' Hh. by apply IH.
    + rewrite (sendChatMessageNow_failed dateNow generateUUID extractText _ _ _ _ _ _ _ _
                 Hsend Hok).
      cbn. done.
Qed.

Lemma flushChatQueue_queue host w :
  chatQueue (flushChatQueue' host w).2 `suffix_of` chatQueue host.
Proof. by apply flushQueue_queue. Qed.

Lemma sendChatMessageNow_queue host message opts w :
  chatQueue (sendChatMessageNow' host message opts w).1.2 `suffix_of` chatQueue host.
Proof.
  apply sendChatMessageNow_with_queue. intros h w' <-. apply flushChatQueue_queue.
Qed.

Lemma syncChatComposerLocalState_requests state w :
  requests (syncChatComposerLocalState state w) = requests w.
Proof. by destruct (syncChatComposerLocalState_frame state w). Qed.

Lemma sendChatMessageNow_with_requests flush host message opts w :
  (∀ h w', requestsGrow w' (flush h w').1) →
  requestsGrow
    (sendChatMessage' (host_state host) message (so_attachments opts) w).1.1
    (sendChatMessageNow_with' flush host message opts w).1.1.
Proof.
  intros Hflush.
  destruct (sendChatMessage' (host_state host) message (so_attachments opts) w)
    as [[w1 state1] runId] eqn:Hsend.
  cbn [fst snd].
  destruct (isRunId runId) eqn:Hok.
  - destruct runId as [id|]; [|done]. cbn in Hok.
    rewrite (sendChatMessageNow_sent dateNow generateUUID extractText _ _ _ _ _ _ _ _
               Hsend Hok).
    cbn [fst snd]. destruct (isActive state1); cbn [fst].
    + apply requestsGrow_eq, syncChatComposerLocalState_requests.
    + eapply requestsGrow_trans; [|apply Hflush].
      apply requestsGrow_eq, syncChatComposerLocalState_requests.
  - rewrite (sendChatMessageNow_failed dateNow generateUUID extractText _ _ _ _ _ _ _ _
               Hsend Hok).
    apply requestsGrow_eq, syncChatComposerLocalState_requests.
Qed.

Lemma flushQueue_requests queue host w :
  requestsGrow w (flushQueue' queue host w).1.
Proof.
  revert host w. induction queue as [|next rest IH]; intros host w; cbn [flushQueue].
  - destruct (negb _ || _); apply requestsGrow_refl.
  - destruct (negb _ || _); [apply requestsGrow_refl|]. cbv zeta.
    pose proof (sendChatMessageNow_with_requests (flushQueue' rest)
                  (set_chatQueue rest host) (q_text next) (queuedOpts next) w
                  (fun h w' => IH h w')) as Hnow.
    pose proof (sendChatMessage_requests dateNow generateUUID extractText
                  (host_state (set_chatQueue rest host)) (q_text next)
                  (so_attachments (queuedOpts next)) w) as Hsend.
    destruct (sendChatMessageNow_with' _ _ _ _ _) as [[w1 host2] ok].
    cbn [fst snd] in *.
    destruct (negb ok); cbn [fst]; by eapply requestsGrow_trans.
Qed.

Lemma flushChatQueue_requests host w :
  requestsGrow w (flushChatQueue' host w).1.
Proof. apply flushQueue_requests. Qed.

(** A flush of the queue [next :: rest] by an idle, connected controller
    sends [next]. *)
Lemma flushChatQueue_head host next rest w :
  connected (host_state host) = true →
  isChatBusy host = false →
  chatQueue host = next :: rest →
  let sent := sendChatMessage' (host_state host) (q_text next) (q_attachments next) w in
  let r := flushChatQueue' host w in
  requestsGrow sent.1.1 r.1
  ∧ (isRunId sent.2 = false →
     r = (syncChatComposerLocalState sent.1.2 sent.1.1,
          set_chatQueue (next :: rest) (set_host_state sent.1.2 host)))
  ∧ (isRunId sent.2 = true → chatQueue r.2 `suffix_of` rest).
Proof.
  intros Hconn Hbusy Hq sent r. unfold r. rewrite flushChatQueue_unfold.
  rewrite Hconn, Hbusy, Hq. cbn [negb orb].
  pose proof (sendChatMessageNow_with_requests flushChatQueue'
                (set_chatQueue rest host) (q_text next) (queuedOpts next) w
                flushChatQueue_requests) as Hreq.
  pose proof (sendChatMessageNow_queue (set_chatQueue rest host) (q_text next)
                (queuedOpts next) w) as Hsuffix.
  fold (sendChatMessageNow' (set_chatQueue rest host) (q_text next) (queuedOpts next) w)
    in Hreq.
  change (sendChatMessage' (host_state (set_chatQueue rest host)) (q_text next)
            (so_attachments (queuedOpts next)) w) with sent in Hreq.
  destruct sent as [[w1 state1] runId] eqn:Hsent. unfold sent in Hsent.
  cbn [fst snd] in *.
  destruct (isRunId runId) eqn:Hok.
  - destruct runId as [id|]; [|done]. cbn in Hok.
    unfold sendChatMessageNow in *.
    rewrite (sendChatMessageNow_sent dateNow generateUUID extractText _
               (set_chatQueue rest host) _ (queuedOpts next) _ _ _ _ Hsent Hok)
      in Hreq, Hsuffix |- *.
    cbn [negb fst snd] in *. split_and!; try done.
  - unfold sendChatMessageNow in *.
    rewrite (sendChatMessageNow_failed dateNow generateUUID extractText _
               (set_chatQueue rest host) _ (queuedOpts next) _ _ _ _ Hsent Hok)
      in Hreq |- *.
    cbn in *. split_and!; try done.
Qed.

Lemma filterRefs_heap p w w' refs :
  heap w' = heap w → filterRefs p w' refs = filterRefs p w refs.
Proof. intros H. unfold filterRefs. by rewrite H. Qed.

Lemma persist_phase_requests (b : bool) state refs w w2 state2 ids :
  (if b then persistVoiceNotes dateNow extractText state refs w else (w, state, ∅))
  = (w2, state2, ids) →
  requestsGrow w w2.
Proof.
  destruct b.
  - unfold persistVoiceNotes. intros Hphase.
    pose proof (startPersists_requests state refs ∅ w) as Hs.
    destruct (startPersists state refs ∅ w) as [[w1 ids1] pending].
    pose proof (finishPersists_requests dateNow extractText pending ids1 state w1) as Hf.
    rewrite Hphase in Hf. cbn [fst snd] in *.
    eapply requestsGrow_trans; [exact Hs|by apply requestsGrow_eq].
  - intros [= <- _ _]. apply requestsGrow_refl.
Qed.

(** With a client, a connection and something to send, [sendChatMessage]
    issues the [chat.send] request as its last request. *)
Lemma sendChatMessage_issues state c message optAttachments w :
  client state = Some c →
  connected state = true →
  Js.trim message ≠ ""
  ∨ filterRefs (fun a => negb (isVoiceNoteAttachment a)) w (default [] optAttachments) ≠ []
  ∨ filterRefs isVoiceNoteAttachment w (default [] optAttachments) ≠ [] →
  ∃ before params,
    requests (sendChatMessage' state message optAttachments w).1.1
    = requests w ++ before ++ [ChatSend params]
    ∧ cs_message params
      = buildOutboundMessage (Js.trim message)
          (buildVoiceNotePromptText
             (derefs w (filterRefs isVoiceNoteAttachment w (default [] optAttachments)))).
Proof.
  intros Hc Hconn Hcontent.
  destruct (sendChatMessage' state message optAttachments w) as [[w' state'] r] eqn:Hsend.
  apply sendChatMessage_inv in Hsend. cbn [fst snd].
  destruct Hsend as [(_ & _ & _ & Hearly)|Hsent].
  { exfalso. destruct Hearly as [H|[H|(Hm & Hi & Hv)]]; try congruence.
    apply truthy_false in Hm. by destruct Hcontent as [?|[?|?]]. }
  destruct Hsent as (c' & w2 & state2 & ids & w5 & state6 & Hsent). cbv zeta in Hsent.
  destruct Hsent as (_ & _ & _ & Hphase & Hawait & Hout).
  apply persist_phase_requests in Hphase. destruct Hphase as [before Hbefore].
  cbn in Hbefore.
  match type of Hawait with
  | await _ _ ?reply ?s ?w0 = _ =>
      pose proof (await_frame dateNow extractText reply s w0) as (_ & [_ _ Hw _ _] & _);
      rewrite Hawait in Hw; cbn in Hw
  end.
  eexists before, _. split.
  - destruct (outcome _); destruct Hout as (-> & _ & _); cbn; rewrite Hw, Hbefore;
      by rewrite <- app_assoc.
  - reflexivity.
Qed.

Lemma isChatBusy_cleared host :
  isChatBusy
    (set_host_state (set_chatAttachments [] (set_chatMessage "" (host_state host))) host)
  = isChatBusy host.
Proof. reflexivity. Qed.

Lemma guard_content (message : string) (refs : list loc) :
  message ≠ "" ∨ refs ≠ [] →
  negb (Js.truthy message) && negb (negb (Nat.eqb (length refs) 0)) = false.
Proof.
  intros [H|H].
  - apply truthy_true in H. by rewrite H.
  - destruct refs; [done|]. apply andb_false_r.
Qed.

Lemma handleSendChat_busy host messageOverride restore w :
  connected (host_state host) = true →
  (submitted host messageOverride).1 ≠ "" ∨ (submitted host messageOverride).2 ≠ [] →
  isChatStopCommand (submitted host messageOverride).1 = false →
  isChatBusy host = true →
  let r := handleSendChat' host messageOverride restore w in
  (∃ item, chatQueue r.2 = chatQueue host ++ [item]
           ∧ q_text item = (submitted host messageOverride).1)
  ∧ requests r.1 = requests w
  ∧ chatSending (host_state r.2) = chatSending (host_state host)
  ∧ chatRunId (host_state r.2) = chatRunId (host_state host).
Proof.
  unfold submitted. cbn [fst snd]. intros Hconn Hcontent Hstop Hbusy.
  unfold handleSendChat. rewrite Hconn. cbn [negb]. cbv zeta.
  rewrite (guard_content _ _ Hcontent), Hstop.
  set (message := Js.trim (default (chatMessage (host_state host)) messageOverride)) in *.
  assert (Js.trim message = message) as Htrim by apply trim_idemp.
  destruct messageOverride as [override|].
  - rewrite Hbusy. unfold enqueueChatMessage. rewrite Htrim. cbv zeta.
    destruct Hcontent as [Hm|Hr]; [|done]. apply truthy_true in Hm. rewrite Hm.
    cbn. split_and!; try done. by eexists.
  - rewrite isChatBusy_cleared, Hbusy. unfold enqueueChatMessage. rewrite Htrim. cbv zeta.
    set (state1 := set_chatAttachments [] (set_chatMessage "" (host_state host))).
    pose proof (syncChatComposerLocalState_requests state1 w) as Hsync.
    destruct (chatAttachments (host_state host)) as [|l refs] eqn:Hrefs.
    + destruct Hcontent as [Hm|Hr]; [|done]. apply truthy_true in Hm. rewrite Hm.
      cbn. split_and!; try done. by eexists.
    + replace (negb (Js.truthy message) && negb true) with false by apply eq_sym, andb_false_r.
      unfold newUUID, now. cbv zeta.
      match goal with
      | |- context [copyAttachments ?rs ?w0] =>
          pose proof (copyAttachments_requests rs w0) as Hcopy;
          destruct (copyAttachments rs w0) as [copies w3]
      end.
      cbn in *. split_and!; try done; [by eexists|congruence].
Qed.

Lemma handleSendChat_idle host c messageOverride restore w :
  client (host_state host) = Some c →
  connected (host_state host) = true →
  validRefs w (submitted host messageOverride).2 →
  (submitted host messageOverride).1 ≠ "" ∨ (submitted host messageOverride).2 ≠ [] →
  isChatStopCommand (submitted host messageOverride).1 = false →
  isChatBusy host = false →
  let r := handleSendChat' host messageOverride restore w in
  (∃ before after params,
     requests r.1 = requests w ++ before ++ ChatSend params :: after
     ∧ cs_message params
       = buildOutboundMessage (submitted host messageOverride).1
           (buildVoiceNotePromptText
              (derefs w (filterRefs isVoiceNoteAttachment w
                           (submitted host messageOverride).2))))
  ∧ chatQueue r.2 `suffix_of` chatQueue host.
Proof.
  unfold submitted. cbn [fst snd]. intros Hc Hconn Hvalid Hcontent Hstop Hbusy.
  unfold handleSendChat. rewrite Hconn. cbn [negb]. cbv zeta.
  rewrite (guard_content _ _ Hcontent), Hstop.
  set (message := Js.trim (default (chatMessage (host_state host)) messageOverride)) in *.
  set (refs := match messageOverride with
               | None => chatAttachments (host_state host)
               | Some _ => []
               end) in *.
  set (opts := Build_SendOpts _ _ _ _ _ _).
  assert (default [] (so_attachments opts) = refs) as Hrefs.
  { unfold opts. cbn. by destruct refs. }
  assert (∃ w1 host1,
            match messageOverride with
            | Some _ => (w, host)
            | None =>
                (syncChatComposerLocalState
                   (set_chatAttachments [] (set_chatMessage "" (host_state host))) w,
                 set_host_state
                   (set_chatAttachments [] (set_chatMessage "" (host_state host))) host)
            end = (w1, host1)
            ∧ heap w1 = heap w ∧ requests w1 = requests w
            ∧ client (host_state host1) = Some c
            ∧ connected (host_state host1) = true
            ∧ isChatBusy host1 = false ∧ chatQueue host1 = chatQueue host)
    as (w1 & host1 & -> & Hheap & Hreq & Hc1 & Hconn1 & Hbusy1 & Hq1).
  { destruct messageOverride; eexists _, _; (split; [reflexivity|]); split_and!; try done.
    - by destruct (syncChatComposerLocalState_frame
                     (set_chatAttachments [] (set_chatMessage "" (host_state host))) w).
    - apply syncChatComposerLocalState_requests. }
  rewrite Hbusy1.
  pose proof (sendChatMessageNow_queue host1 message opts w1) as Hsuffix.
  pose proof (sendChatMessageNow_with_requests flushChatQueue' host1 message opts w1
                flushChatQueue_requests) as [after Hafter].
  fold (sendChatMessageNow' host1 message opts w1) in Hafter.
  destruct (sendChatMessage_issues (host_state host1) c message (so_attachments opts) w1
              Hc1 Hconn1) as (before & params & Hsent & Hmsg).
  { rewrite Hrefs, !(filterRefs_heap _ w w1) by done.
    unfold message. rewrite trim_idemp. fold message.
    destruct Hcontent as [?|Hne]; [by left|right].
    destruct refs as [|l refs']; [done|].
    apply Forall_cons in Hvalid as [[a Ha] _]. unfold filterRefs. cbn. rewrite Ha.
    destruct (isVoiceNoteAttachment a); cbn; [by right|by left]. }
  destruct (sendChatMessageNow' host1 message opts w1) as [[w2 host2] ok].
  cbn [fst snd] in *. split.
  - exists before, after, params. split.
    + rewrite Hafter, Hsent, Hreq. by rewrite <- !app_assoc.
    + rewrite Hmsg, Hrefs. unfold message at 1. rewrite trim_idemp. fold message.
      by rewrite (derefs_heap w w1), (filterRefs_heap _ w w1).
  - by rewrite <- Hq1.
Qed.

(** After a send that returned a run id whose run is over already, the
    queue is flushed. *)
Lemma sendChatMessageNow_flushes host message opts w next rest :
  let sent := sendChatMessage' (host_state host) message (so_attachments opts) w in
  isRunId sent.2 = true →
  isActive sent.1.2 = false →
  connected (host_state host) = true →
  chatQueue host = next :: rest →
  let state5 := restored opts sent.1.2 in
  let w2 := syncChatComposerLocalState state5 sent.1.1 in
  let sent2 := sendChatMessage' state5 (q_text next) (q_attachments next) w2 in
  let r := sendChatMessageNow' host message opts w in
  requestsGrow sent2.1.1 r.1.1
  ∧ (isRunId sent2.2 = false → chatQueue r.1.2 = next :: rest)
  ∧ (isRunId sent2.2 = true → chatQueue r.1.2 `suffix_of` rest).
Proof.
  intros sent Hok Hactive Hconn Hq state5 w2 sent2 r.
  pose proof (sendChatMessage_frame (host_state host) message (so_attachments opts) w)
    as (_ & Hconn1 & Hsending).
  fold sent in Hconn1, Hsending. specialize (Hsending Hok).
  destruct sent as [[w1 state1] runId] eqn:Hsent. unfold sent in Hsent.
  cbn [fst snd] in *.
  destruct runId as [id|]; [|done]. cbn in Hok.
  unfold r, sendChatMessageNow.
  rewrite (sendChatMessageNow_sent dateNow generateUUID extractText _ _ _ _ _ _ _ _
             Hsent Hok).
  rewrite Hactive. cbn [fst snd]. fold state5 w2.
  destruct (restored_frame opts state1) as (R1 & _ & R3 & R4). fold state5 in R1, R3, R4.
  pose proof (flushChatQueue_head (set_host_state state5 host) next rest w2) as Hflush.
  cbn [host_state set_host_state chatQueue] in Hflush. fold sent2 in Hflush.
  destruct Hflush as (F1 & F2 & F3); try done.
  { congruence. }
  { unfold isChatBusy. cbn. rewrite R3, R4, Hsending. exact Hactive. }
  split_and!.
  - by destruct (refreshSessions opts).
  - intros H. rewrite (F2 H). by destruct (refreshSessions opts).
  - intros H. specialize (F3 H). by destruct (refreshSessions opts).
Qed.

(** After a send that returned no run id, the queue is left as it is. *)
Lemma sendChatMessageNow_no_flush host message opts w :
  let sent := sendChatMessage' (host_state host) message (so_attachments opts) w in
  isRunId sent.2 = false →
  let r := sendChatMessageNow' host message opts w in
  r.2 = false ∧ chatQueue r.1.2 = chatQueue host ∧ requests r.1.1 = requests sent.1.1.
Proof.
  intros sent Hok r.
  destruct sent as [[w1 state1] runId] eqn:Hsent. unfold sent in Hsent.
  cbn [fst snd] in *. unfold r, sendChatMessageNow.
  rewrite (sendChatMessageNow_failed dateNow generateUUID extractText _ _ _ _ _ _ _ _
             Hsent Hok).
  cbn [fst snd]. split_and!; try done. apply syncChatComposerLocalState_requests.
Qed.


(** C9 (as amended): the send queue discipline. While connected, a submitted
    message that has text or attachments and is no stop command is appended
    to the queue tail when the controller is busy, with no request issued,
    and is sent at once, with nothing appended, when it is idle. A flush by
    an idle, connected controller takes the head off the queue and sends it;
    when that send returns no run id the item is put back at the head. After
    a send that returned a run id whose run is over already, the queue head
    is taken off and sent in the same way; after a send that returned no run
    id the queue is left as it is and nothing more is sent. *)
Theorem send_queue_discipline :
  (∀ host messageOverride restore w,
     connected (host_state host) = true →
     (submitted host messageOverride).1 ≠ "" ∨ (submitted host messageOverride).2 ≠ [] →
     isChatStopCommand (submitted host messageOverride).1 = false →
     isChatBusy host = true →
     let r := handleSendChat' host messageOverride restore w in
     (∃ item, chatQueue r.2 = chatQueue host ++ [item]
              ∧ q_text item = (submitted host messageOverride).1)
     ∧ requests r.1 = requests w
     ∧ chatSending (host_state r.2) = chatSending (host_state host)
     ∧ chatRunId (host_state r.2) = chatRunId (host_state host))
  ∧ (∀ host c messageOverride restore w,
       client (host_state host) = Some c →
       connected (host_state host) = true →
       validRefs w (submitted host messageOverride).2 →
       (submitted host messageOverride).1 ≠ "" ∨ (submitted host messageOverride).2 ≠ [] →
       isChatStopCommand (submitted host messageOverride).1 = false →
       isChatBusy host = false →
       let r := handleSendChat' host messageOverride restore w in
       (∃ before after params,
          requests r.1 = requests w ++ before ++ ChatSend params :: after
          ∧ cs_message params
            = buildOutboundMessage (submitted host messageOverride).1
                (buildVoiceNotePromptText
                   (derefs w (filterRefs isVoiceNoteAttachment w
                                (submitted host messageOverride).2))))
       ∧ chatQueue r.2 `suffix_of` chatQueue host)
  ∧ (∀ host next rest w,
       connected (host_state host) = true →
       isChatBusy host = false →
       chatQueue host = next :: rest →
       let sent := sendChatMessage' (host_state host) (q_text next) (q_attachments next) w in
       let r := flushChatQueue' host w in
       requestsGrow sent.1.1 r.1
       ∧ (isRunId sent.2 = false →
          r = (syncChatComposerLocalState sent.1.2 sent.1.1,
               set_chatQueue (next :: rest) (set_host_state sent.1.2 host)))
       ∧ (isRunId sent.2 = true → chatQueue r.2 `suffix_of` rest))
  ∧ (∀ host message opts w next rest,
       let sent := sendChatMessage' (host_state host) message (so_attachments opts) w in
       isRunId sent.2 = true →
       isActive sent.1.2 = false →
       connected (host_state host) = true →
       chatQueue host = next :: rest →
       let state5 := restored opts sent.1.2 in
       let w2 := syncChatComposerLocalState state5 sent.1.1 in
       let sent2 := sendChatMessage' state5 (q_text next) (q_attachments next) w2 in
       let r := sendChatMessageNow' host message opts w in
       requestsGrow sent2.1.1 r.1.1
       ∧ (isRunId sent2.2 = false → chatQueue r.1.2 = next :: rest)
       ∧ (isRunId sent2.2 = true → chatQueue r.1.2 `suffix_of` rest))
  ∧ (∀ host message opts w,
       let sent := sendChatMessage' (host_state host) message (so_attachments opts) w in
       isRunId sent.2 = false →
       let r := sendChatMessageNow' host message opts w in
       r.2 = false ∧ chatQueue r.1.2 = chatQueue host
       ∧ requests r.1.1 = requests sent.1.1).
Proof.
  split_and!.
  - apply handleSendChat_busy.
  - apply handleSendChat_idle.
  - apply flushChatQueue_head.
  - apply sendChatMessageNow_flushes.
  - apply sendChatMessageNow_no_flush.
Qed.

End Queue.

(** ** More on strings *)

Lemma trimEnd_app_r (s t : string) :
  Js.trimEnd t = t → t ≠ "" → Js.trimEnd (s +:+ t) = s +:+ t.
Proof.
  intros Ht Hne. induction s as [|c s IH]; [exact Ht|].
  change (String c s +:+ t) with (String c (s +:+ t)).
  cbn [Js.trimEnd]. rewrite IH. destruct (s +:+ t) eqn:E; [|done].
  destruct s; [by subst|discriminate].
Qed.

Lemma trimStart_app_l (s t : string) :
  Js.trimStart s = s → s ≠ "" → Js.trimStart (s +:+ t) = s +:+ t.
Proof.
  destruct s as [|c s]; [done|].
  change (String c s +:+ t) with (String c (s +:+ t)).
  cbn [Js.trimStart]. intros H _.
  destruct (Js.isWhiteSpace c) eqn:Hc; [|done].
  exfalso. pose proof (trimStart_head s) as Hh. rewrite H in Hh. congruence.
Qed.

Lemma trim_parts (s : string) :
  Js.trim s = s → Js.trimStart s = s ∧ Js.trimEnd s = s.
Proof.
  unfold Js.trim. intros H.
  assert (Js.trimStart s = s) as Hs.
  { apply trimStart_id. rewrite <- H. apply trimEnd_head, trimStart_head. }
  split; [done|]. by rewrite Hs in H.
Qed.

Lemma trim_of_parts (s : string) :
  Js.trimStart s = s → Js.trimEnd s = s → Js.trim s = s.
Proof. unfold Js.trim. by intros -> ->. Qed.

Lemma app_empty (s t : string) : s +:+ t = "" → s = "" ∧ t = "".
Proof. destruct s; [done|discriminate]. Qed.

Lemma trim_app (s t : string) :
  Js.trim s = s → s ≠ "" → Js.trim t = t → t ≠ "" → ∀ m, Js.trim (s +:+ m +:+ t) = s +:+ m +:+ t.
Proof.
  intros [Hs1 Hs2]%trim_parts Hs [Ht1 Ht2]%trim_parts Ht m.
  apply trim_of_parts.
  - by apply trimStart_app_l.
  - apply trimEnd_app_r; [by apply trimEnd_app_r|].
    by intros [_ ?]%app_empty.
Qed.

(** A join of trimmed, non-empty parts is trimmed. *)
Lemma trim_join (sep : string) (parts : list string) :
  Forall (λ p, Js.trim p = p ∧ p ≠ "") parts →
  Js.trim (Js.join sep parts) = Js.join sep parts
  ∧ (parts ≠ [] → Js.join sep parts ≠ "").
Proof.
  unfold Js.join. induction 1 as [|p ps [Hp Hne] Hps [IH1 IH2]]; [done|].
  destruct ps as [|q ps]; simpl; [done|].
  split.
  - apply (trim_app p (String.concat sep (q :: ps))); try done. by apply IH2.
  - intros _ [? _]%app_empty. done.
Qed.

Lemma trimmed_parts (parts : list string) :
  Forall (λ p, Js.trim p = p ∧ p ≠ "") (List.filter Js.truthy (map Js.trim parts)).
Proof.
  apply List.Forall_forall. intros p [Hin Ht]%filter_In.
  apply in_map_iff in Hin as (x & <- & _). split; [apply trim_idemp|by apply truthy_true].
Qed.

Lemma normalizeTranscript_trimmed (a : ChatAttachment) :
  Js.trim (normalizeTranscript a) = normalizeTranscript a.
Proof.
  unfold normalizeTranscript.
  destruct (a_transcript a); [apply trim_idemp|].
  destruct (a_transcriptParts a); [|done].
  apply trim_join, trimmed_parts.
Qed.

Lemma trimmedOrUndefined_idemp (x : option string) :
  trimmedOrUndefined (trimmedOrUndefined x) = trimmedOrUndefined x.
Proof.
  destruct x as [s|]; simpl; [|done].
  destruct (Js.truthy (Js.trim s)) eqn:E; simpl; [|done].
  by rewrite trim_idemp, E.
Qed.

(** ** Data URLs *)

Lemma stripPrefix_Some (p s r : string) :
  Js.stripPrefix p s = Some r ↔ s = p +:+ r.
Proof.
  revert s. induction p as [|a p IH]; intros s.
  - change ("" +:+ r) with r. simpl. split; congruence.
  - change (String a p +:+ r) with (String a (p +:+ r)). simpl.
    destruct s as [|b s]; [split; discriminate|].
    destruct (Ascii.eqb_spec a b) as [->|Hab].
    + rewrite IH. split; congruence.
    + split; [discriminate|]. intros [=]. done.
Qed.

Lemma span_spec (s a b : string) :
  Js.span ";" s = (a, b) →
  s = a +:+ b ∧ noSemicolon a = true ∧ (b = "" ∨ ∃ b', b = String ";" b').
Proof.
  revert a b. induction s as [|c s IH]; intros a b; simpl.
  - intros [= <- <-]. split_and!; [done|done|by left].
  - destruct (Ascii.eqb_spec c ";") as [->|Hc].
    + intros [= <- <-]. split_and!; [done|done|right; by eexists].
    + destruct (Js.span ";" s) as [a' b'] eqn:E. intros [= <- <-].
      destruct (IH _ _ eq_refl) as (-> & Ha & Hb). split_and!; [done| |done].
      unfold noSemicolon in *. simpl. rewrite Ha.
      by destruct (Ascii.eqb_spec c ";").
Qed.

Lemma span_app (m r : string) :
  noSemicolon m = true → Js.span ";" (m +:+ String ";" r) = (m, String ";" r).
Proof.
  unfold noSemicolon. induction m as [|c m IH]; intros H.
  - done.
  - change (String c m +:+ String ";" r) with (String c (m +:+ String ";" r)).
    simpl in H |- *. apply andb_true_iff in H as [Hc Hm].
    destruct (Ascii.eqb c ";"); [done|]. by rewrite IH.
Qed.

(** ** Attachments *)

(** X1 (data URL round trip). [dataUrlToBase64] returns a mime type and a
    content exactly for the strings [data:<mime>;base64,<content>] whose mime
    type is not empty and holds no [;] and whose content is not empty and
    holds no line terminator; the two parts are then the ones of the string. *)
Theorem dataUrl_round_trip (dataUrl mimeType content : string) :
  dataUrlToBase64 dataUrl = Some (mimeType, content)
  ↔ dataUrl = "data:" +:+ mimeType +:+ ";base64," +:+ content
    ∧ mimeType ≠ "" ∧ content ≠ ""
    ∧ noSemicolon mimeType = true ∧ oneLine content = true.
Proof.
  unfold dataUrlToBase64. split.
  - destruct (Js.stripPrefix "data:" dataUrl) as [rest|] eqn:E1; [|done].
    apply stripPrefix_Some in E1 as ->.
    destruct (Js.span ";" rest) as [m rest'] eqn:E2.
    apply span_spec in E2 as (-> & Hm & _).
    destruct (Js.stripPrefix ";base64," rest') as [c|] eqn:E3; [|done].
    apply stripPrefix_Some in E3 as ->.
    destruct (Js.truthy m) eqn:Htm; [|done].
    destruct (Js.truthy c) eqn:Htc; [|done]. simpl.
    destruct (Js.all _ c) eqn:Hc; [|done]. intros [= <- <-].
    split_and!; [done|by apply truthy_true|by apply truthy_true|done|done].
  - intros (-> & Hm & Hc & Hsm & Hl).
    assert (Js.stripPrefix "data:" ("data:" +:+ mimeType +:+ ";base64," +:+ content)
            = Some (mimeType +:+ ";base64," +:+ content)) as -> by by apply stripPrefix_Some.
    change (";base64," +:+ content) with (String ";" ("base64," +:+ content)).
    rewrite span_app by done.
    change (String ";" ("base64," +:+ content)) with (";base64," +:+ content).
    assert (Js.stripPrefix ";base64," (";base64," +:+ content) = Some content) as ->
      by by apply stripPrefix_Some.
    apply truthy_true in Hm as ->. apply truthy_true in Hc as ->.
    unfold oneLine in Hl. by rewrite Hl.
Qed.

Lemma toStored_fields (a : ChatAttachment) (s : StoredChatAttachment) :
  toStoredChatAttachment a = Some s →
  Js.truthy (Js.trim (a_id a)) = true
  ∧ Js.truthy (Js.trim (a_dataUrl a)) = true
  ∧ Js.truthy (Js.trim (a_mimeType a)) = true
  ∧ s = {| sa_id := Js.trim (a_id a);
           sa_kind := Some (if isVoiceNoteAttachment a then KindVoiceNote else KindImage);
           sa_dataUrl := Js.trim (a_dataUrl a);
           sa_mimeType := Js.trim (a_mimeType a);
           sa_fileName := trimmedOrUndefined (a_fileName a);
           sa_source := a_source a;
           sa_durationMs := option_map (Z.max 0) (a_durationMs a);
           sa_transcript :=
             if Js.truthy (normalizeTranscript a) then Some (normalizeTranscript a)
             else None;
           sa_transcriptParts :=
             if Js.truthy (normalizeTranscript a)
             then Some (splitTranscriptParts (normalizeTranscript a)) else None;
           sa_persistedNoteId := trimmedOrUndefined (a_persistedNoteId a) |}.
Proof.
  unfold toStoredChatAttachment.
  destruct (Js.truthy (Js.trim (a_id a))); [|done].
  destruct (Js.truthy (Js.trim (a_dataUrl a))); [|done].
  destruct (Js.truthy (Js.trim (a_mimeType a))); [|done].
  simpl. by intros [= <-].
Qed.

Lemma option_max_idemp (d : option Z) :
  option_map (Z.max 0) (option_map (Z.max 0) d) = option_map (Z.max 0) d.
Proof. destruct d; simpl; [f_equal; lia|done]. Qed.

Lemma fromStored_toStored (a : ChatAttachment) (s : StoredChatAttachment) :
  toStoredChatAttachment a = Some s → fromStoredChatAttachment s = Some (unstored s).
Proof.
  intros (Hid & Hurl & Hmime & ->)%toStored_fields.
  pose proof (normalizeTranscript_trimmed a) as Ht.
  unfold fromStoredChatAttachment, unstored. cbn [sa_id sa_kind sa_dataUrl sa_mimeType
    sa_fileName sa_source sa_durationMs sa_transcript sa_transcriptParts sa_persistedNoteId].
  rewrite !trim_idemp, Hid, Hurl, Hmime. cbn [negb orb].
  rewrite !trimmedOrUndefined_idemp, option_max_idemp.
  destruct (Js.truthy (normalizeTranscript a)) eqn:E; [|done].
  rewrite Ht, E. cbn [Js.truthy]. by rewrite E.
Qed.

Lemma toStored_unstored (a : ChatAttachment) (s : StoredChatAttachment) :
  toStoredChatAttachment a = Some s →
  Js.trim (a_mimeType a) = a_mimeType a →
  toStoredChatAttachment (unstored s) = Some s.
Proof.
  intros (Hid & Hurl & Hmime & ->)%toStored_fields Hm.
  pose proof (normalizeTranscript_trimmed a) as Ht.
  unfold toStoredChatAttachment, unstored. cbn [a_id a_kind a_dataUrl a_mimeType
      a_fileName a_source a_durationMs a_transcript a_transcriptParts a_persistedNoteId
      sa_id sa_kind sa_dataUrl sa_mimeType
      sa_fileName sa_source sa_durationMs sa_transcript sa_transcriptParts sa_persistedNoteId].
  rewrite !trim_idemp, Hid, Hurl, Hmime. cbn [negb orb].
  rewrite !trimmedOrUndefined_idemp, option_max_idemp.
  assert (isVoiceNoteAttachment
            {| a_id := Js.trim (a_id a);
               a_kind := Some (if isVoiceNoteAttachment a then KindVoiceNote else KindImage);
               a_dataUrl := Js.trim (a_dataUrl a); a_previewUrl := None;
               a_mimeType := Js.trim (a_mimeType a);
               a_fileName := trimmedOrUndefined (a_fileName a);
               a_source := a_source a;
               a_durationMs := option_map (Z.max 0) (a_durationMs a);
               a_transcript :=
                 if Js.truthy (normalizeTranscript a) then Some (normalizeTranscript a)
                 else None;
               a_transcriptParts :=
                 if Js.truthy (normalizeTranscript a)
                 then Some (splitTranscriptParts (normalizeTranscript a)) else None;
               a_persistedNoteId := trimmedOrUndefined (a_persistedNoteId a) |}
          = isVoiceNoteAttachment a) as ->.
  { unfold isVoiceNoteAttachment at 1. cbn [a_kind a_mimeType].
    destruct (isVoiceNoteAttachment a) eqn:E; [done|].
    rewrite Hm. unfold isVoiceNoteAttachment in E.
    destruct (a_kind a) as [[]|]; done. }
  assert (normalizeTranscript
            {| a_id := Js.trim (a_id a);
               a_kind := Some (if isVoiceNoteAttachment a then KindVoiceNote else KindImage);
               a_dataUrl := Js.trim (a_dataUrl a); a_previewUrl := None;
               a_mimeType := Js.trim (a_mimeType a);
               a_fileName := trimmedOrUndefined (a_fileName a);
               a_source := a_source a;
               a_durationMs := option_map (Z.max 0) (a_durationMs a);
               a_transcript :=
                 if Js.truthy (normalizeTranscript a) then Some (normalizeTranscript a)
                 else None;
               a_transcriptParts :=
                 if Js.truthy (normalizeTranscript a)
                 then Some (splitTranscriptParts (normalizeTranscript a)) else None;
               a_persistedNoteId := trimmedOrUndefined (a_persistedNoteId a) |}
          = normalizeTranscript a) as ->.
  { unfold normalizeTranscript at 1. cbn [a_transcript a_transcriptParts].
    destruct (Js.truthy (normalizeTranscript a)) eqn:E; [exact Ht|].
    by apply truthy_false in E. }
  done.
Qed.


(** X2 (a stored attachment is in normal form). What
    [toStoredChatAttachment] stores is read back by
    [fromStoredChatAttachment] field by field as it is, and, when the mime
    type of the attachment has no white space around it, storing the
    attachment read back gives the stored attachment again. *)
Theorem stored_attachment_round_trip (a : ChatAttachment) (s : StoredChatAttachment) :
  toStoredChatAttachment a = Some s →
  fromStoredChatAttachment s = Some (unstored s)
  ∧ (Js.trim (a_mimeType a) = a_mimeType a →
     toStoredChatAttachment (unstored s) = Some s).
Proof.
  intros Hs. split; [by eapply fromStored_toStored|by apply toStored_unstored].
Qed.

(** ** The cache store *)

Lemma readLocalChatStateStore_version (w : World) (store : StoredChatStateStore) :
  readLocalChatStateStore w = Some store → version store = LOCAL_CHAT_STATE_VERSION.
Proof.
  unfold readLocalChatStateStore.
  destruct (localStorage w) as [storage|]; [|done].
  destruct (ls_item storage) as [parsed|]; [|done].
  destruct (version parsed =? _)%Z; [|done]. by intros [= <-].
Qed.

Lemma persistedSessions_write (store : StoredChatStateStore) (w : World)
    (storage : LocalStorage) :
  localStorage w = Some storage → ls_writable storage = true →
  version store = LOCAL_CHAT_STATE_VERSION →
  persistedSessions (writeLocalChatStateStore store w) = sessions store.
Proof.
  intros Hls Hw Hv. unfold persistedSessions, writeLocalChatStateStore.
  rewrite Hls, Hw. unfold readLocalChatStateStore. cbn. by rewrite Hv.
Qed.

(** The store after [updateLocalSessionState], as a map. *)
Lemma updateLocalSessionState_sessions (key : string)
    (updater : StoredSessionChatState → option StoredSessionChatState)
    (w : World) (storage : LocalStorage) :
  localStorage w = Some storage → ls_writable storage = true → Js.trim key ≠ "" →
  persistedSessions (updateLocalSessionState key updater w)
  = match updater (default emptySession (persistedSessions w !! key)) with
    | Some next => <[key := next]> (persistedSessions w)
    | None => delete key (persistedSessions w)
    end.
Proof.
  intros Hls Hw Hkey. unfold updateLocalSessionState.
  apply truthy_true in Hkey. rewrite Hkey. cbn [negb]. cbv zeta.
  unfold persistedSessions at 2 3 4.
  destruct (readLocalChatStateStore w) as [store|] eqn:Hstore; cbn [default].
  - apply readLocalChatStateStore_version in Hstore.
    destruct (updater _); by erewrite persistedSessions_write.
  - cbn [sessions version].
    destruct (updater _); by erewrite persistedSessions_write.
Qed.

Lemma updateLocalSessionState_unavailable (key : string)
    (updater : StoredSessionChatState → option StoredSessionChatState) (w : World) :
  (localStorage w = None
   ∨ ∃ storage, localStorage w = Some storage ∧ ls_writable storage = false) →
  updateLocalSessionState key updater w = w.
Proof.
  intros H. unfold updateLocalSessionState.
  destruct (negb _); [done|]. cbv zeta.
  destruct (updater _); unfold writeLocalChatStateStore;
    destruct H as [->|(storage & -> & ->)]; done.
Qed.

Lemma updateLocalSessionState_lookup (key : string)
    (updater : StoredSessionChatState → option StoredSessionChatState) (w : World) :
  writableStorage w → Js.trim key ≠ "" →
  persistedSessions (updateLocalSessionState key updater w) !! key
  = updater (persistedEntry key w).
Proof.
  intros (storage & Hls & Hw) Hkey.
  rewrite (updateLocalSessionState_sessions key updater w storage Hls Hw Hkey).
  unfold persistedEntry.
  destruct (updater _); [by rewrite lookup_insert_eq|by rewrite lookup_delete_eq].
Qed.

Lemma lastN_length {A : Type} (n : nat) (l : list A) : length (lastN n l) ≤ n.
Proof. unfold lastN. rewrite length_drop. lia. Qed.

(** The entry that [syncChatComposerLocalState] leaves under the session
    key. *)
Lemma syncChatComposerLocalState_entry (state : ChatState) (w : World) :
  writableStorage w → Js.trim (sessionKey state) ≠ "" →
  let stored := lastN LOCAL_CHAT_ATTACHMENTS_LIMIT
                  (omap toStoredChatAttachment (derefs w (chatAttachments state))) in
  let notes := voiceNotes (persistedEntry (sessionKey state) w) in
  match persistedSessions (syncChatComposerLocalState state w) !! sessionKey state with
  | Some entry =>
      ¬ isEmptyEntry entry
      ∧ draft entry = (if Js.truthy (chatMessage state) then Some (chatMessage state) else None)
      ∧ attachments entry = (if decide (stored = []) then None else Some stored)
      ∧ length stored ≤ LOCAL_CHAT_ATTACHMENTS_LIMIT
      ∧ voiceNotes entry = notes
  | None =>
      chatMessage state = "" ∧ stored = [] ∧ (notes = None ∨ notes = Some [])
  end.
Proof.
  intros Hst Hkey stored notes.
  unfold syncChatComposerLocalState. cbv zeta.
  rewrite updateLocalSessionState_lookup by done.
  fold stored. cbn [draft attachments voiceNotes].
  fold notes.
  pose proof (lastN_length LOCAL_CHAT_ATTACHMENTS_LIMIT
                (omap toStoredChatAttachment (derefs w (chatAttachments state)))) as Hlen.
  fold stored in Hlen. clearbody stored notes.
  unfold isEmptyEntry.
  destruct notes as [[|n ns]|], (chatMessage state) as [|c m], stored as [|s ss];
    cbn; split_and!; try done; try (by left); try (by right);
    intros (Hd & Ha & Hv); cbn in Hd, Ha, Hv;
    destruct Hd, Ha, Hv; congruence.
Qed.

Section Store2.
Variable dateNow : nat → Z.
Variable generateUUID : nat → string.
Variable extractText : JsValue → option string.


(** X4 (the cache fails soft). Without a storage, or with one that refuses
    the write, the functions that persist the composer and the voice notes
    leave the world as it is and still update the controller in memory. *)
Theorem cache_fails_soft (state : ChatState) (a : ChatAttachment) (timestamp : Z)
    (host : ChatHost) (text : string) (w : World) :
  unavailableStorage w →
  syncChatComposerLocalState state w = w
  ∧ appendLocalVoiceNoteMessage dateNow state a (Some timestamp) w
    = (w, set_chatMessages
            (updateLocalVoiceMessageInMemory (chatMessages state) a timestamp) state)
  ∧ setChatDraft host text w = (w, set_host_state (set_chatMessage text (host_state host)) host).
Proof.
  intros H. split_and!.
  - by apply updateLocalSessionState_unavailable.
  - unfold appendLocalVoiceNoteMessage.
    destruct (toStoredChatAttachment a); [|done].
    by rewrite updateLocalSessionState_unavailable.
  - unfold setChatDraft, syncChatComposerLocalState.
    by rewrite updateLocalSessionState_unavailable.
Qed.


End Store2.

(** ** The ring of stored voice notes *)














Section Ring.
Variable dateNow : nat → Z.
Variable generateUUID : nat → string.
Variable extractText : JsValue → option string.


End Ring.

(** ** Reading the cache back *)

Lemma built_marker (a : ChatAttachment) (timestamp : Z) :
  getLocalVoiceNoteMarkerId (buildLocalVoiceNoteMessage a timestamp)
  = if Js.truthy (Js.trim (a_id a)) then Some (Js.trim (a_id a)) else None.
Proof. reflexivity. Qed.

Lemma insertMessage_perm (x : JsValue) (l : list JsValue) : insertMessage x l ≡ₚ x :: l.
Proof.
  induction l as [|z l IH]; simpl; [done|].
  destruct (messageTimestamp x <=? messageTimestamp z)%Z; [done|].
  rewrite IH. apply Permutation_swap.
Qed.

Lemma sortMessages_perm (l : list JsValue) : sortMessages l ≡ₚ l.
Proof.
  unfold sortMessages. induction l as [|x l IH]; simpl; [done|].
  by rewrite insertMessage_perm, IH.
Qed.





Section Restore.
Variable dateNow : nat → Z.
Variable generateUUID : nat → string.
Variable extractText : JsValue → option string.




End Restore.


Lemma length_omap_le {A B : Type} (f : A → option B) (l : list A) :
  length (omap f l) ≤ length l.
Proof.
  induction l as [|x l IH]; [done|]. cbn [omap list_omap]. fold (omap f l).
  destruct (f x); simpl; lia.
Qed.

Section Loading.
Variable dateNow : nat → Z.
Variable generateUUID : nat → string.
Variable extractText : JsValue → option string.


(** X11 (what is loaded are marked bubbles). Every message that
    [loadLocalVoiceNoteMessages] returns is a user message that carries a
    marker id, which is not empty, and there are no more of them than voice
    notes stored for the session. *)
Theorem loaded_voice_notes_are_marked (key : string) (w : World) :
  Forall (λ message, field "role" message = JStr "user"
                     ∧ ∃ id, carries id message ∧ id ≠ "")
         (loadLocalVoiceNoteMessages key w)
  ∧ length (loadLocalVoiceNoteMessages key w)
    ≤ length (default [] (readLocalSessionState key w ≫= voiceNotes)).
Proof.
  unfold loadLocalVoiceNoteMessages.
  destruct (readLocalSessionState key w) as [session|]; [|by split].
  cbn [mbind option_bind]. destruct (voiceNotes session) as [notes|]; [|by split].
  cbn [default]. split.
  - apply Forall_forall. intros message Hm. rewrite sortMessages_perm in Hm.
    apply list_elem_of_omap in Hm as (entry & _ & Hm).
    destruct (Js.truthy (Js.trim (vn_id entry))) eqn:Hid; [|done]. cbn [negb] in Hm.
    destruct (fromStoredChatAttachment (vn_attachment entry)) as [attachment|]; [|done].
    injection Hm as <-. split; [done|].
    exists (Js.trim (Js.trim (vn_id entry))). unfold carries. rewrite built_marker.
    cbn [setId a_id]. rewrite trim_idemp, Hid. split; [done|].
    by apply truthy_true.
  - rewrite (Permutation_length (sortMessages_perm _)). apply length_omap_le.
Qed.

End Loading.

(** ** More on the history merge *)

Lemma pushUnseen_added (localVoiceNotes : list JsValue) (seen : gset string) :
  let added := pushUnseen seen [] localVoiceNotes in
  added `sublist_of` localVoiceNotes
  ∧ (∀ x, x ∈ markerIds added → x ∉ seen)
  ∧ NoDup (markerIds added)
  ∧ Forall (λ m, ∃ x, carries x m) added.
Proof.
  cbv zeta. revert seen.
  induction localVoiceNotes as [|m l IH]; intros seen; cbn [pushUnseen].
  - split_and!; [done|by intros x Hx%elem_of_nil|apply NoDup_nil_2|done].
  - destruct (getLocalVoiceNoteMarkerId m) as [y|] eqn:Hm.
    + destruct (decide (y ∈ seen)) as [Hy|Hy].
      * destruct (IH seen) as (Hsub & Hnew & Hnd & Hall).
        split_and!; [by apply sublist_cons|done..].
      * rewrite pushUnseen_app.
        destruct (IH ({[y]} ∪ seen)) as (Hsub & Hnew & Hnd & Hall).
        change (([] ++ [m]) ++ pushUnseen ({[y]} ∪ seen) [] l)
          with (m :: pushUnseen ({[y]} ∪ seen) [] l).
        unfold markerIds in *. cbn [omap list_omap]. rewrite Hm. cbn.
        fold (omap getLocalVoiceNoteMarkerId (pushUnseen ({[y]} ∪ seen) [] l)).
        split_and!.
        -- by apply sublist_skip.
        -- intros x [->|Hx]%elem_of_cons; [done|].
           intros Hs. apply (Hnew x Hx), elem_of_union. by right.
        -- apply NoDup_cons. split; [|done]. intros Hin.
           apply (Hnew y Hin), elem_of_union. left. by apply elem_of_singleton.
        -- apply Forall_cons. split; [by exists y|done].
    + destruct (IH seen) as (Hsub & Hnew & Hnd & Hall).
      split_and!; [by apply sublist_cons|done..].
Qed.

(** X12 (the merge only appends). [mergeLocalVoiceNoteMessages] returns the
    remote history followed by local voice-note messages in their order,
    each of which carries a marker id that no message of the history
    carries, no two of them the same id; and every marker id of a local
    message is carried by a message of the result. *)
Theorem merge_extends_history (history localVoiceNotes : list JsValue) :
  ∃ added,
    mergeLocalVoiceNoteMessages history localVoiceNotes = history ++ added
    ∧ added `sublist_of` localVoiceNotes
    ∧ Forall (λ m, ∃ x, carries x m ∧ ¬ Exists (carries x) history) added
    ∧ NoDup (markerIds added)
    ∧ (∀ x, Exists (carries x) localVoiceNotes →
            Exists (carries x) (history ++ added)).
Proof.
  unfold mergeLocalVoiceNoteMessages. destruct localVoiceNotes as [|m l].
  { exists []. rewrite app_nil_r. split_and!; try done.
    - apply NoDup_nil_2.
    - by intros x Hx%Exists_nil. }
  set (L := m :: l). set (seen := collectMarkerIds ∅ history).
  exists (pushUnseen seen [] L).
  destruct (pushUnseen_added L seen) as (Hsub & Hnew & Hnd & Hall).
  split_and!; [apply pushUnseen_app|done| |done|].
  - apply Forall_forall. intros msg Hin.
    rewrite Forall_forall in Hall. destruct (Hall msg Hin) as [x Hx].
    exists x. split; [done|]. intros Hex. apply (Hnew x).
    + unfold markerIds. apply list_elem_of_omap. by exists msg.
    + apply elem_of_collectMarkerIds. by right.
  - intros x Hx. apply Exists_app.
    destruct (pushUnseen_covers L seen x Hx) as [Hin|Hex]; [|by right].
    apply elem_of_collectMarkerIds in Hin as [Hin|Hin]; [|by left].
    by apply elem_of_empty in Hin.
Qed.

(** ** More on the run state machine *)

Section Events2.
Variable dateNow : nat → Z.
Variable generateUUID : nat → string.
Variable extractText : JsValue → option string.

Lemma foreignRun_guard (state : ChatState) (payload : ChatEventPayload) :
  Js.truthy (ev_runId payload)
  && match chatRunId state with
     | Some runId => Js.truthy runId && negb (String.eqb (ev_runId payload) runId)
     | None => false
     end = true
  ↔ foreignRun state payload.
Proof.
  unfold foreignRun. split.
  - intros [H1 H2]%andb_true_iff. split; [by apply truthy_true|].
    destruct (chatRunId state) as [runId|]; [|done].
    apply andb_true_iff in H2 as [H2 H3]. exists runId.
    split_and!; [done|by apply truthy_true|].
    apply negb_true_iff, String.eqb_neq in H3. congruence.
  - intros (H1 & runId & -> & H2 & H3).
    apply truthy_true in H1, H2. rewrite H1, H2. cbn.
    apply negb_true_iff, String.eqb_neq. congruence.
Qed.

(** X13 (events that are not for the controller). An event of another
    session, and a delta, aborted or error event of a run other than the
    active one, is ignored: [handleChatEvent] returns null and leaves the
    controller and the world as they are. *)
Theorem unrelated_events_ignored (state : ChatState) (payload : ChatEventPayload)
    (w : World) :
  ev_sessionKey payload ≠ sessionKey state
  ∨ (foreignRun state payload ∧ ev_state payload ≠ StFinal) →
  handleChatEvent dateNow extractText state (Some payload) w = (w, state, None).
Proof.
  intros H. unfold handleChatEvent.
  destruct (String.eqb_spec (ev_sessionKey payload) (sessionKey state)) as [Hk|Hk];
    cbn [negb]; [|done].
  destruct H as [H|[Hf Hs]]; [done|].
  apply foreignRun_guard in Hf. rewrite Hf.
  by destruct (ev_state payload).
Qed.

(** X14 (the error event). An error event of the session that is not of
    another run ends the run: it is reported as an error, [chatRunId],
    [chatStream] and [chatStreamStartedAt] become null, [lastError] becomes
    the event's error message, or [chat error] when it has none, and the
    history and the world stay as they are. *)
Theorem error_event (state : ChatState) (payload : ChatEventPayload) (w : World) :
  ev_sessionKey payload = sessionKey state →
  ¬ foreignRun state payload →
  ev_state payload = StError →
  ∃ state',
    handleChatEvent dateNow extractText state (Some payload) w = (w, state', Some StError)
    ∧ chatRunId state' = None ∧ chatStream state' = None
    ∧ chatStreamStartedAt state' = None
    ∧ lastError state' = Some (default "chat error" (ev_errorMessage payload))
    ∧ chatMessages state' = chatMessages state
    ∧ chatMessage state' = chatMessage state
    ∧ chatAttachments state' = chatAttachments state
    ∧ chatSending state' = chatSending state.
Proof.
  intros Hk Hf Hs. unfold handleChatEvent.
  rewrite Hk, String.eqb_refl. cbn [negb].
  destruct (Js.truthy (ev_runId payload) && _) eqn:Hg.
  { by apply foreignRun_guard in Hg. }
  rewrite Hs. eexists. split; [reflexivity|]. by split_and!.
Qed.

(** X15 (what push events cannot do). Whatever the events, handling them
    leaves the client, the connection, the session key, the draft, the
    attachments and [chatSending] as they are and only appends assistant
    messages to the history; in the world nothing but the clock moves: no
    request is issued and the storage is not written. *)
Theorem push_events_frame (events : list ChatEventPayload) (state : ChatState)
    (w : World) :
  let r := handlePushed dateNow extractText events state w in
  eventsOnly state r.2
  ∧ requests r.1 = requests w
  ∧ localStorage r.1 = localStorage w
  ∧ heap r.1 = heap w.
Proof.
  cbv zeta.
  destruct (handlePushed_frame dateNow extractText events state w)
    as [He [Hls Hheap Hreq _ _]].
  by split_and!.
Qed.

End Events2.

(** ** The bubble of a local voice note *)

Lemma built_markerIs (a : ChatAttachment) (timestamp : Z) :
  Js.trim (a_id a) = a_id a → a_id a ≠ "" →
  markerIs (buildLocalVoiceNoteMessage a timestamp) (a_id a) = true.
Proof.
  intros Ht Hne. unfold markerIs. rewrite built_marker, Ht.
  apply truthy_true in Hne. rewrite Hne. apply String.eqb_refl.
Qed.

Lemma map_replace_fixed (id : string) (new : JsValue) (l : list JsValue) :
  (∀ m, m ∈ l → markerIs m id = true → m = new) →
  map (λ message, if markerIs message id then new else message) l = l.
Proof.
  induction l as [|x l IH]; intros H; [done|]. cbn [map].
  rewrite IH by (intros m Hm; apply H; by right).
  destruct (markerIs x id) eqn:E; [|done].
  rewrite (H x) at 1; [done|by left|done].
Qed.

Lemma existsb_map_replace (id : string) (new : JsValue) (l : list JsValue) :
  markerIs new id = true →
  existsb (λ message, markerIs message id)
    (map (λ message, if markerIs message id then new else message) l)
  = existsb (λ message, markerIs message id) l.
Proof.
  intros Hnew. induction l as [|x l IH]; [done|]. cbn [map existsb]. rewrite IH.
  destruct (markerIs x id) eqn:E; [by rewrite Hnew|by rewrite E].
Qed.

Lemma existsb_app_true {A : Type} (p : A → bool) (l : list A) (x : A) :
  p x = true → existsb p (l ++ [x]) = true.
Proof. intros H. rewrite existsb_app. cbn. rewrite H. by rewrite orb_true_r. Qed.

(** X16 (one bubble per voice note). For an attachment whose id is not
    empty and has no white space around it,
    [updateLocalVoiceMessageInMemory] leaves exactly the new bubble under
    the id: the history then has a message of the id, every message of the
    id is the new bubble, the messages of other ids are kept, the history
    grows by one message only when it had none of the id, and doing it
    again changes nothing. *)
Theorem local_bubble_once (messages : list JsValue) (a : ChatAttachment)
    (timestamp : Z) :
  Js.trim (a_id a) = a_id a → a_id a ≠ "" →
  let bubble := buildLocalVoiceNoteMessage a timestamp in
  let next := updateLocalVoiceMessageInMemory messages a timestamp in
  hasLocalVoiceNoteMessage next (a_id a) = true
  ∧ (∀ m, m ∈ next → markerIs m (a_id a) = true → m = bubble)
  ∧ (∀ m, m ∈ messages → markerIs m (a_id a) = false → m ∈ next)
  ∧ length next
    = (if hasLocalVoiceNoteMessage messages (a_id a) then length messages
       else S (length messages))
  ∧ updateLocalVoiceMessageInMemory next a timestamp = next.
Proof.
  intros Ht Hne bubble next.
  pose proof (built_markerIs a timestamp Ht Hne) as Hb. fold bubble in Hb.
  set (f := λ message : JsValue, if markerIs message (a_id a) then bubble else message).
  assert (∀ m, m ∈ map f messages → markerIs m (a_id a) = true → m = bubble) as Hmap.
  { intros m (m0 & -> & _)%list_elem_of_fmap. unfold f.
    destruct (markerIs m0 (a_id a)) eqn:E; [done|congruence]. }
  assert (∀ m, m ∈ messages → markerIs m (a_id a) = false → m ∈ map f messages) as Hkeep.
  { intros m Hm E. apply list_elem_of_fmap. exists m. split; [|done].
    unfold f. by rewrite E. }
  assert (∀ m, m ∈ next → markerIs m (a_id a) = true → m = bubble) as Hall.
  { subst next. unfold updateLocalVoiceMessageInMemory. cbv zeta. fold bubble. fold f.
    destruct (existsb _ messages); [done|].
    intros m [Hm|Hm%list_elem_of_singleton]%elem_of_app; [by apply Hmap|by intros _]. }
  assert (hasLocalVoiceNoteMessage next (a_id a) = true) as Hhas.
  { subst next. unfold hasLocalVoiceNoteMessage, updateLocalVoiceMessageInMemory.
    cbv zeta. fold bubble. fold f.
    destruct (existsb _ messages) eqn:E.
    - unfold f. by rewrite existsb_map_replace.
    - by apply existsb_app_true. }
  split_and!; [done|done| | |].
  - subst next. unfold updateLocalVoiceMessageInMemory. cbv zeta. fold bubble. fold f.
    intros m Hm E. destruct (existsb _ messages); [by apply Hkeep|].
    apply elem_of_app. left. by apply Hkeep.
  - subst next. unfold hasLocalVoiceNoteMessage, updateLocalVoiceMessageInMemory.
    cbv zeta. destruct (existsb _ messages).
    + by rewrite length_map.
    + rewrite length_app, length_map. simpl. lia.
  - unfold updateLocalVoiceMessageInMemory at 1. cbv zeta. fold bubble.
    unfold hasLocalVoiceNoteMessage in Hhas. rewrite Hhas.
    by apply map_replace_fixed.
Qed.

(** X17 (the bubble after the note was persisted). For an attachment with
    no persisted note id yet, whose id is not empty and has no white space
    around it, patching its bubble with a persisted id (not empty, no white
    space around it) gives the bubble of the attachment that carries the
    persisted id. *)
Theorem persisted_bubble (a : ChatAttachment) (timestamp : Z)
    (persistedNoteId : string) :
  Js.trim (a_id a) = a_id a → a_id a ≠ "" → unsaved a →
  Js.trim persistedNoteId = persistedNoteId → persistedNoteId ≠ "" →
  patchLocalVoiceMessagePersistedId (buildLocalVoiceNoteMessage a timestamp)
    (a_id a) persistedNoteId
  = buildLocalVoiceNoteMessage (setPersistedNoteId persistedNoteId a) timestamp.
Proof.
  intros Ht Hne Hun Hp Hpne.
  unfold patchLocalVoiceMessagePersistedId.
  rewrite built_markerIs by done. cbn [negb].
  unfold buildLocalVoiceNoteMessage, buildVoiceNoteContentBlock.
  cbn [getProp String.eqb Ascii.eqb Bool.eqb setProp map a_id setPersistedNoteId
       a_mimeType a_dataUrl a_fileName a_previewUrl].
  unfold unsaved in Hun.
  assert (normalizeTranscript (setPersistedNoteId persistedNoteId a)
          = normalizeTranscript a) as -> by done.
  assert (trimmedPersistedNoteId (setPersistedNoteId persistedNoteId a)
          = persistedNoteId) as -> by exact Hp.
  rewrite Hun. apply truthy_true in Hpne. rewrite Hpne. cbn [Js.truthy].
  do 4 f_equal.
  destruct (a_previewUrl a) as [url|]; [destruct (Js.truthy url)|];
    destruct (Js.truthy (normalizeTranscript a)); reflexivity.
Qed.

(** ** Commands *)

Lemma lowerChar_isWhiteSpace (c : ascii) :
  Js.isWhiteSpace (Js.lowerChar c) = Js.isWhiteSpace c.
Proof. destruct c as [[] [] [] [] [] [] [] []]; reflexivity. Qed.

Lemma lowerChar_idemp (c : ascii) : Js.lowerChar (Js.lowerChar c) = Js.lowerChar c.
Proof. destruct c as [[] [] [] [] [] [] [] []]; reflexivity. Qed.

Lemma toLowerCase_idemp (s : string) :
  Js.toLowerCase (Js.toLowerCase s) = Js.toLowerCase s.
Proof. induction s as [|c s IH]; simpl; [done|]. by rewrite lowerChar_idemp, IH. Qed.

Lemma toLowerCase_trimStart (s : string) :
  Js.toLowerCase (Js.trimStart s) = Js.trimStart (Js.toLowerCase s).
Proof.
  induction s as [|c s IH]; simpl; [done|]. rewrite lowerChar_isWhiteSpace.
  by destruct (Js.isWhiteSpace c).
Qed.

Lemma toLowerCase_trimEnd (s : string) :
  Js.toLowerCase (Js.trimEnd s) = Js.trimEnd (Js.toLowerCase s).
Proof.
  induction s as [|c s IH]; simpl; [done|]. rewrite <- IH, lowerChar_isWhiteSpace.
  destruct (Js.trimEnd s); simpl; [|done]. by destruct (Js.isWhiteSpace c).
Qed.

Lemma toLowerCase_trim (s : string) :
  Js.toLowerCase (Js.trim s) = Js.trim (Js.toLowerCase s).
Proof. unfold Js.trim. by rewrite toLowerCase_trimEnd, toLowerCase_trimStart. Qed.

Lemma toLowerCase_truthy (s : string) : Js.truthy (Js.toLowerCase s) = Js.truthy s.
Proof. by destruct s. Qed.

(** X18 (stop commands). Whether a text is a stop command does not depend
    on the case of its letters nor on the white space around it, and a stop
    command is never a reset command. *)
Theorem stop_command_normalised (text : string) :
  isChatStopCommand (Js.toLowerCase text) = isChatStopCommand text
  ∧ isChatStopCommand (Js.trim text) = isChatStopCommand text
  ∧ (isChatStopCommand text = true → isChatResetCommand text = false).
Proof.
  unfold isChatStopCommand, isChatResetCommand. cbv zeta. split_and!.
  - rewrite <- !toLowerCase_trim, toLowerCase_idemp. by rewrite toLowerCase_truthy.
  - by rewrite trim_idemp.
  - destruct (Js.truthy (Js.trim text)); cbn [negb]; [|done].
    generalize (Js.toLowerCase (Js.trim text)). intros n.
    destruct (String.eqb_spec n "/stop") as [->|_]; [done|].
    destruct (String.eqb_spec n "stop") as [->|_]; [done|].
    destruct (String.eqb_spec n "esc") as [->|_]; [done|].
    destruct (String.eqb_spec n "abort") as [->|_]; [done|].
    destruct (String.eqb_spec n "wait") as [->|_]; [done|].
    destruct (String.eqb_spec n "exit") as [->|_]; [done|].
    done.
Qed.

(** ** Aborting and queueing *)

Lemma copyAttachments_spec (refs : list loc) (w : World) :
  validRefs w refs →
  heap (copyAttachments refs w).2 = heap w ++ derefs w refs
  ∧ (copyAttachments refs w).1 = seq (length (heap w)) (length refs)
  ∧ localStorage (copyAttachments refs w).2 = localStorage w
  ∧ clock (copyAttachments refs w).2 = clock w
  ∧ uuids (copyAttachments refs w).2 = uuids w.
Proof.
  revert w. induction refs as [|l refs IH]; intros w Hv; cbn [copyAttachments].
  - cbn. rewrite app_nil_r. by split_and!.
  - apply Forall_cons in Hv as [[a Ha] Hv]. rewrite Ha. unfold alloc.
    assert (validRefs (set_heap (heap w ++ [a]) w) refs) as Hv'.
    { unfold validRefs in *. eapply Forall_impl; [exact Hv|].
      intros r [b Hb]. exists b. cbn. by apply lookup_app_l_Some. }
    specialize (IH _ Hv').
    destruct (copyAttachments refs (set_heap (heap w ++ [a]) w)) as [copies w2].
    cbn [fst snd heap set_heap localStorage clock uuids length] in *.
    destruct IH as (Hheap & Hcopies & Hls & Hclock & Huuids).
    split_and!; [| |done..].
    + rewrite Hheap. unfold derefs. cbn [omap list_omap]. rewrite Ha. cbn.
      rewrite <- app_assoc. cbn. do 2 f_equal.
      clear -Hv. induction Hv as [|r refs [b Hb] _ IH]; [done|].
      cbn [omap list_omap]. rewrite Hb, (lookup_app_l_Some _ _ _ _ Hb). cbn.
      f_equal. exact IH.
    + rewrite Hcopies, length_app. cbn [seq length]. f_equal. f_equal. lia.
Qed.

Lemma derefs_seq (w : World) (objects older : list ChatAttachment) :
  heap w = older ++ objects →
  derefs w (seq (length older) (length objects)) = objects.
Proof.
  intros Hheap. unfold derefs. revert older Hheap.
  induction objects as [|a rest IH]; intros older Hheap; [done|].
  cbn [length seq omap list_omap]. rewrite Hheap.
  rewrite lookup_app_r by lia. rewrite Nat.sub_diag. cbn. f_equal.
  specialize (IH (older ++ [a])). rewrite length_app in IH. cbn in IH.
  rewrite Nat.add_1_r in IH. rewrite <- Hheap. apply IH.
  by rewrite Hheap, <- app_assoc.
Qed.

Lemma length_derefs_valid (w : World) (refs : list loc) :
  validRefs w refs → length (derefs w refs) = length refs.
Proof.
  unfold derefs. induction 1 as [|l refs [a Ha] _ IH]; [done|].
  cbn [omap list_omap]. rewrite Ha. cbn. by f_equal.
Qed.

Lemma stop_command_truthy (text : string) :
  isChatStopCommand text = true → Js.truthy (Js.trim text) = true.
Proof. unfold isChatStopCommand. by destruct (Js.truthy (Js.trim text)). Qed.

Section Abort.
Variable dateNow : nat → Z.
Variable generateUUID : nat → string.
Variable extractText : JsValue → option string.

(** X19 (aborting is not optimistic). With a client and a connection,
    [abortChatRun] issues one [chat.abort] request for the session, with the
    run id when there is an active run, and returns whether it resolved;
    when no event arrives while the request is pending, the controller is
    as before (the run stays active until its event comes), except for
    [lastError] when the request is rejected. *)
Theorem abort_is_not_optimistic (state : ChatState) (c : GatewayBrowserClient)
    (w : World) :
  client state = Some c → connected state = true →
  let request :=
    ChatAbort (sessionKey state)
      (if isRunId (chatRunId state) then chatRunId state else None) in
  let reply := respond c (requests w) request in
  let r := abortChatRun dateNow extractText state w in
  requests r.1.1 = requests w ++ [request]
  ∧ localStorage r.1.1 = localStorage w
  ∧ r.2 = (match outcome reply with Resolved _ => true | Rejected _ => false end)
  ∧ (pushed reply = [] →
     r.1.2 = match outcome reply with
             | Resolved _ => state
             | Rejected err => set_lastError (Some err) state
             end).
Proof.
  intros Hc Hconn request reply r. subst r. unfold abortChatRun.
  rewrite Hc, Hconn. cbn [negb]. unfold issue.
  assert (match chatRunId state with
          | Some id => if Js.truthy id then Some id else None
          | None => None
          end = (if isRunId (chatRunId state) then chatRunId state else None)) as ->.
  { unfold isRunId. by destruct (chatRunId state). }
  fold request. fold reply.
  pose proof (await_frame dateNow extractText reply state
                (set_requests (requests w ++ [request]) w)) as Hf.
  cbv zeta in Hf. unfold await in *.
  destruct (handlePushed dateNow extractText (pushed reply) state _) as [w1 state1] eqn:E.
  cbn [fst snd] in Hf. destruct Hf as (_ & [Hls _ Hreq _ _] & _).
  assert (pushed reply = [] → state1 = state) as Hquiet.
  { intros Hq. rewrite Hq in E. cbn in E. congruence. }
  destruct (outcome reply); cbn [fst snd]; split_and!; try done.
  intros Hq. by rewrite Hquiet.
Qed.

(** X20 (a stop command). While connected, a stop command that is
    submitted is not sent and not queued: [handleSendChat] does what
    [handleAbortChat] does, which empties the draft, keeps the attachments
    and the queue, and (with a storage that takes writes and a session key
    that is not blank) leaves no draft in the cache. *)
Theorem stop_command_aborts (host : ChatHost) (messageOverride : option string)
    (restore : bool) (w : World) :
  connected (host_state host) = true →
  isChatStopCommand (submitted host messageOverride).1 = true →
  let r := handleSendChat dateNow generateUUID extractText host messageOverride restore w in
  r = handleAbortChat dateNow extractText host w
  ∧ chatMessage (host_state r.2) = ""
  ∧ chatAttachments (host_state r.2) = chatAttachments (host_state host)
  ∧ chatQueue r.2 = chatQueue host
  ∧ (∀ request, request ∈ requests r.1 → request ∈ requests w ∨
                ∃ runId, request = ChatAbort (sessionKey (host_state host)) runId)
  ∧ (writableStorage w → Js.trim (sessionKey (host_state host)) ≠ "" →
     draft (persistedEntry (sessionKey (host_state host)) r.1) = None).
Proof.
  intros Hconn Hstop r.
  assert (r = handleAbortChat dateNow extractText host w) as Hr.
  { subst r. unfold handleSendChat. cbv zeta. rewrite Hconn. cbn [negb].
    unfold submitted in Hstop. cbn [fst] in Hstop.
    pose proof (stop_command_truthy _ Hstop) as Ht. rewrite trim_idemp in Ht.
    rewrite Ht. cbn [negb andb]. by rewrite Hstop. }
  split; [exact Hr|]. rewrite Hr. clear r Hr.
  unfold handleAbortChat. rewrite Hconn. cbn [negb].
  set (state1 := set_chatMessage "" (host_state host)).
  set (w1 := syncChatComposerLocalState state1 w).
  assert (requests w1 = requests w) as Hreq1
    by apply (syncChatComposerLocalState_frame state1 w).
  assert (writableStorage w → Js.trim (sessionKey (host_state host)) ≠ "" →
          draft (persistedEntry (sessionKey (host_state host)) w1) = None) as Hdraft.
  { intros Hst Hkey.
    pose proof (syncChatComposerLocalState_entry state1 w Hst Hkey) as H.
    cbv zeta in H. fold w1 in H. unfold persistedEntry.
    change (sessionKey state1) with (sessionKey (host_state host)) in H.
    destruct (persistedSessions w1 !! _) as [entry|]; cbn [default]; [|done].
    destruct H as (_ & Hd & _). exact Hd. }
  unfold abortChatRun. cbn [client connected set_chatMessage state1].
  destruct (client (host_state host)) as [c|].
  2: { cbn. split_and!; try done. intros request Hin. left. by rewrite <- Hreq1. }
  rewrite Hconn. cbn [negb]. unfold issue.
  match goal with
  | |- context [await _ _ ?reply ?st ?wr] =>
      pose proof (await_frame dateNow extractText reply st wr) as Hf;
      cbv zeta in Hf;
      destruct (await dateNow extractText reply st wr) as [[w2 state2] out]
  end.
  cbn [fst snd] in Hf.
  destruct Hf as ([_ _ _ _ _ _ Hmsg Hatt _] & [Hls2 _ Hreq2 _ _] & _).
  cbn [requests set_requests localStorage chatMessage chatAttachments sessionKey
       set_chatMessage] in *.
  assert (persistedSessions w2 = persistedSessions w1) as Hps.
  { unfold persistedSessions, readLocalChatStateStore. by rewrite Hls2. }
  destruct out; cbn [fst snd host_state chatQueue set_host_state chatMessage
    chatAttachments set_lastError]; (split_and!; try done;
    [ intros request Hin; rewrite Hreq2, Hreq1 in Hin;
      apply elem_of_app in Hin as [Hin|Hin%list_elem_of_singleton];
      [by left|right; by eexists]
    | intros Hst Hkey; unfold persistedEntry; rewrite Hps; by apply Hdraft ]).
Qed.

(** X21 (a queued message is a snapshot). [enqueueChatMessage] with a text
    that is not blank, or with attachments, appends one item to the queue:
    its text is the trimmed text, its id a new UUID, its time the time of
    the call, and its attachments are new objects that equal the ones
    given, which stay in the heap as they are; no request is issued and the
    controller is not touched. *)
Theorem enqueue_snapshot (host : ChatHost) (text : string) (refs : list loc)
    (refresh : bool) (w : World) :
  validRefs w refs →
  Js.trim text ≠ "" ∨ refs ≠ [] →
  let r := enqueueChatMessage dateNow generateUUID host text (Some refs) refresh w in
  ∃ item,
    chatQueue r.2 = chatQueue host ++ [item]
    ∧ q_text item = Js.trim text
    ∧ q_id item = generateUUID (uuids w)
    ∧ q_createdAt item = dateNow (clock w)
    ∧ q_refreshSessions item = refresh
    ∧ (refs = [] → q_attachments item = None)
    ∧ derefs r.1 (default [] (q_attachments item)) = derefs w refs
    ∧ Forall (λ l, length (heap w) ≤ l) (default [] (q_attachments item))
    ∧ heap r.1 = heap w ++ derefs w refs
    ∧ requests r.1 = requests w
    ∧ host_state r.2 = host_state host.
Proof.
  intros Hv Hcontent r. subst r. unfold enqueueChatMessage. cbv zeta.
  assert (negb (Js.truthy (Js.trim text))
          && negb match refs with [] => false | _ :: _ => true end = false) as ->.
  { destruct Hcontent as [Ht%truthy_true|Hr]; [by rewrite Ht|].
    destruct refs; [done|]. by rewrite andb_false_r. }
  unfold newUUID, now.
  change (clock (set_uuids (S (uuids w)) w)) with (clock w).
  destruct refs as [|l refs].
  - cbn. eexists. split; [reflexivity|]. cbn. rewrite app_nil_r. by split_and!.
  - set (w2 := set_clock (S (clock w)) (set_uuids (S (uuids w)) w)).
    assert (validRefs w2 (l :: refs)) as Hv2 by exact Hv.
    pose proof (copyAttachments_spec (l :: refs) w2 Hv2)
      as (Hheap & Hcopies & _ & _ & _).
    pose proof (copyAttachments_requests (l :: refs) w2) as Hreq.
    change (default [] (Some (l :: refs))) with (l :: refs).
    destruct (copyAttachments (l :: refs) w2) as [copies w3]. cbn [fst snd] in *.
    eexists. split; [reflexivity|].
    cbn [q_text q_id q_createdAt q_refreshSessions q_attachments default
         host_state set_chatQueue].
    change (heap w2) with (heap w) in *. change (derefs w2) with (derefs w) in *.
    change (requests w2) with (requests w) in *.
    split_and!; try done.
    + rewrite Hcopies, <- (length_derefs_valid w (l :: refs) Hv).
      by apply derefs_seq.
    + rewrite Hcopies. apply Forall_forall. intros x Hx%elem_of_seq. lia.
Qed.

(** X22 (no send while busy). While the controller is disconnected or
    busy, and when the queue is empty, [flushChatQueue] does nothing; and
    whatever it does, the queue it leaves is a suffix of the queue it found
    and the requests made before are still the first ones of the log. *)
Theorem flush_is_guarded (host : ChatHost) (w : World) :
  (connected (host_state host) = false ∨ isChatBusy host = true ∨ chatQueue host = [] →
   flushChatQueue dateNow generateUUID extractText host w = (w, host))
  ∧ chatQueue (flushChatQueue dateNow generateUUID extractText host w).2
      `suffix_of` chatQueue host
  ∧ requestsGrow w (flushChatQueue dateNow generateUUID extractText host w).1.
Proof.
  split_and!.
  - rewrite flushChatQueue_unfold. intros [-> | [-> | ->]]; [done| |].
    + by rewrite orb_true_r.
    + by destruct (_ || _).
  - apply flushChatQueue_queue.
  - apply flushChatQueue_requests.
Qed.

End Abort.

(** ** What goes to the gateway *)

Section Wire.
Variable dateNow : nat → Z.
Variable generateUUID : nat → string.
Variable extractText : JsValue → option string.

(** X23 (sending a text). With a client and a connection, sending a text
    that is not blank, without attachments, issues one [chat.send] request:
    for the session, with the trimmed text as the message, a new UUID as
    the idempotency key and no attachments. When the request resolves and
    no event arrives in the meantime, the send returns the UUID, the run of
    that id is active with an empty stream, [chatSending] is false,
    [lastError] is null and the history has one more message, the user's
    text. *)
Theorem text_send (state : ChatState) (c : GatewayBrowserClient) (message : string)
    (w : World) :
  client state = Some c → connected state = true → Js.trim message ≠ "" →
  let runId := generateUUID (uuids w) in
  let request :=
    ChatSend {| cs_sessionKey := sessionKey state; cs_message := Js.trim message;
                cs_deliver := false; cs_idempotencyKey := runId;
                cs_attachments := None |} in
  let r := sendChatMessage dateNow generateUUID extractText state message None w in
  requests r.1.1 = requests w ++ [request]
  ∧ (∀ result,
       respond c (requests w) request = {| pushed := []; outcome := Resolved result |} →
       r.2 = Some runId
       ∧ chatRunId r.1.2 = Some runId ∧ chatStream r.1.2 = Some ""
       ∧ chatStreamStartedAt r.1.2 = Some (dateNow (clock w))
       ∧ chatSending r.1.2 = false ∧ lastError r.1.2 = None
       ∧ chatMessages r.1.2
         = chatMessages state
           ++ [userMessage [textBlock (Js.trim message)] (dateNow (clock w))]
       ∧ chatMessage r.1.2 = chatMessage state).
Proof.
  intros Hc Hconn Ht runId request r. subst r.
  apply truthy_true in Ht.
  unfold sendChatMessage. rewrite Hc, Hconn. cbn [negb default]. cbv zeta.
  unfold filterRefs. cbn [List.filter length Nat.eqb negb andb].
  rewrite Ht. cbn [negb andb].
  unfold now, newUUID, issue, buildContentBlocks, buildOutboundMessage,
    buildVoiceNotePromptText, derefs.
  cbn [omap list_omap map app List.filter Js.truthy].
  rewrite Ht. cbn [app List.filter Js.join String.concat].
  change (uuids (set_clock (S (clock w)) w)) with (uuids w).
  change (requests (set_uuids (S (uuids w)) (set_clock (S (clock w)) w)))
    with (requests w).
  cbn [sessionKey set_run set_lastError set_chatSending set_chatMessages].
  fold runId. fold request.
  match goal with
  | |- context [await _ _ ?reply ?st ?wr] =>
      pose proof (await_frame dateNow extractText reply st wr) as Hf;
      cbv zeta in Hf
  end.
  split.
  - destruct (await _ _ _ _ _) as [[w5 state6] out].
    cbn [fst snd] in Hf. destruct Hf as (_ & [_ _ Hreq _ _] & _).
    destruct out; cbn [fst snd requests set_clock]; by rewrite Hreq.
  - intros result Hreply. rewrite Hreply. unfold await.
    cbn [pushed outcome handlePushed fst snd]. by split_and!.
Qed.

(** X24 (what a save request carries). With a client and a connection, for
    a voice note without a persisted id whose data URL parses,
    [persistVoiceNoteAttachment] issues one [voice-notes.save] request: for
    the session, with the mime type and the content of the data URL, and
    with a transcript that the gateway's [sanitizeTranscript] reads as the
    normalized transcript of the attachment. *)
Theorem save_request_payload (state : ChatState) (c : GatewayBrowserClient)
    (attachment : loc) (a : ChatAttachment) (w : World) :
  client state = Some c → connected state = true →
  heap w !! attachment = Some a → unsaved a →
  is_Some (dataUrlToBase64 (a_dataUrl a)) →
  ∃ params,
    requests (persistVoiceNoteAttachment_start state attachment w).1
    = requests w ++ [VoiceNotesSave params]
    ∧ vs_sessionKey params = sessionKey state
    ∧ vs_source params = default SourceUpload (a_source a)
    ∧ a_dataUrl a
      = "data:" +:+ vs_audio_mimeType params +:+ ";base64," +:+ vs_audio_content params
    ∧ VoiceNotes.sanitizeTranscript (vs_transcript params) (vs_transcriptParts params)
      = normalizeTranscript a.
Proof.
  intros Hc Hconn Ha Hun [[mimeType content] Hurl].
  unfold persistVoiceNoteAttachment_start. rewrite Hc, Hconn, Ha. cbn [negb].
  unfold unsaved in Hun. rewrite Hun. cbn [Js.truthy]. rewrite Hurl.
  unfold issue. cbn [fst requests set_requests].
  eexists. split; [reflexivity|].
  cbn [vs_sessionKey vs_source vs_audio_mimeType vs_audio_content vs_transcript
       vs_transcriptParts].
  assert (dataUrlToBase64 (a_dataUrl a) = Some (mimeType, content)
          → a_dataUrl a = "data:" +:+ mimeType +:+ ";base64," +:+ content
            ∧ mimeType ≠ "") as Hparts.
  { unfold dataUrlToBase64.
    destruct (Js.stripPrefix "data:" (a_dataUrl a)) as [rest|] eqn:E1; [|done].
    apply stripPrefix_Some in E1 as ->.
    destruct (Js.span ";" rest) as [m rest'] eqn:E2.
    apply span_spec in E2 as (-> & Hm & _).
    destruct (Js.stripPrefix ";base64," rest') as [c0|] eqn:E3; [|done].
    apply stripPrefix_Some in E3 as ->.
    destruct (Js.truthy m) eqn:Htm; [|done].
    destruct (Js.truthy c0); [|done]. simpl.
    destruct (Js.all _ c0); [|done]. intros [= <- <-].
    split; [done|by apply truthy_true]. }
  destruct (Hparts Hurl) as [Hdata Hm%truthy_true]. rewrite Hm.
  split_and!; [done|done|exact Hdata|].
  unfold VoiceNotes.sanitizeTranscript.
  destruct (Js.truthy (normalizeTranscript a)) eqn:E.
  - apply normalizeTranscript_trimmed.
  - by apply truthy_false in E.
Qed.

Lemma derefs_cons (w : World) (l : loc) (refs : list loc) :
  derefs w (l :: refs)
  = match heap w !! l with
    | Some a => a :: derefs w refs
    | None => derefs w refs
    end.
Proof. unfold derefs. cbn [omap list_omap]. by destruct (heap w !! l). Qed.

Lemma derefs_extend (w w' : World) (extra : list ChatAttachment) (refs : list loc) :
  heap w' = heap w ++ extra → validRefs w refs → derefs w' refs = derefs w refs.
Proof.
  intros Hheap. induction 1 as [|l refs [a Ha] _ IH]; [done|].
  rewrite !derefs_cons, Hheap, Ha, (lookup_app_l_Some _ _ _ _ Ha). by f_equal.
Qed.

Lemma validRefs_extend (w w' : World) (extra : list ChatAttachment) (refs : list loc) :
  heap w' = heap w ++ extra → validRefs w refs → validRefs w' refs.
Proof.
  intros Hheap Hv. unfold validRefs in *. eapply Forall_impl; [exact Hv|].
  intros r [b Hb]. exists b. rewrite Hheap. by apply lookup_app_l_Some.
Qed.

Lemma patchAttachments_derefs (attachmentId persistedNoteId : string)
    (refs : list loc) (w : World) :
  validRefs w refs →
  derefs (patchAttachments attachmentId persistedNoteId refs w).2
         (patchAttachments attachmentId persistedNoteId refs w).1
  = map (λ a, if String.eqb (a_id a) attachmentId
              then setPersistedNoteId persistedNoteId a else a)
        (derefs w refs).
Proof.
  revert w. induction refs as [|l refs IH]; intros w Hv; [done|].
  apply Forall_cons in Hv as [[a Ha] Hv]. cbn [patchAttachments]. rewrite Ha.
  rewrite (derefs_cons w), Ha. cbn [map].
  destruct (String.eqb (a_id a) attachmentId) eqn:E.
  - unfold alloc.
    set (w1 := set_heap (heap w ++ [setPersistedNoteId persistedNoteId a]) w).
    assert (heap w1 = heap w ++ [setPersistedNoteId persistedNoteId a]) as Hw1 by done.
    pose proof (validRefs_extend w w1 _ refs Hw1 Hv) as Hv1.
    pose proof (derefs_extend w w1 _ refs Hw1 Hv) as Hsame.
    specialize (IH w1 Hv1).
    pose proof (patchAttachments_frame attachmentId persistedNoteId refs w1)
      as (_ & _ & _ & _ & _ & _ & extra & Hheap).
    destruct (patchAttachments attachmentId persistedNoteId refs w1) as [rest' w2].
    cbn [fst snd] in *. rewrite derefs_cons, Hheap, Hw1.
    rewrite lookup_app_l by (rewrite length_app; simpl; lia).
    rewrite lookup_app_r by lia. rewrite Nat.sub_diag. cbn [lookup list_lookup].
    by rewrite IH, Hsame.
  - specialize (IH w Hv).
    pose proof (patchAttachments_frame attachmentId persistedNoteId refs w)
      as (_ & _ & _ & _ & _ & _ & extra & Hheap).
    destruct (patchAttachments attachmentId persistedNoteId refs w) as [rest' w2].
    cbn [fst snd] in *.
    rewrite derefs_cons, Hheap, (lookup_app_l_Some _ _ _ _ Ha). by rewrite IH.
Qed.

(** X25 (the persisted id reaches the composer, by copy). After
    [updateLocalVoiceNotePersistence] the attachments of the composer are
    the ones before, with the persisted id set on those of the given id;
    the objects that were in the heap are all still there as they were (an
    attachment that changes is replaced by a copy), so what the queue or an
    earlier array refers to reads as before; and no request is issued. *)
Theorem persisted_id_by_copy (state : ChatState) (attachmentId persistedNoteId : string)
    (w : World) :
  validRefs w (chatAttachments state) →
  let r := updateLocalVoiceNotePersistence state attachmentId persistedNoteId w in
  derefs r.1 (chatAttachments r.2)
  = map (λ a, if String.eqb (a_id a) attachmentId
              then setPersistedNoteId persistedNoteId a else a)
        (derefs w (chatAttachments state))
  ∧ (∃ copies, heap r.1 = heap w ++ copies)
  ∧ (∀ refs, validRefs w refs → derefs r.1 refs = derefs w refs)
  ∧ requests r.1 = requests w.
Proof.
  intros Hv r.
  pose proof (updateLocalVoiceNotePersistence_frame state attachmentId persistedNoteId w)
    as Hf. cbv zeta in Hf. fold r in Hf.
  destruct Hf as (_ & Hreq & _ & _ & _ & copies & Hheap).
  split_and!; [|by exists copies|intros refs; by apply derefs_extend with copies|done].
  subst r. unfold updateLocalVoiceNotePersistence.
  pose proof (patchAttachments_derefs attachmentId persistedNoteId
                (chatAttachments state) w Hv) as Hd.
  destruct (patchAttachments _ _ _ w) as [refs w1]. cbn [fst snd] in *.
  cbn [chatAttachments set_chatMessages set_chatAttachments].
  rewrite <- Hd. unfold derefs.
  match goal with
  | |- context [updateLocalSessionState ?k ?f w1] =>
      destruct (updateLocalSessionState_frame k f w1) as [Hh _ _ _ _]
  end.
  by rewrite Hh.
Qed.

End Wire.

(** ** Repairing and removing *)

Section Repair.
Variable dateNow : nat → Z.
Variable generateUUID : nat → string.
Variable extractText : JsValue → option string.

(** X26 (an empty entry does not last). With a storage that takes writes
    and a session key that is not blank, when the cache holds an empty entry
    for the session (as [updateLocalVoiceNotePersistence] can leave one),
    [syncChatComposerLocalState] for a composer with no draft and no
    attachment that can be stored removes the entry. *)
Theorem sync_removes_empty_entry (state : ChatState) (w : World)
    (entry : StoredSessionChatState) :
  writableStorage w → Js.trim (sessionKey state) ≠ "" →
  persistedSessions w !! sessionKey state = Some entry → isEmptyEntry entry →
  chatMessage state = "" →
  omap toStoredChatAttachment (derefs w (chatAttachments state)) = [] →
  persistedSessions (syncChatComposerLocalState state w) !! sessionKey state = None.
Proof.
  intros Hst Hkey Hentry (_ & _ & Hnotes) Hdraft Hnone.
  pose proof (syncChatComposerLocalState_entry state w Hst Hkey) as H.
  cbv zeta in H. rewrite Hnone, Hdraft in H. unfold persistedEntry in H.
  rewrite Hentry in H. cbn [default] in H.
  destruct (persistedSessions (syncChatComposerLocalState state w) !! sessionKey state)
    as [entry'|]; [|done].
  destruct H as (Hne & Hd & Ha & _ & Hv). exfalso. apply Hne.
  unfold isEmptyEntry. rewrite Hd, Ha, Hv. cbn. split_and!; [by left|by left|done].
Qed.


End Repair.

(** ** Examples *)

Import Scenario.

(** The failing input of C1: the first persisted voice note of a session
    that has no cache entry. *)
Lemma persistence_leaves_empty_entry_witness :
  persistedSessions (world []) !! "main" = None
  ∧ persistedSessions
      (updateLocalVoiceNotePersistence (controller None) "voice-1" "voice-note-123"
         (world [])).1
    !! "main"
    = Some emptySession.
Proof.
  split; [reflexivity|].
  exact (persistence_leaves_empty_entry (controller None) "voice-1" "voice-note-123"
           (world []) {| ls_item := None; ls_writable := true |}
           eq_refl eq_refl ltac:(discriminate) eq_refl).
Defined.

(** The send of the draft [hello] through a gateway that cannot be reached. *)
Lemma send_failure_keeps_bubble_witness :
  let state' :=
    host_state
      (handleSendChat dateNow generateUUID extractText (typing unreachable "hello" [])
         None false (world [])).2 in
  chatMessage state' = "hello"
  ∧ chatAttachments state' = []
  ∧ chatRunId state' = None ∧ chatStream state' = None
  ∧ chatStreamStartedAt state' = None
  ∧ chatSending state' = false
  ∧ lastError state' = Some "Error: network".
Proof.
  pose proof (send_failure_keeps_bubble dateNow generateUUID extractText
                (typing unreachable "hello" []) unreachable (world []) "Error: network")
    as H.
  cbv zeta in H.
  assert (client (host_state (typing unreachable "hello" [])) = Some unreachable) as H1
    by reflexivity.
  assert (connected (host_state (typing unreachable "hello" [])) = true) as H2
    by reflexivity.
  assert (isChatBusy (typing unreachable "hello" []) = false) as H3
    by (vm_compute; reflexivity).
  assert (validRefs (world []) (chatAttachments (host_state (typing unreachable "hello" []))))
    as H4 by apply List.Forall_nil.
  assert (Js.trim (chatMessage (host_state (typing unreachable "hello" []))) ≠ ""
          ∨ chatAttachments (host_state (typing unreachable "hello" [])) ≠ []) as H5
    by (left; vm_compute; discriminate).
  assert (isChatStopCommand
            (Js.trim (chatMessage (host_state (typing unreachable "hello" [])))) = false)
    as H6 by (vm_compute; reflexivity).
  assert (∀ log params,
            outcome (respond unreachable log (ChatSend params)) = Rejected "Error: network")
    as H7 by reflexivity.
  destruct (H H1 H2 H3 H4 H5 H6 H7) as (G1 & G2 & G3 & G4 & G5 & G6 & G7 & _).
  cbv zeta. split_and!; assumption.
Defined.

(** The bubble stays and the error is shown as a message. *)
Lemma send_failure_counterexample :
  chatMessages (host_state (typing unreachable "hello" [])) = []
  ∧ chatMessages
      (host_state
         (handleSendChat dateNow generateUUID extractText (typing unreachable "hello" [])
            None false (world [])).2)
    = [userMessage [textBlock "hello"] 1700000000000;
       errorMessage "Error: network" 1700000000001].
Proof. split; vm_compute; reflexivity. Qed.

(** The buffer [Hello] with the deltas [He] and [Hello world]. *)
Lemma delta_guard_witness :
  handleChatEvent dateNow extractText (streaming "run-1" "Hello" 100)
    (Some (event "run-1" StDelta (assistantText "He"))) (world [])
  = (world [], streaming "run-1" "Hello" 100, Some StDelta)
  ∧ handleChatEvent dateNow extractText (streaming "run-1" "Hello" 100)
      (Some (event "run-1" StDelta (assistantText "Hello world"))) (world [])
    = (world [], streaming "run-1" "Hello world" 100, Some StDelta).
Proof.
  split.
  - pose proof (delta_guard dateNow extractText (streaming "run-1" "Hello" 100)
                  (event "run-1" StDelta (assistantText "He")) (world []) "He"
                  eq_refl eq_refl eq_refl eq_refl) as H.
    cbv zeta in H.
    destruct (handleChatEvent _ _ _ _ _) as [[w' state'] result].
    destruct H as (-> & -> & _ & Hkeep & _).
    rewrite Hkeep; [reflexivity|]. cbn. intros [?|?]; [discriminate|lia].
  - pose proof (delta_guard dateNow extractText (streaming "run-1" "Hello" 100)
                  (event "run-1" StDelta (assistantText "Hello world")) (world [])
                  "Hello world" eq_refl eq_refl eq_refl eq_refl) as H.
    cbv zeta in H.
    destruct (handleChatEvent _ _ _ _ _) as [[w' state'] result].
    destruct H as (-> & -> & Hreplace & _).
    rewrite Hreplace; [reflexivity|]. right. cbn. lia.
Defined.

(** A final event of another run, and one of the own run. *)
Lemma final_event_witness :
  handleChatEvent dateNow extractText (streaming "run-user" "Working..." 123)
    (Some (event "run-announce" StFinal (assistantText "Sub-agent findings"))) (world [])
  = (world [], streaming "run-user" "Working..." 123, Some StFinal)
  ∧ handleChatEvent dateNow extractText (streaming "run-1" "Reply" 100)
      (Some (event "run-1" StFinal JUndefined)) (world [])
    = (world [], controller None, Some StFinal).
Proof.
  split.
  - exact (proj1 (final_event dateNow extractText (streaming "run-user" "Working..." 123)
                    (event "run-announce" StFinal (assistantText "Sub-agent findings"))
                    (world []) eq_refl eq_refl)
             "run-user" eq_refl ltac:(discriminate) ltac:(discriminate)
             ltac:(discriminate)).
  - destruct (proj2 (final_event dateNow extractText (streaming "run-1" "Reply" 100)
                       (event "run-1" StFinal JUndefined) (world []) eq_refl eq_refl)
                eq_refl) as (state' & -> & _ & _ & _ & ->).
    reflexivity.
Defined.

(** An aborted run with a partial message, with a malformed message and
    with nothing streamed. *)
Lemma aborted_event_witness :
  chatMessages
    (handleChatEvent dateNow extractText (streaming "run-1" "Partial reply" 100)
       (Some (event "run-1" StAborted (assistantText "Partial reply"))) (world [])).1.2
  = [assistantText "Partial reply"]
  ∧ chatMessages
      (handleChatEvent dateNow extractText (streaming "run-1" "Partial reply" 100)
         (Some (event "run-1" StAborted (JStr "not-an-assistant-message"))) (world [])).1.2
    = [synthesized "Partial reply" 1700000000000]
  ∧ chatMessages
      (handleChatEvent dateNow extractText (streaming "run-1" "" 100)
         (Some (event "run-1" StAborted JUndefined)) (world [])).1.2
    = [].
Proof.
  split_and!.
  - pose proof (aborted_event dateNow extractText (streaming "run-1" "Partial reply" 100)
                  (event "run-1" StAborted (assistantText "Partial reply")) (world [])
                  eq_refl eq_refl eq_refl) as H.
    destruct (handleChatEvent _ _ _ _ _) as [[w' state'] result].
    destruct H as (_ & _ & _ & _ & H & _). apply H.
    by eexists _, _.
  - pose proof (aborted_event dateNow extractText (streaming "run-1" "Partial reply" 100)
                  (event "run-1" StAborted (JStr "not-an-assistant-message")) (world [])
                  eq_refl eq_refl eq_refl) as H.
    destruct (handleChatEvent _ _ _ _ _) as [[w' state'] result].
    destruct H as (_ & _ & _ & _ & _ & H & _). apply H.
    + intros (props & items & Heq & _). discriminate Heq.
    + discriminate.
  - pose proof (aborted_event dateNow extractText (streaming "run-1" "" 100)
                  (event "run-1" StAborted JUndefined) (world [])
                  eq_refl eq_refl eq_refl) as H.
    destruct (handleChatEvent _ _ _ _ _) as [[w' state'] result].
    destruct H as (_ & _ & _ & _ & _ & _ & H). apply H.
    + intros (props & items & Heq & _). discriminate Heq.
    + reflexivity.
Defined.

(** An attachment that is persisted already, and one that is persisted twice. *)
Lemma persist_idempotent_witness :
  persistVoiceNoteAttachment dateNow extractText (controller (Some accepting)) 0
    (world [voiceNote "voice-persisted" (Some "note-abc")])
  = (world [voiceNote "voice-persisted" (Some "note-abc")], controller (Some accepting),
     Returned (Some "note-abc"))
  ∧ (let first :=
       persistVoiceNoteAttachment dateNow extractText (controller (Some accepting)) 0
         (world [voiceNote "voice-1" None]) in
     first.2 = Returned (Some "voice-note-123")
     ∧ length (requests first.1.1) = 1
     ∧ persistVoiceNoteAttachment dateNow extractText first.1.2 0 first.1.1
       = (first.1.1, first.1.2, Returned (Some "voice-note-123"))).
Proof.
  split.
  - exact (proj1 (persist_idempotent dateNow extractText) (controller (Some accepting))
             accepting 0 (voiceNote "voice-persisted" (Some "note-abc")) "note-abc"
             (world [voiceNote "voice-persisted" (Some "note-abc")])
             eq_refl eq_refl eq_refl eq_refl ltac:(discriminate)).
  - cbv zeta. split_and!; [vm_compute; reflexivity..|].
    apply (proj1 (proj2 (persist_idempotent dateNow extractText))
             (controller (Some accepting)) 0 (world [voiceNote "voice-1" None])).
    vm_compute. reflexivity.
Defined.

(** Without a client the id is not returned; a blank id is saved again; a
    padded id comes back trimmed. *)
Lemma persist_counterexample :
  persistVoiceNoteAttachment dateNow extractText (controller None) 0
    (world [voiceNote "voice-persisted" (Some "note-abc")])
  = (world [voiceNote "voice-persisted" (Some "note-abc")], controller None,
     Returned None)
  ∧ length
      (requests
         (persistVoiceNoteAttachment dateNow extractText (controller (Some accepting)) 0
            (world [voiceNote "voice-blank" (Some " ")])).1.1)
    = 1
  ∧ (persistVoiceNoteAttachment dateNow extractText (controller (Some accepting)) 0
       (world [voiceNote "voice-padded" (Some " note-abc ")])).2
    = Returned (Some "note-abc").
Proof. split_and!; vm_compute; reflexivity. Qed.

(** A blank message without attachments, and a send without a client. *)
Lemma sendChatMessage_nothing_to_send_witness :
  sendChatMessage dateNow generateUUID extractText (controller (Some accepting)) "   "
    (Some []) (world [])
  = (world [], controller (Some accepting), None)
  ∧ sendChatMessage dateNow generateUUID extractText (controller None) "hello" None
      (world [])
    = (world [], controller None, None).
Proof.
  split.
  - apply sendChatMessage_nothing_to_send. right; right. split; [reflexivity|by right].
  - apply sendChatMessage_nothing_to_send. by left.
Defined.

(** A send with a voice note while the durable storage fails. *)
Lemma send_completes_when_persistence_fails_witness :
  let r :=
    sendChatMessage dateNow generateUUID extractText (controller (Some storageDown))
      "Use this note" (Some [0]) (world [voiceNote "voice-2" None]) in
  r.2 = Some "run-0"
  ∧ chatSending r.1.2 = false
  ∧ warnings r.1.1 = ["[control-ui] voice note persist failed: Error: persist failed"]
  ∧ chatMessages r.1.2
    = [userMessage
         [textBlock "Use this note";
          buildVoiceNoteContentBlock (voiceNote "voice-2" None) None true]
         1700000000000]
  ∧ noPersistedNoteId (buildVoiceNoteContentBlock (voiceNote "voice-2" None) None true).
Proof.
  pose proof (send_completes_when_persistence_fails dateNow generateUUID extractText
                (controller (Some storageDown)) storageDown "Use this note" [0]
                (world [voiceNote "voice-2" None]) eq_refl eq_refl) as H.
  cbv zeta in H.
  destruct H as (H1 & H2 & _).
  - intros log params. by eexists.
  - intros log params. by eexists.
  - intros l a Hin Hl. change (l ∈ [0]) in Hin.
    apply list_elem_of_singleton in Hin as ->. by injection Hl as <-.
  - exists 0, (voiceNote "voice-2" None). split_and!; [by left|reflexivity|discriminate].
  - cbv zeta. split_and!; [exact H1|exact H2|vm_compute; reflexivity..].
Defined.

(** A message submitted while a run is active, a flush through a gateway
    that cannot be reached, and a send whose run is over when it returns. *)
Lemma send_queue_discipline_witness :
  (let r :=
     handleSendChat dateNow generateUUID extractText (typingWhileBusy accepting "hello")
       None false (world []) in
   map q_text (chatQueue r.2) = ["hello"] ∧ requests r.1 = [])
  ∧ (let r :=
       flushChatQueue dateNow generateUUID extractText
         (host (controller (Some unreachable)) [queued "later"; queued "last"]) (world []) in
     chatQueue r.2 = [queued "later"; queued "last"] ∧ length (requests r.1) = 1)
  ∧ (let sent :=
       sendChatMessage dateNow generateUUID extractText (controller (Some instant))
         "hello" None (world []) in
     let r :=
       sendChatMessageNow dateNow generateUUID extractText
         (host (controller (Some instant)) [queued "later"]) "hello"
         (queuedOpts (queued "hello")) (world []) in
     sent.2 = Some "run-0" ∧ chatRunId sent.1.2 = None ∧ chatQueue r.1.2 = []).
Proof.
  pose proof (send_queue_discipline dateNow generateUUID extractText)
    as (Hbusy & _ & Hflush & Hafter & _).
  split_and!.
  - cbv zeta.
    assert (connected (host_state (typingWhileBusy accepting "hello")) = true) as H1
      by reflexivity.
    assert ((submitted (typingWhileBusy accepting "hello") None).1 ≠ ""
            ∨ (submitted (typingWhileBusy accepting "hello") None).2 ≠ []) as H2
      by (left; vm_compute; discriminate).
    assert (isChatStopCommand (submitted (typingWhileBusy accepting "hello") None).1
            = false) as H3 by (vm_compute; reflexivity).
    assert (isChatBusy (typingWhileBusy accepting "hello") = true) as H4
      by (vm_compute; reflexivity).
    destruct (Hbusy (typingWhileBusy accepting "hello") None false (world []) H1 H2 H3 H4)
      as ((item & Hq & Htext) & Hreq & _).
    split; [|exact Hreq]. rewrite Hq. cbn [chatQueue typingWhileBusy host map app].
    rewrite Htext. vm_compute. reflexivity.
  - cbv zeta.
    assert (isChatBusy (host (controller (Some unreachable))
                          [queued "later"; queued "last"]) = false) as H2
      by (vm_compute; reflexivity).
    destruct (Hflush (host (controller (Some unreachable)) [queued "later"; queued "last"])
                (queued "later") [queued "last"] (world []) eq_refl H2 eq_refl)
      as (_ & Hback & _).
    rewrite Hback by (vm_compute; reflexivity). split; vm_compute; reflexivity.
  - cbv zeta. split_and!; [vm_compute; reflexivity..|].
    assert (isRunId
              (sendChatMessage dateNow generateUUID extractText
                 (host_state (host (controller (Some instant)) [queued "later"])) "hello"
                 (so_attachments (queuedOpts (queued "hello"))) (world [])).2 = true) as H1
      by (vm_compute; reflexivity).
    assert (isActive
              (sendChatMessage dateNow generateUUID extractText
                 (host_state (host (controller (Some instant)) [queued "later"])) "hello"
                 (so_attachments (queuedOpts (queued "hello"))) (world [])).1.2 = false)
      as H2 by (vm_compute; reflexivity).
    destruct (Hafter (host (controller (Some instant)) [queued "later"]) "hello"
                (queuedOpts (queued "hello")) (world []) (queued "later") []
                H1 H2 eq_refl eq_refl)
      as (_ & _ & Hsuffix).
    apply suffix_nil_inv, Hsuffix. vm_compute. reflexivity.
Defined.

(** The stop command [wait] is not queued while busy, and a failed send
    leaves the queue waiting. *)
Lemma send_queue_counterexample :
  (let r :=
     handleSendChat dateNow generateUUID extractText (typingWhileBusy accepting "wait")
       None false (world []) in
   isChatBusy (typingWhileBusy accepting "wait") = true
   ∧ chatQueue r.2 = []
   ∧ requests r.1 = [ChatAbort "main" (Some "run-user")])
  ∧ (let r :=
       handleSendChat dateNow generateUUID extractText
         (typing unreachable "hello" [queued "later"]) None false (world []) in
     isChatBusy r.2 = false
     ∧ chatQueue r.2 = [queued "later"]
     ∧ map (fun request =>
              match request with
              | ChatSend params => cs_message params
              | _ => ""
              end)
           (requests r.1)
       = ["hello"]).
Proof. split; cbv zeta; split_and!; vm_compute; reflexivity. Qed.


(** A voice note goes to the cache and comes back in the same stored form. *)
Lemma stored_attachment_round_trip_witness :
  ∃ s, toStoredChatAttachment (voiceNote "voice-1" None) = Some s
       ∧ fromStoredChatAttachment s = Some (unstored s)
       ∧ toStoredChatAttachment (unstored s) = Some s.
Proof.
  assert (∃ s, toStoredChatAttachment (voiceNote "voice-1" None) = Some s) as [s Hs]
    by (eexists; vm_compute; reflexivity).
  exists s.
  destruct (stored_attachment_round_trip (voiceNote "voice-1" None) s Hs) as [H1 H2].
  split_and!; [exact Hs|exact H1|apply H2; vm_compute; reflexivity].
Defined.


(** Typing a draft without a storage. *)
Lemma cache_fails_soft_witness :
  syncChatComposerLocalState (set_chatMessage "hello" (controller None)) offline
  = offline.
Proof.
  assert (unavailableStorage offline) as H1 by (by left).
  exact (proj1 (cache_fails_soft dateNow (set_chatMessage "hello" (controller None))
                  (voiceNote "voice-1" None) 100 (host (controller None) []) "hello"
                  offline H1)).
Defined.






(** A delta of another run while a run is streaming. *)
Lemma unrelated_events_ignored_witness :
  handleChatEvent dateNow extractText (streaming "run-1" "Hello" 100)
    (Some (event "run-2" StDelta (assistantText "Other"))) (world [])
  = (world [], streaming "run-1" "Hello" 100, None).
Proof.
  apply unrelated_events_ignored. right. split; [|discriminate].
  split; [discriminate|]. exists "run-1". by split_and!.
Defined.

(** An error event without a message. *)
Lemma error_event_witness :
  ∃ state',
    handleChatEvent dateNow extractText (streaming "run-1" "Hello" 100)
      (Some (event "run-1" StError JUndefined)) (world [])
    = (world [], state', Some StError)
    ∧ chatRunId state' = None ∧ lastError state' = Some "chat error".
Proof.
  assert (¬ foreignRun (streaming "run-1" "Hello" 100)
              (event "run-1" StError JUndefined)) as H1.
  { intros (_ & runId & Hrun & _ & Hdiff). injection Hrun as <-. by apply Hdiff. }
  destruct (error_event dateNow extractText (streaming "run-1" "Hello" 100)
              (event "run-1" StError JUndefined) (world []) eq_refl H1 eq_refl)
    as (state' & Hres & Hrun & _ & _ & Herr & _).
  exists state'. by split_and!.
Defined.

(** The bubble of a recorded voice note. *)
Lemma local_bubble_once_witness :
  hasLocalVoiceNoteMessage
    (updateLocalVoiceMessageInMemory [] (voiceNote "voice-1" None) 100) "voice-1"
  = true
  ∧ updateLocalVoiceMessageInMemory
      (updateLocalVoiceMessageInMemory [] (voiceNote "voice-1" None) 100)
      (voiceNote "voice-1" None) 100
    = updateLocalVoiceMessageInMemory [] (voiceNote "voice-1" None) 100.
Proof.
  assert (Js.trim (a_id (voiceNote "voice-1" None)) = a_id (voiceNote "voice-1" None))
    as H1 by (vm_compute; reflexivity).
  assert (a_id (voiceNote "voice-1" None) ≠ "") as H2 by discriminate.
  pose proof (local_bubble_once [] (voiceNote "voice-1" None) 100 H1 H2) as H.
  cbv zeta in H. destruct H as (Hhas & _ & _ & _ & Hidem).
  split; [exact Hhas|exact Hidem].
Defined.

(** The bubble of the voice note once it is saved. *)
Lemma persisted_bubble_witness :
  patchLocalVoiceMessagePersistedId
    (buildLocalVoiceNoteMessage (voiceNote "voice-1" None) 100)
    "voice-1" "voice-note-123"
  = buildLocalVoiceNoteMessage
      (setPersistedNoteId "voice-note-123" (voiceNote "voice-1" None)) 100.
Proof.
  assert (Js.trim (a_id (voiceNote "voice-1" None)) = a_id (voiceNote "voice-1" None))
    as H1 by (vm_compute; reflexivity).
  assert (a_id (voiceNote "voice-1" None) ≠ "") as H2 by discriminate.
  assert (unsaved (voiceNote "voice-1" None)) as H3 by reflexivity.
  assert (Js.trim "voice-note-123" = "voice-note-123") as H4 by (vm_compute; reflexivity).
  assert ("voice-note-123" ≠ "") as H5 by discriminate.
  exact (persisted_bubble (voiceNote "voice-1" None) 100 "voice-note-123"
           H1 H2 H3 H4 H5).
Defined.

(** Aborting a run: the run stays active until its event arrives. *)
Lemma abort_is_not_optimistic_witness :
  requests
    (abortChatRun dateNow extractText
       (set_run (Some "run-1") (Some "") (Some 1%Z) (controller (Some accepting)))
       (world [])).1.1
  = [ChatAbort "main" (Some "run-1")]
  ∧ chatRunId
      (abortChatRun dateNow extractText
         (set_run (Some "run-1") (Some "") (Some 1%Z) (controller (Some accepting)))
         (world [])).1.2
    = Some "run-1".
Proof.
  pose proof (abort_is_not_optimistic dateNow extractText
                (set_run (Some "run-1") (Some "") (Some 1%Z) (controller (Some accepting)))
                accepting (world []) eq_refl eq_refl) as H.
  cbv zeta in H. destruct H as (Hreq & _ & _ & Hquiet).
  split; [exact Hreq|]. rewrite Hquiet; reflexivity.
Defined.

(** Typing [stop]. *)
Lemma stop_command_aborts_witness :
  chatMessage
    (host_state
       (handleSendChat dateNow generateUUID extractText (typing accepting "stop" [])
          None false (world [])).2)
  = ""
  ∧ chatQueue
      (handleSendChat dateNow generateUUID extractText (typing accepting "stop" [])
         None false (world [])).2
    = [].
Proof.
  assert (isChatStopCommand (submitted (typing accepting "stop" []) None).1 = true)
    as H1 by (vm_compute; reflexivity).
  pose proof (stop_command_aborts dateNow generateUUID extractText
                (typing accepting "stop" []) None false (world []) eq_refl H1) as H.
  cbv zeta in H. destruct H as (_ & Hdraft & _ & Hqueue & _).
  split; [exact Hdraft|exact Hqueue].
Defined.

(** Queueing a message with a voice note. *)
Lemma enqueue_snapshot_witness :
  ∃ item,
    chatQueue
      (enqueueChatMessage dateNow generateUUID (host (controller None) []) " later "
         (Some [0]) false (world [voiceNote "voice-1" None])).2
    = [item]
    ∧ q_text item = "later"
    ∧ derefs
        (enqueueChatMessage dateNow generateUUID (host (controller None) []) " later "
           (Some [0]) false (world [voiceNote "voice-1" None])).1
        (default [] (q_attachments item))
      = [voiceNote "voice-1" None].
Proof.
  assert (validRefs (world [voiceNote "voice-1" None]) [0]) as H1.
  { apply Forall_cons. split; [by eexists|constructor]. }
  assert (Js.trim " later " ≠ "" ∨ [0] ≠ []) as H2 by (by right).
  pose proof (enqueue_snapshot dateNow generateUUID (host (controller None) []) " later "
                [0] false (world [voiceNote "voice-1" None]) H1 H2) as H.
  cbv zeta in H. destruct H as (item & Hq & Ht & _ & _ & _ & _ & Hd & _).
  exists item. split_and!; [exact Hq| |exact Hd].
  rewrite Ht. vm_compute. reflexivity.
Defined.

(** Sending [hello]. *)
Lemma text_send_witness :
  requests
    (sendChatMessage dateNow generateUUID extractText (controller (Some accepting))
       " hello " None (world [])).1.1
  = [ChatSend {| cs_sessionKey := "main"; cs_message := "hello"; cs_deliver := false;
                 cs_idempotencyKey := "run-0"; cs_attachments := None |}]
  ∧ (sendChatMessage dateNow generateUUID extractText (controller (Some accepting))
       " hello " None (world [])).2
    = Some "run-0".
Proof.
  assert (Js.trim " hello " ≠ "") as H1 by (vm_compute; discriminate).
  pose proof (text_send dateNow generateUUID extractText (controller (Some accepting))
                accepting " hello " (world []) eq_refl eq_refl H1) as H.
  cbv zeta in H. destruct H as (Hreq & Hres).
  split.
  - rewrite Hreq. vm_compute. reflexivity.
  - destruct (Hres None) as (Hid & _); [reflexivity|].
    rewrite Hid. vm_compute. reflexivity.
Defined.

(** The save request of a recorded voice note. *)
Lemma save_request_payload_witness :
  ∃ params,
    requests
      (persistVoiceNoteAttachment_start (controller (Some accepting)) 0
         (world [voiceNote "voice-1" None])).1
    = [VoiceNotesSave params]
    ∧ VoiceNotes.sanitizeTranscript (vs_transcript params) (vs_transcriptParts params)
      = normalizeTranscript (voiceNote "voice-1" None).
Proof.
  assert (is_Some (dataUrlToBase64 (a_dataUrl (voiceNote "voice-1" None)))) as H1
    by (eexists; vm_compute; reflexivity).
  destruct (save_request_payload (controller (Some accepting)) accepting 0
              (voiceNote "voice-1" None) (world [voiceNote "voice-1" None])
              eq_refl eq_refl eq_refl eq_refl H1)
    as (params & Hreq & _ & _ & _ & Ht).
  exists params. split; [exact Hreq|exact Ht].
Defined.

(** The composer's voice note gets its persisted id on a copy. *)
Lemma persisted_id_by_copy_witness :
  derefs
    (updateLocalVoiceNotePersistence (set_chatAttachments [0] (controller None))
       "voice-1" "voice-note-123" (world [voiceNote "voice-1" None])).1
    (chatAttachments
       (updateLocalVoiceNotePersistence (set_chatAttachments [0] (controller None))
          "voice-1" "voice-note-123" (world [voiceNote "voice-1" None])).2)
  = [setPersistedNoteId "voice-note-123" (voiceNote "voice-1" None)]
  ∧ derefs
      (updateLocalVoiceNotePersistence (set_chatAttachments [0] (controller None))
         "voice-1" "voice-note-123" (world [voiceNote "voice-1" None])).1
      [0]
    = [voiceNote "voice-1" None].
Proof.
  assert (validRefs (world [voiceNote "voice-1" None])
            (chatAttachments (set_chatAttachments [0] (controller None)))) as H1.
  { apply Forall_cons. split; [by eexists|constructor]. }
  pose proof (persisted_id_by_copy (set_chatAttachments [0] (controller None))
                "voice-1" "voice-note-123" (world [voiceNote "voice-1" None]) H1) as H.
  cbv zeta in H. destruct H as (Hd & _ & Hkeep & _).
  split; [rewrite Hd; reflexivity|].
  rewrite (Hkeep [0] H1). reflexivity.
Defined.

(** The empty entry of C1 is removed by the next sync of an empty composer. *)
Lemma sync_removes_empty_entry_witness :
  persistedSessions (cached {[ "main" := emptySession ]}) !! "main" = Some emptySession
  ∧ persistedSessions
      (syncChatComposerLocalState (controller None)
         (cached {[ "main" := emptySession ]})) !! "main"
    = None.
Proof.
  assert (persistedSessions (cached {[ "main" := emptySession ]})
            !! sessionKey (controller None) = Some emptySession) as H0
    by (vm_compute; reflexivity).
  split; [exact H0|].
  assert (writableStorage (cached {[ "main" := emptySession ]})) as H1
    by (eexists; split; reflexivity).
  assert (Js.trim (sessionKey (controller None)) ≠ "") as H2
    by (vm_compute; discriminate).
  assert (isEmptyEntry emptySession) as H3 by (split_and!; by left).
  exact (sync_removes_empty_entry (controller None)
           (cached {[ "main" := emptySession ]}) emptySession H1 H2 H0 H3
           eq_refl eq_refl).
Defined.

